(** * The cooperative timer scheduler of mcbeam-plus (scheduler/default.go)

    A shallow embedding of [DefaultScheduler]: the timer record, the two
    hand-off channels, [NewTimer], [RemoveTimer], [stopTimer], [pexec],
    [Cron] and the select loop spawned by [Start].

    Modelling conventions.
    - [int64] values are integers of [Z]; every addition the source performs
      on them is followed by [Int64.wrap].
    - [sync.Map] keyed by timer id is a [gmap Z Timer].  A [*Timer] lives in
      exactly one place at a time (the admission channel, then the map under
      the key it was stored at), so a write through the pointer is an update
      of the map at the key the pointer was loaded from.
    - A channel is the FIFO list of the values handed to it, senders parked
      on a full channel included; [len(ch)] is that length capped by the
      capacity.
    - [Range] visits every key once, in an order the runtime chooses: [Cron]
      takes the order as an argument.
    - A callback is a transformer of the user's own state that either
      returns or panics with a value, nil included; it does not call back
      into the scheduler.  [time.Now()] is an argument of the operation that reads it.
    - Every exported operation is one atomic step. *)

From stdpp Require Import gmap strings list.
From Stdlib Require Import ZArith Lia.

Local Open Scope Z_scope.

(** ** 64-bit signed arithmetic *)

Module Int64.

Definition min_int : Z := - 2 ^ 63.
Definition max_int : Z := 2 ^ 63 - 1.

(** Two's complement wrap-around of a mathematical integer into [int64]. *)
Definition wrap (z : Z) : Z := (z + 2 ^ 63) mod 2 ^ 64 - 2 ^ 63.

Definition in_range (z : Z) : Prop := min_int <= z <= max_int.

End Int64.

(** ** Errors and panics *)

(** Modelled from the spec: the [constants] package is not among the sources;
    [RemoveTimer] distinguishes an unknown id ([ErrTimerNotFound]) from a
    timer already marked closed ([ErrCloseClosedTimer]).  Go's [nil] error is
    [None]. *)
Inductive error : Type :=
  | ErrTimerNotFound
  | ErrCloseClosedTimer.

(** The value carried by a panic, an [interface{}]: nil after
    [panic(nil)], any other value as the logger would print it. *)
Inductive PanicVal : Type :=
  | PanicNil
  | PanicMsg (msg : string).

(** A Go call either returns or panics. *)
Inductive result (A : Type) : Type :=
  | Ok (a : A)
  | Panic (v : PanicVal).
Arguments Ok {A} a.
Arguments Panic {A} v.

Definition nil_deref : PanicVal :=
  PanicMsg "runtime error: invalid memory address or nil pointer dereference".
Definition close_closed : PanicVal := PanicMsg "close of closed channel".
Definition makechan_range : PanicVal := PanicMsg "makechan: size out of range".

(** [recover()] in a deferred call, given how the function ended ([None]:
    it returned).  It yields the value of the panic under way and stops the
    panic; it yields nil when there is no panic and, in the language before
    Go 1.21, nil as well after [panic(nil)]. *)
Definition recover (p : option PanicVal) : option PanicVal :=
  match p with
  | None | Some PanicNil => None
  | Some v => Some v
  end.

(** [time.Time], identified with its [UnixNano()] reading. *)
Definition Time : Type := Z.
Definition UnixNano (now : Time) : Z := now.

(** Modelled from the spec: the sentinel counter of an unbounded timer
    (declared next to [TimerOptions], outside the sources). *)
Definition LoopForever : Z := -1.

(** ** Channels *)

Definition chan_len {A : Type} (cap : Z) (q : list A) : Z :=
  Z.min (Z.of_nat (length q)) cap.

Definition chan_send {A : Type} (x : A) (q : list A) : list A := q ++ [x].

Section Scheduler.

(** The state user callbacks act on. *)
Context {W : Type}.

(** [type Func func()]: [None] when the body returns, [Some v] when it
    panics with [v]. *)
Definition Func : Type := W -> W * option PanicVal.

(** Modelled from the spec: [TimerOptions] is declared outside the sources;
    its four fields are the ones [NewTimer] and [Cron] read.  A nil [Fn] or
    [Condition] is [None]. *)
Record TimerOptions : Type := mkTimerOptions {
  Fn : option Func;
  Interval : Z;
  Counter : Z;
  Condition : option (Time -> bool)
}.

Definition TimerOption : Type := TimerOptions -> TimerOptions.

(** Modelled from the spec: the two recognised options. *)
Definition WithCounter (n : Z) : TimerOption :=
  fun o => mkTimerOptions (Fn o) (Interval o) n (Condition o).
Definition WithCondition (c : Time -> bool) : TimerOption :=
  fun o => mkTimerOptions (Fn o) (Interval o) (Counter o) (Some c).

(** The fields of [Timer] carry the name of the struct, [opts] and [id]
    being taken. *)
Record Timer : Type := mkTimer {
  Timer_opts : TimerOptions;
  Timer_id : Z;
  Timer_createAt : Z;
  Timer_elapse : Z;
  Timer_closed : Z
}.

Definition set_Counter (n : Z) (t : Timer) : Timer :=
  mkTimer (mkTimerOptions (Fn (Timer_opts t)) (Interval (Timer_opts t)) n
             (Condition (Timer_opts t)))
          (Timer_id t) (Timer_createAt t) (Timer_elapse t) (Timer_closed t).
Definition set_elapse (e : Z) (t : Timer) : Timer :=
  mkTimer (Timer_opts t) (Timer_id t) (Timer_createAt t) e (Timer_closed t).
Definition set_closed (c : Z) (t : Timer) : Timer :=
  mkTimer (Timer_opts t) (Timer_id t) (Timer_createAt t) (Timer_elapse t) c.

(** Modelled from the spec: [Options] is declared outside the sources; the
    scheduler reads the tick period and the capacity of both channels. *)
Record Options : Type := mkOptions {
  Precision : Z;
  timerBacklog : Z
}.

Record DefaultScheduler : Type := mkScheduler {
  opts : Options;
  incrementID : Z;
  timers : gmap Z Timer;
  ChClosingTimer : list Z;
  ChCreatedTimer : list Timer;
  exit : bool                  (* [true] once the channel is closed *)
}.

Definition set_timers (m : gmap Z Timer) (d : DefaultScheduler) : DefaultScheduler :=
  mkScheduler (opts d) (incrementID d) m (ChClosingTimer d) (ChCreatedTimer d) (exit d).
Definition set_ChClosingTimer (q : list Z) (d : DefaultScheduler) : DefaultScheduler :=
  mkScheduler (opts d) (incrementID d) (timers d) q (ChCreatedTimer d) (exit d).
Definition set_ChCreatedTimer (q : list Timer) (d : DefaultScheduler) : DefaultScheduler :=
  mkScheduler (opts d) (incrementID d) (timers d) (ChClosingTimer d) q (exit d).
Definition set_incrementID (n : Z) (d : DefaultScheduler) : DefaultScheduler :=
  mkScheduler (opts d) n (timers d) (ChClosingTimer d) (ChCreatedTimer d) (exit d).
Definition set_exit (b : bool) (d : DefaultScheduler) : DefaultScheduler :=
  mkScheduler (opts d) (incrementID d) (timers d) (ChClosingTimer d) (ChCreatedTimer d) b.

(** [make(chan _, n)] panics on a negative size. *)
Definition newScheduler (options : Options) : result DefaultScheduler :=
  if timerBacklog options <? 0 then Panic makechan_range
  else Ok (mkScheduler options 0 ∅ [] [] false).

(** [close(d.exit)]: closing a closed channel panics. *)
Definition Stop (d : DefaultScheduler) : result DefaultScheduler :=
  if exit d then Panic close_closed else Ok (set_exit true d).

(** The record [NewTimer] builds before it hands it to the admission
    channel: the defaults, then the options in the order given. *)
Definition new_record (id now interval : Z) (fn : option Func)
    (opt : list TimerOption) : Timer :=
  mkTimer (fold_left (fun o f => f o) opt
             (mkTimerOptions fn interval LoopForever None))
          id now interval 0.

(** [NewTimer].  The send [d.ChCreatedTimer <- t] puts the record at the
    tail of the queue; on a full channel the caller stays parked there with
    its record until the loop has made room. *)
Definition NewTimer (now : Time) (interval : Z) (fn : option Func)
    (opt : list TimerOption) (d : DefaultScheduler) : Z * DefaultScheduler :=
  let id := Int64.wrap (incrementID d + 1) in
  let t := new_record id (UnixNano now) interval fn opt in
  (Timer_id t,
   set_ChCreatedTimer (chan_send t (ChCreatedTimer d)) (set_incrementID id d)).

(** [t] is the record the map holds at key [k]. *)
Definition stopTimer (k : Z) (t : Timer) (d : DefaultScheduler)
    : option error * DefaultScheduler :=
  if 0 <? Timer_closed t then (Some ErrCloseClosedTimer, d)
  else if chan_len (timerBacklog (opts d)) (ChClosingTimer d) <? timerBacklog (opts d)
  then (None, set_timers (<[k := set_closed 1 t]> (timers d))
                (set_ChClosingTimer (chan_send (Timer_id t) (ChClosingTimer d)) d))
  else (None, set_timers (<[k := set_Counter 0 t]> (timers d)) d).

Definition RemoveTimer (id : Z) (d : DefaultScheduler) : option error * DefaultScheduler :=
  match timers d !! id with
  | None => (Some ErrTimerNotFound, d)
  | Some t => stopTimer id t d
  end.

(** What an execution lets one observe. *)
Inductive Obs : Type :=
  | ObsCall (id : Z)                  (* [fn()] entered for the timer at key [id] *)
  | ObsLog (id : Z) (v : PanicVal)    (* [logger.Errorf] of a recovered panic *)
  | ObsAdmit (t : Timer)              (* record handed to the admission channel *)
  | ObsDelete (id : Z).               (* a present key deleted from the map *)

(** [pexec].  Calling a nil [Func] panics.  The deferred function runs
    however [fn()] ended and its [recover] stops every panic, so [pexec]
    always returns; it logs under [err != nil], that is when [recover]
    yields a value that is not nil. *)
Definition pexec (id : Z) (fn : option Func) (w : W) : W * list Obs :=
  let '(w', p) := match fn with
                  | None => (w, Some nil_deref)
                  | Some f => f w
                  end in
  match recover p with
  | Some err => (w', [ObsCall id; ObsLog id err])
  | None => (w', [ObsCall id])
  end.

Definition Config : Type := DefaultScheduler * W.

(** The firing test of an interval timer: [t.createAt+t.elapse <= unn]. *)
Definition due (now : Time) (t : Timer) : bool :=
  Int64.wrap (Timer_createAt t + Timer_elapse t) <=? UnixNano now.

(** The bookkeeping after the callback of an interval timer:
    [t.elapse += int64(t.opts.Interval)], then the counter. *)
Definition advance (t : Timer) : Timer :=
  let t1 := set_elapse (Int64.wrap (Timer_elapse t + Interval (Timer_opts t))) t in
  if negb (Counter (Timer_opts t1) =? LoopForever) && (0 <? Counter (Timer_opts t1))
  then set_Counter (Counter (Timer_opts t1) - 1) t1
  else t1.

(** The closure [Cron] passes to [Range], applied to the entry [id -> t]. *)
Definition cron_visit (now : Time) (id : Z) (t : Timer) (c : Config)
    : Config * list Obs :=
  let '(d, w) := c in
  if Counter (Timer_opts t) =? 0 then
    if chan_len (timerBacklog (opts d)) (ChClosingTimer d) <? timerBacklog (opts d)
    then ((snd (stopTimer id t d), w), [])
    else ((d, w), [])
  else
    match Condition (Timer_opts t) with
    | Some cond =>
        if cond now then
          let '(w', tr) := pexec id (Fn (Timer_opts t)) w in ((d, w'), tr)
        else ((d, w), [])
    | None =>
        if due now t then
          let '(w', tr) := pexec id (Fn (Timer_opts t)) w in
          ((set_timers (<[id := advance t]> (timers d)) d, w'), tr)
        else ((d, w), [])
    end.

(** Whether the scan at [now] enters the callback of a record it visits. *)
Definition fires (now : Time) (t : Timer) : bool :=
  negb (Counter (Timer_opts t) =? 0) &&
  match Condition (Timer_opts t) with
  | Some cond => cond now
  | None => due now t
  end.

(** [Cron]: one scan at wall time [now], visiting the keys in [order]. *)
Fixpoint Cron_range (now : Time) (order : list Z) (c : Config) : Config * list Obs :=
  match order with
  | [] => (c, [])
  | id :: rest =>
      match timers (fst c) !! id with
      | None => Cron_range now rest c
      | Some t =>
          let '(c1, tr1) := cron_visit now id t c in
          let '(c2, tr2) := Cron_range now rest c1 in
          (c2, tr1 ++ tr2)
      end
  end.

Definition Cron (now : Time) (order : list Z) (c : Config) : Config * list Obs :=
  Cron_range now order c.

(** ** The select loop of [Start] *)

(** The case [select] takes in one iteration. *)
Inductive Event : Type :=
  | EvExit                                  (* [<-d.exit] *)
  | EvTick (now : Time) (order : list Z)    (* [<-ticker.C] *)
  | EvCreated                               (* [t := <-d.ChCreatedTimer] *)
  | EvClosing.                              (* [id := <-d.ChClosingTimer] *)

(** How a statement ends: by reaching its end, or by a [break] with no
    label, which ends the innermost [for], [switch] or [select] around
    it. *)
Inductive Ctl : Type := Fallthrough | Break.

(** A complete [Range] visits each key of the map once. *)
Definition range_order (order : list Z) (d : DefaultScheduler) : bool :=
  bool_decide (NoDup order) && bool_decide (list_to_set order = dom (timers d)).

(** The body of the case [select] takes: [None] when the case is not
    ready. *)
Definition select_case (ev : Event) (c : Config) : option (Config * list Obs * Ctl) :=
  let '(d, w) := c in
  match ev with
  | EvExit => if exit d then Some (c, [], Break) else None
  | EvTick now order =>
      if range_order order d then Some (Cron now order c, Fallthrough) else None
  | EvCreated =>
      match ChCreatedTimer d with
      | [] => None
      | t :: q =>
          Some ((set_timers (<[Timer_id t := t]> (timers d)) (set_ChCreatedTimer q d), w),
                [], Fallthrough)
      end
  | EvClosing =>
      match ChClosingTimer d with
      | [] => None
      | id :: q =>
          Some ((set_timers (delete id (timers d)) (set_ChClosingTimer q d), w),
                match timers d !! id with Some _ => [ObsDelete id] | None => [] end,
                Fallthrough)
      end
  end.

(** The [select] statement.  It is the innermost statement around the
    bodies of its cases that a [break] can end: a [break] in a case ends the
    [select], and the [select] has then reached its end. *)
Definition select_stmt (ev : Event) (c : Config) : option (Config * list Obs * Ctl) :=
  match select_case ev c with
  | None => None
  | Some (c', tr, Fallthrough) => Some (c', tr, Fallthrough)
  | Some (c', tr, Break) => Some (c', tr, Fallthrough)
  end.

(** Where the goroutine is after the iterations given: still in the [for],
    or past it, having run [ticker.Stop()]. *)
Inductive LoopStatus : Type := InLoop | TickerStopped.

(** The goroutine of [Start] along a schedule of ready cases:
    [for { select { ... } }; ticker.Stop()].  The [for] has no condition; it
    ends when its body, the [select] statement, ends by a [break]. *)
Fixpoint Start_loop (evs : list Event) (c : Config)
    : option (LoopStatus * Config * list Obs) :=
  match evs with
  | [] => Some (InLoop, c, [])
  | ev :: rest =>
      match select_stmt ev c with
      | None => None
      | Some (c1, tr1, Break) => Some (TickerStopped, c1, tr1)
      | Some (c1, tr1, Fallthrough) =>
          match Start_loop rest c1 with
          | None => None
          | Some (st, c2, tr2) => Some (st, c2, tr1 ++ tr2)
          end
      end
  end.

(** ** Runs: producers' calls interleaved with iterations of the loop *)

Inductive Op : Type :=
  | CallNewTimer (now : Time) (interval : Z) (fn : option Func) (opt : list TimerOption)
  | CallRemoveTimer (id : Z)
  | CallStop
  | LoopSelect (ev : Event).

(** [None]: the step cannot be taken (case not ready, or the call panics). *)
Definition exec (op : Op) (c : Config) : option (Config * list Obs) :=
  let '(d, w) := c in
  match op with
  | CallNewTimer now interval fn opt =>
      let '(id, d') := NewTimer now interval fn opt d in
      Some ((d', w), [ObsAdmit (new_record id (UnixNano now) interval fn opt)])
  | CallRemoveTimer id => Some ((snd (RemoveTimer id d), w), [])
  | CallStop =>
      match Stop d with
      | Ok d' => Some ((d', w), [])
      | Panic _ => None
      end
  | LoopSelect ev =>
      match select_case ev c with
      | Some (c', tr, _) => Some (c', tr)
      | None => None
      end
  end.

Fixpoint run (ops : list Op) (c : Config) : option (Config * list Obs) :=
  match ops with
  | [] => Some (c, [])
  | op :: rest =>
      match exec op c with
      | None => None
      | Some (c1, tr1) =>
          match run rest c1 with
          | None => None
          | Some (c2, tr2) => Some (c2, tr1 ++ tr2)
          end
      end
  end.

(** Number of times the callback of the timer at key [id] was entered. *)
Fixpoint calls (id : Z) (tr : list Obs) : nat :=
  match tr with
  | [] => O
  | ObsCall k :: tr' => if decide (k = id) then S (calls id tr') else calls id tr'
  | _ :: tr' => calls id tr'
  end.

(** Number of times key [id] was taken out of the map. *)
Fixpoint deletes (id : Z) (tr : list Obs) : nat :=
  match tr with
  | [] => O
  | ObsDelete k :: tr' => if decide (k = id) then S (deletes id tr') else deletes id tr'
  | _ :: tr' => deletes id tr'
  end.

(** The ids whose callbacks were entered, in the order of the calls. *)
Fixpoint call_ids (tr : list Obs) : list Z :=
  match tr with
  | [] => []
  | ObsCall k :: tr' => k :: call_ids tr'
  | _ :: tr' => call_ids tr'
  end.

(** The same schedule with every callback replaced by nil, so that each
    call faults. *)
Definition drop_Fn (t : Timer) : Timer :=
  mkTimer (mkTimerOptions None (Interval (Timer_opts t)) (Counter (Timer_opts t))
             (Condition (Timer_opts t)))
          (Timer_id t) (Timer_createAt t) (Timer_elapse t) (Timer_closed t).

Definition drop_callbacks (d : DefaultScheduler) : DefaultScheduler :=
  mkScheduler (opts d) (incrementID d) (drop_Fn <$> timers d)
    (ChClosingTimer d) (drop_Fn <$> ChCreatedTimer d) (exit d).

(** Number of records admitted under the id [id]. *)
Fixpoint admissions (id : Z) (tr : list Obs) : nat :=
  match tr with
  | [] => O
  | ObsAdmit t :: tr' =>
      if decide (Timer_id t = id) then S (admissions id tr') else admissions id tr'
  | _ :: tr' => admissions id tr'
  end.

(** ** The shape of a step, and the invariant of runs *)

(** How a step that entered the callback [n] times may change a record it
    keeps: the id and the condition stay, a closed record stays closed, and
    the counter of an interval timer with a non-negative counter pays for
    every call. *)
Definition evolves (n : nat) (t t' : Timer) : Prop :=
  Timer_id t' = Timer_id t /\
  Condition (Timer_opts t') = Condition (Timer_opts t) /\
  (0 < Timer_closed t -> 0 < Timer_closed t') /\
  (Condition (Timer_opts t) = None -> 0 <= Counter (Timer_opts t) ->
   0 <= Counter (Timer_opts t') /\
   Z.of_nat n + Counter (Timer_opts t') <= Counter (Timer_opts t)).

(** A step that neither stores nor deletes a key, nor allocates an id. *)
Definition quiet_step (d d' : DefaultScheduler) (tr : list Obs) : Prop :=
  incrementID d' = incrementID d /\
  ChCreatedTimer d' = ChCreatedTimer d /\
  (forall k, deletes k tr = O) /\
  (forall k, admissions k tr = O) /\
  (forall k,
     match timers d !! k with
     | None => timers d' !! k = None /\ calls k tr = O
     | Some t => exists t', timers d' !! k = Some t' /\ evolves (calls k tr) t t'
     end).

Inductive step_shape (d d' : DefaultScheduler) (tr : list Obs) : Prop :=
  | shape_quiet :
      quiet_step d d' tr -> step_shape d d' tr
  | shape_admit (t : Timer) :
      Timer_id t = incrementID d + 1 ->
      incrementID d' = incrementID d + 1 ->
      timers d' = timers d ->
      ChCreatedTimer d' = ChCreatedTimer d ++ [t] ->
      tr = [ObsAdmit t] ->
      step_shape d d' tr
  | shape_store (t : Timer) (q : list Timer) :
      ChCreatedTimer d = t :: q ->
      incrementID d' = incrementID d ->
      timers d' = <[Timer_id t := t]> (timers d) ->
      ChCreatedTimer d' = q ->
      tr = [] ->
      step_shape d d' tr
  | shape_delete (id : Z) :
      incrementID d' = incrementID d ->
      timers d' = delete id (timers d) ->
      ChCreatedTimer d' = ChCreatedTimer d ->
      tr = match timers d !! id with Some _ => [ObsDelete id] | None => [] end ->
      step_shape d d' tr.

(** A record is live while it waits on the admission channel or sits in
    the map. *)
Definition live (d : DefaultScheduler) (t : Timer) : Prop :=
  (exists k, timers d !! k = Some t) \/ t ∈ ChCreatedTimer d.

Record Inv (d : DefaultScheduler) (tr : list Obs) : Prop := mkInv {
  inv_counter : 0 <= incrementID d;
  inv_keys : forall k t, timers d !! k = Some t ->
    Timer_id t = k /\ 1 <= k <= incrementID d;
  inv_queue : forall t, t ∈ ChCreatedTimer d ->
    1 <= Timer_id t <= incrementID d /\ timers d !! Timer_id t = None;
  inv_queue_nodup : NoDup (Timer_id <$> ChCreatedTimer d);
  inv_deleted : forall k,
    (deletes k tr <= 1)%nat /\
    (deletes k tr <> O ->
     timers d !! k = None /\ (k ∉ (Timer_id <$> ChCreatedTimer d)) /\ k <= incrementID d);
  inv_called : forall k, calls k tr <> O -> 1 <= k <= incrementID d;
  inv_admitted : forall k,
    (admissions k tr <= 1)%nat /\ (admissions k tr <> O -> 1 <= k <= incrementID d);
  inv_budget : forall a,
    In (ObsAdmit a) tr ->
    Condition (Timer_opts a) = None -> 0 <= Counter (Timer_opts a) ->
    Z.of_nat (calls (Timer_id a) tr) <= Counter (Timer_opts a) /\
    forall t, live d t -> Timer_id t = Timer_id a ->
      Condition (Timer_opts t) = None /\ 0 <= Counter (Timer_opts t) /\
      Z.of_nat (calls (Timer_id a) tr) + Counter (Timer_opts t) <= Counter (Timer_opts a)
}.

(** The record under key [k], if any, is marked closed, and no record with
    that id waits for admission. *)
Definition closed_or_gone (k : Z) (d : DefaultScheduler) : Prop :=
  0 <= incrementID d /\ k <= incrementID d /\
  (k ∉ (Timer_id <$> ChCreatedTimer d)) /\
  (timers d !! k = None \/ exists t, timers d !! k = Some t /\ 0 < Timer_closed t).

(** An interval timer whose next firing time [createAt + elapse] is at
    least one interval after its admission and fits in [int64]. *)
Definition timely (t : Timer) : Prop :=
  Condition (Timer_opts t) = None /\
  0 < Interval (Timer_opts t) /\
  0 <= Timer_createAt t /\
  Interval (Timer_opts t) <= Timer_elapse t /\
  Timer_createAt t + Timer_elapse t <= Int64.max_int.

End Scheduler.

(** * Concrete schedulers and runs *)

Module Ex.

(** A callback that counts its own invocations in the user state. *)
Definition bump : @Func nat := fun w => (S w, None).
(** A callback that always panics. *)
Definition boom : @Func nat := fun w => (w, Some (PanicMsg "boom")).
(** A callback that does [panic(nil)]. *)
Definition hush : @Func nat := fun w => (w, Some PanicNil).

Definition fresh (backlog : Z) : @DefaultScheduler nat :=
  mkScheduler (mkOptions 100000000 backlog) 0 ∅ [] [] false.

(** A scheduler holding the records [ts] under their own ids. *)
Definition holding (backlog : Z) (closing : list Z) (ts : list (@Timer nat))
    : @DefaultScheduler nat :=
  mkScheduler (mkOptions 100000000 backlog) (Z.of_nat (length ts))
    (list_to_map (map (fun t => (Timer_id t, t)) ts)) closing [] false.

Definition interval_timer (id created interval counter : Z) (fn : option (@Func nat))
    : @Timer nat :=
  mkTimer (mkTimerOptions fn interval counter None) id created interval 0.

(** A condition that holds at every tick. *)
Definition always : Time -> bool := fun _ => true.

End Ex.

Module ExScan.

(** Timer 1 faults on every call, timer 2 counts its calls. *)
Definition faulty_and_sound : @DefaultScheduler nat :=
  Ex.holding 2 []
    [Ex.interval_timer 1 0 5 LoopForever (Some Ex.boom);
     Ex.interval_timer 2 0 5 3 (Some Ex.bump)].

End ExScan.

Module ExRun.

Definition o1 : Options := mkOptions 100000000 1.
Definition o2 : Options := mkOptions 100000000 2.

(** The scheduler [newScheduler] returns. *)
Definition start (o : Options) : @DefaultScheduler nat :=
  mkScheduler o 0 ∅ [] [] false.

Definition outcome (o : Options) (ops : list (@Op nat)) :=
  run ops (start o, O).

Definition final_d (o : Options) (ops : list (@Op nat)) : @DefaultScheduler nat :=
  match outcome o ops with
  | Some ((d, _), _) => d
  | None => start o
  end.
Definition final_w (o : Options) (ops : list (@Op nat)) : nat :=
  match outcome o ops with Some ((_, w), _) => w | None => O end.
Definition final_tr (o : Options) (ops : list (@Op nat)) : list (@Obs nat) :=
  match outcome o ops with Some (_, tr) => tr | None => [] end.

(** One timer with counter 1: admitted, fired at 10, found with counter 0
    at 20 and sent to retirement, removed, and a last tick on the empty
    set. *)
Definition single_shot : list (@Op nat) :=
  [CallNewTimer 0 5 (Some Ex.bump) [WithCounter 1];
   LoopSelect EvCreated;
   LoopSelect (EvTick 10 [1]);
   LoopSelect (EvTick 20 [1]);
   LoopSelect EvClosing;
   LoopSelect (EvTick 30 [])].

(** One timer with counter 1 and a condition that always holds, and two
    ticks. *)
Definition conditioned : list (@Op nat) :=
  [CallNewTimer 0 5 (Some Ex.bump) [WithCounter 1; WithCondition Ex.always];
   LoopSelect EvCreated;
   LoopSelect (EvTick 10 [1]);
   LoopSelect (EvTick 20 [1])].

(** Capacity 1: two timers are admitted, the cancellation of the first
    fills the retirement channel. *)
Definition retirement_full : list (@Op nat) :=
  [CallNewTimer 0 5 (Some Ex.bump) [];
   LoopSelect EvCreated;
   CallNewTimer 0 5 (Some Ex.bump) [];
   LoopSelect EvCreated;
   CallRemoveTimer 1].

(** Capacity 1: timer 1 runs forever, timer 2 is admitted with counter 0,
    and the cancellation of timer 1 fills the retirement channel. *)
Definition zero_counter_full : list (@Op nat) :=
  [CallNewTimer 0 5 (Some Ex.bump) [];
   LoopSelect EvCreated;
   CallNewTimer 0 5 (Some Ex.bump) [WithCounter 0];
   LoopSelect EvCreated;
   CallRemoveTimer 1].

(** Three timers, admitted and scanned when all are due: the callback of
    the first does [panic(nil)], that of the second panics with a value,
    the third returns. *)
Definition three_callbacks : list (@Op nat) :=
  [CallNewTimer 0 5 (Some Ex.hush) [];
   LoopSelect EvCreated;
   CallNewTimer 0 5 (Some Ex.boom) [];
   LoopSelect EvCreated;
   CallNewTimer 0 5 (Some Ex.bump) [];
   LoopSelect EvCreated;
   LoopSelect (EvTick 10 [1; 2; 3])].

(** Timer 1 is in the set, timer 2 waits for admission, and [Stop] has been
    called. *)
Definition stopped : list (@Op nat) :=
  [CallNewTimer 0 5 (Some Ex.bump) [];
   LoopSelect EvCreated;
   CallNewTimer 0 5 (Some Ex.bump) [];
   CallStop].

End ExRun.

Module ExMore.

Definition o0 : Options := mkOptions 100000000 0.

(** Where the steps [ops] lead from the configuration [c]. *)
Definition res_d (c : @Config nat) (ops : list (@Op nat)) : @DefaultScheduler nat :=
  match run ops c with Some ((d, _), _) => d | None => c.1 end.
Definition res_w (c : @Config nat) (ops : list (@Op nat)) : nat :=
  match run ops c with Some ((_, w), _) => w | None => c.2 end.
Definition res_tr (c : @Config nat) (ops : list (@Op nat)) : list (@Obs nat) :=
  match run ops c with Some (_, tr) => tr | None => [] end.

(** One timer, admitted. *)
Definition one_live : list (@Op nat) :=
  [CallNewTimer 0 5 (Some Ex.bump) []; LoopSelect EvCreated].

(** After the single shot: a second timer is admitted and fires. *)
Definition after_single_shot : list (@Op nat) :=
  [CallNewTimer 40 5 (Some Ex.bump) []; LoopSelect EvCreated;
   LoopSelect (EvTick 50 [2])].

(** Backlog 0: a timer is admitted, cancelled and scanned. *)
Definition cancel_without_backlog : list (@Op nat) :=
  [CallNewTimer 0 5 (Some Ex.bump) []; LoopSelect EvCreated;
   CallRemoveTimer 1; LoopSelect (EvTick 10 [1])].
Definition more_without_backlog : list (@Op nat) :=
  [LoopSelect (EvTick 20 [1]); CallRemoveTimer 1].

(** The admission of a timer and three ticks, the first of them early. *)
Definition three_ticks : list (@Op nat) :=
  [LoopSelect EvCreated; LoopSelect (EvTick 3 [1]);
   LoopSelect (EvTick 10 [1]); LoopSelect (EvTick 20 [1])].

(** One tick on a set that holds timer 1. *)
Definition one_tick : list (@Op nat) := [LoopSelect (EvTick 10 [1])].

(** Two timers with counter 0, admitted. *)
Definition two_zero_counters : list (@Op nat) :=
  [CallNewTimer 0 5 (Some Ex.bump) [WithCounter 0]; LoopSelect EvCreated;
   CallNewTimer 0 5 (Some Ex.bump) [WithCounter 0]; LoopSelect EvCreated].

End ExMore.

(** Closes a decidable goal on concrete data. *)
Ltac by_decision := apply (bool_decide_unpack _); vm_compute; exact I.

(** * The rest of [default.go] *)

(** Modelled from the spec: the type [Option] of the functions that take a
    pointer to [Options] is declared outside the sources; an option rewrites
    the configuration. *)
Definition Option : Type := Options -> Options.

Section SchedulerRest.
Context {W : Type}.

Definition set_opts (o : Options) (d : @DefaultScheduler W) : @DefaultScheduler W :=
  mkScheduler o (incrementID d) (timers d) (ChClosingTimer d) (ChCreatedTimer d) (exit d).

(** [Init]: the options are applied to [d.opts] in place, then the two
    channels are replaced, one after the other, by new empty ones of the
    new capacity.  [make] panics on a negative capacity, before the first
    channel is replaced; the options have been applied by then.  The
    result is the scheduler [Init] leaves and the panic, if any. *)
Definition Init (opt : list Option) (d : @DefaultScheduler W)
    : @DefaultScheduler W * option PanicVal :=
  let d1 := set_opts (fold_left (fun o f => f o) opt (opts d)) d in
  if timerBacklog (opts d1) <? 0 then (d1, Some makechan_range)
  else (set_ChCreatedTimer [] (set_ChClosingTimer [] d1), None).

(** Number of [NewTimer] calls and of [Stop] calls among the steps. *)
Fixpoint news (ops : list (@Op W)) : nat :=
  match ops with
  | [] => O
  | CallNewTimer _ _ _ _ :: rest => S (news rest)
  | _ :: rest => news rest
  end.

Fixpoint stops (ops : list (@Op W)) : nat :=
  match ops with
  | [] => O
  | CallStop :: rest => S (stops rest)
  | _ :: rest => stops rest
  end.

(** The id [k] has been handed out, and no record with it is in the set or
    on its way to it. *)
Definition gone (k : Z) (d : @DefaultScheduler W) : Prop :=
  0 <= incrementID d /\ k <= incrementID d /\
  (k ∉ (Timer_id <$> ChCreatedTimer d)) /\
  timers d !! k = None.

(** The state of the retirement channel: it holds, once each and within its
    capacity, the keys of the records that are marked closed; every record
    sits under its own id, and no record that waits for admission is
    closed. *)
Record Ret (d : @DefaultScheduler W) : Prop := mkRet {
  ret_cap : 0 <= timerBacklog (opts d);
  ret_len : Z.of_nat (length (ChClosingTimer d)) <= timerBacklog (opts d);
  ret_nodup : NoDup (ChClosingTimer d);
  ret_closed : forall k,
    k ∈ ChClosingTimer d <-> exists t, timers d !! k = Some t /\ 0 < Timer_closed t;
  ret_keys : forall k t, timers d !! k = Some t -> Timer_id t = k;
  ret_queue : forall t, t ∈ ChCreatedTimer d -> Timer_closed t <= 0
}.

(** No record the scan at [now] visits in [order] has counter 0 or
    fires. *)
Definition idle_at (now : Time) (order : list Z) (d : @DefaultScheduler W) : bool :=
  forallb (fun k =>
             match timers d !! k with
             | Some t => negb (Counter (Timer_opts t) =? 0) && negb (fires now t)
             | None => true
             end) order.

(** The times of the ticks, along the steps [ops] from [c], whose scan
    entered the callback of the timer at key [k]. *)
Fixpoint call_times (k : Z) (ops : list (@Op W)) (c : @Config W) : list Time :=
  match ops with
  | [] => []
  | op :: rest =>
      match exec op c with
      | None => []
      | Some (c1, tr1) =>
          match op with
          | LoopSelect (EvTick now _) =>
              if decide (calls k tr1 = O) then call_times k rest c1
              else now :: call_times k rest c1
          | _ => call_times k rest c1
          end
      end
  end.

(** The times of the ticks among the steps. *)
Fixpoint tick_times (ops : list (@Op W)) : list Time :=
  match ops with
  | [] => []
  | LoopSelect (EvTick now _) :: rest => now :: tick_times rest
  | _ :: rest => tick_times rest
  end.

(** Every live record with the id [k] was created at [cr] with the
    interval [iv] and is [timely]. *)
Definition tracked (k cr iv : Z) (d : @DefaultScheduler W) : Prop :=
  forall t, live d t -> Timer_id t = k ->
    timely t /\ Timer_createAt t = cr /\ Interval (Timer_opts t) = iv.

(** Every tick among the steps comes early enough for [now + iv] to fit in
    [int64]. *)
Definition ticks_fit (iv : Z) (ops : list (@Op W)) : bool :=
  forallb (fun now => UnixNano now + iv <=? Int64.max_int) (tick_times ops).

(** The record at key [k] has counter 0 and is not marked closed: the
    scan has yet to send it to retirement. *)
Definition zero_open_at (k : Z) (d : @DefaultScheduler W) : bool :=
  match timers d !! k with
  | Some t => (Counter (Timer_opts t) =? 0) && (Timer_closed t <=? 0)
  | None => false
  end.

(** How many of the keys of [order] are such. *)
Fixpoint zeros (order : list Z) (d : @DefaultScheduler W) : nat :=
  match order with
  | [] => O
  | k :: rest => ((if zero_open_at k d then 1 else 0) + zeros rest d)%nat
  end.

End SchedulerRest.

(** * Properties *)

(** ** Arithmetic of [int64] *)

Lemma wrap_in_range z : Int64.in_range (Int64.wrap z).
Proof.
  unfold Int64.in_range, Int64.wrap, Int64.min_int, Int64.max_int.
  pose proof (Z.mod_pos_bound (z + 2 ^ 63) (2 ^ 64) ltac:(lia)). lia.
Qed.

Lemma wrap_id z : Int64.in_range z -> Int64.wrap z = z.
Proof.
  unfold Int64.in_range, Int64.wrap, Int64.min_int, Int64.max_int. intros H.
  rewrite Z.mod_small by lia. lia.
Qed.

(** ** The select loop and the exit signal *)

Section Loop.
Context {W : Type}.
Implicit Types (d : @DefaultScheduler W) (c : @Config W) (w : W) (t : @Timer W).

Lemma select_stmt_falls_through ev (c : @Config W) r :
  select_stmt ev c = Some r -> r.2 = Fallthrough.
Proof.
  unfold select_stmt. destruct (select_case ev c) as [[[c1 tr1] []]|];
    [intros [= <-]; reflexivity|intros [= <-]; reflexivity|discriminate].
Qed.

(** No schedule of ready cases takes the goroutine past its [for]. *)
Lemma Start_loop_stays evs : forall c st c' tr,
  Start_loop evs c = Some (st, c', tr) -> st = InLoop.
Proof.
  induction evs as [|ev rest IH]; intros c st c' tr; cbn [Start_loop].
  - intros [= <- _ _]; reflexivity.
  - destruct (select_stmt ev c) as [[[c1 tr1] ctl]|] eqn:Es; [|discriminate].
    apply select_stmt_falls_through in Es. cbn [snd] in Es. subst ctl.
    destruct (Start_loop rest c1) as [[[st2 c2] tr2]|] eqn:E; [|discriminate].
    intros [= <- _ _]. eapply IH; eassumption.
Qed.

(** With the exit channel closed, its case is ready and leaves the
    configuration as it is. *)
Lemma select_exit_closed d w :
  exit d = true -> select_case EvExit (d, w) = Some ((d, w), [], Break).
Proof. intros H; simpl; rewrite H; reflexivity. Qed.

Lemma Start_loop_cons ev rest (c : @Config W) :
  Start_loop (ev :: rest) c =
    match select_case ev c with
    | None => None
    | Some (c1, tr1, _) =>
        match Start_loop rest c1 with
        | None => None
        | Some (st, c2, tr2) => Some (st, c2, tr1 ++ tr2)
        end
    end.
Proof.
  cbn [Start_loop]. unfold select_stmt.
  destruct (select_case ev c) as [[[c1 tr1] []]|]; reflexivity.
Qed.

Lemma select_created t q d w :
  ChCreatedTimer d = t :: q ->
  select_case EvCreated (d, w)
    = Some ((set_timers (<[Timer_id t := t]> (timers d)) (set_ChCreatedTimer q d), w),
            [], Fallthrough).
Proof. intros Hq. cbn [select_case]. rewrite Hq. reflexivity. Qed.

(** Serving the admission case once for every record that waits stores the
    last of them under its id. *)
Lemma drain_last q0 : forall t d w,
  ChCreatedTimer d = q0 ++ [t] ->
  exists d2,
    Start_loop (repeat EvCreated (S (length q0))) (d, w) = Some (InLoop, (d2, w), []) /\
    timers d2 !! Timer_id t = Some t /\ ChCreatedTimer d2 = [].
Proof.
  induction q0 as [|t0 q0 IH]; intros t d w Hq.
  - change (repeat EvCreated (S (length (@nil (@Timer W))))) with [EvCreated].
    rewrite Start_loop_cons, (select_created t [] d w Hq).
    eexists. split; [reflexivity|]. split; [apply lookup_insert_eq|reflexivity].
  - change (repeat EvCreated (S (length (t0 :: q0))))
      with (EvCreated :: repeat EvCreated (S (length q0))).
    rewrite Start_loop_cons, (select_created t0 (q0 ++ [t]) d w Hq).
    destruct (IH t (set_timers (<[Timer_id t0 := t0]> (timers d))
                      (set_ChCreatedTimer (q0 ++ [t]) d)) w eq_refl)
      as (d2 & Hrun & Hk & Hq2).
    rewrite Hrun. exists d2. split; [reflexivity|]. split; assumption.
Qed.

End Loop.

(** C1, on the code: in the run of the example timer 1 is in the set,
    timer 2 waits for admission and [Stop] has closed the exit channel.  The
    loop takes the exit case and stays in its [for]: it then serves the
    admission, and on the next tick scans and enters both callbacks.
    Whenever the exit channel is closed the [select] statement that takes
    the exit case reaches its end, and on no schedule at all does the
    goroutine reach [ticker.Stop()]. *)
Theorem C1_exit_case_does_not_end_loop :
  let d1 := ExRun.final_d ExRun.o2 ExRun.stopped in
  (ExRun.outcome ExRun.o2 ExRun.stopped
     = Some ((d1, O), [ObsAdmit (new_record 1 0 5 (Some Ex.bump) []);
                       ObsAdmit (new_record 2 0 5 (Some Ex.bump) [])]) /\
   exit d1 = true /\
   exists d2 : @DefaultScheduler nat,
     Start_loop [EvExit; EvCreated; EvTick 10 [1; 2]; EvExit] (d1, O)
       = Some (InLoop, (d2, 2%nat), [ObsCall 1; ObsCall 2]) /\
     ChCreatedTimer d2 = [] /\
     Timer_elapse <$> (timers d2 !! 2) = Some 10) /\
  (forall (d0 : @DefaultScheduler nat) (w0 : nat),
     exit d0 = true -> select_stmt EvExit (d0, w0) = Some ((d0, w0), [], Fallthrough)) /\
  (forall (evs : list Event) (c : @Config nat),
     match Start_loop evs c with
     | Some (st, _, _) => st = InLoop
     | None => True
     end).
Proof.
  split.
  - split; [vm_compute; reflexivity|]. split; [reflexivity|].
    eexists; split; [vm_compute; reflexivity|]. split; reflexivity.
  - split.
    { intros d0 w0 He. unfold select_stmt. rewrite (select_exit_closed d0 w0 He).
      reflexivity. }
    intros evs c. destruct (Start_loop evs c) as [[[st c'] tr]|] eqn:E; [|exact I].
    eapply Start_loop_stays; eassumption.
Qed.

(** ** [Stop] *)

Section StopOnce.
Context {W : Type}.
Implicit Types (d : @DefaultScheduler W).

(** C3, as the code has it: the [Stop] that succeeds is the one that finds
    the exit channel open; it closes it.  A [Stop] on the scheduler it
    leaves panics with "close of closed channel"; the panic changes nothing,
    so the exit signal stays fired. *)
Theorem C3_Stop_only_once d d1 :
  Stop d = Ok d1 ->
  exit d = false /\ d1 = set_exit true d /\ exit d1 = true /\
  Stop d1 = Panic close_closed.
Proof.
  unfold Stop. destruct (exit d) eqn:E; [discriminate|].
  intros [= <-]. repeat split; reflexivity.
Qed.

End StopOnce.

Lemma C3_Stop_only_once_witness :
  Stop (Ex.fresh 128) = Ok (set_exit true (Ex.fresh 128)) /\
  (exit (Ex.fresh 128) = false /\
   set_exit true (Ex.fresh 128) = set_exit true (Ex.fresh 128) /\
   exit (set_exit true (Ex.fresh 128)) = true /\
   Stop (set_exit true (Ex.fresh 128)) = Panic close_closed).
Proof.
  split; [reflexivity|].
  apply (C3_Stop_only_once (Ex.fresh 128) (set_exit true (Ex.fresh 128))).
  reflexivity.
Defined.

(** The second [Stop] on a scheduler faults. *)
Lemma C3_second_Stop_faults :
  ~ (forall d d1 : @DefaultScheduler nat,
       Stop d = Ok d1 -> exists d2, Stop d1 = Ok d2).
Proof.
  intros H.
  destruct (H (Ex.fresh 128) (set_exit true (Ex.fresh 128)) eq_refl) as [d2 Hd2].
  discriminate Hd2.
Qed.

(** ** [NewTimer] *)

Section Admission.
Context {W : Type}.
Implicit Types (d : @DefaultScheduler W) (w : W).

(** C2, as the code has it: [NewTimer] checks neither argument and has no
    error to return.  Whatever the interval and the callback, it takes the
    next id, builds the record with [elapse = interval], hands it to the
    admission channel behind the records already there, and returns the id;
    once the loop has served the admissions that wait, the record is in the
    timer set under that id. *)
Theorem C2_NewTimer_admits_any_arguments
    (now : Time) (interval : Z) (fn : option (@Func W))
    (opt : list (@TimerOption W)) d w :
  let id := Int64.wrap (incrementID d + 1) in
  let t := new_record id (UnixNano now) interval fn opt in
  let d1 := (NewTimer now interval fn opt d).2 in
  (NewTimer now interval fn opt d).1 = id /\
  incrementID d1 = id /\ timers d1 = timers d /\
  ChCreatedTimer d1 = ChCreatedTimer d ++ [t] /\
  Timer_id t = id /\ Timer_elapse t = interval /\
  Timer_createAt t = UnixNano now /\ Timer_closed t = 0 /\
  exists d2,
    Start_loop (repeat EvCreated (length (ChCreatedTimer d1))) (d1, w)
      = Some (InLoop, (d2, w), []) /\
    timers d2 !! id = Some t.
Proof.
  intros id t d1.
  assert (Hq : ChCreatedTimer d1 = ChCreatedTimer d ++ [t]) by reflexivity.
  repeat (split; [reflexivity|]).
  destruct (drain_last (ChCreatedTimer d) t d1 w Hq) as (d2 & Hrun & Hk & _).
  exists d2. rewrite Hq, length_app, Nat.add_1_r. split; assumption.
Qed.

End Admission.

(** An interval of zero and a nil callback: [NewTimer] returns id 1 and the
    record is on the admission channel. *)
Lemma C2_NewTimer_takes_invalid_arguments :
  ~ (forall (interval : Z) (fn : option (@Func nat)),
       interval <= 0 \/ fn = None ->
       ChCreatedTimer (NewTimer 0 interval fn [] (Ex.fresh 128)).2
         = ChCreatedTimer (Ex.fresh 128)).
Proof.
  intros H. specialize (H 0 None (or_introl (Z.le_refl 0))). discriminate H.
Qed.

(** ** One scan *)

Section Scan.
Context {W : Type}.
Implicit Types (d : @DefaultScheduler W) (c : @Config W) (w : W)
  (t : @Timer W) (tr : list (@Obs W)) (order : list Z).

Lemma calls_app id tr1 tr2 :
  calls id (tr1 ++ tr2) = (calls id tr1 + calls id tr2)%nat.
Proof.
  induction tr1 as [|o tr1 IH]; simpl; [reflexivity|].
  destruct o; try exact IH. case_decide; rewrite IH; reflexivity.
Qed.

Lemma deletes_app id tr1 tr2 :
  deletes id (tr1 ++ tr2) = (deletes id tr1 + deletes id tr2)%nat.
Proof.
  induction tr1 as [|o tr1 IH]; simpl; [reflexivity|].
  destruct o; try exact IH. case_decide; rewrite IH; reflexivity.
Qed.

(** [pexec] returns to its caller whatever the callback does, having entered
    it once. *)
Lemma pexec_calls id (fn : option (@Func W)) w k :
  calls k (pexec id fn w).2 = if decide (id = k) then 1%nat else 0%nat.
Proof.
  unfold pexec. destruct fn as [f|]; [destruct (f w) as [w' [[|msg]|]]|];
    simpl; case_decide; reflexivity.
Qed.

Lemma pexec_deletes id (fn : option (@Func W)) w k :
  deletes k (pexec id fn w).2 = 0%nat.
Proof.
  unfold pexec. destruct fn as [f|]; [destruct (f w) as [w' [[|msg]|]]|]; reflexivity.
Qed.

(** What [stopTimer] leaves alone. *)
Lemma stopTimer_frame k t d :
  let d' := (stopTimer k t d).2 in
  opts d' = opts d /\ incrementID d' = incrementID d /\
  ChCreatedTimer d' = ChCreatedTimer d /\ exit d' = exit d /\
  (forall j, j <> k -> timers d' !! j = timers d !! j) /\
  (exists l, ChClosingTimer d' = ChClosingTimer d ++ l).
Proof.
  unfold stopTimer.
  destruct (0 <? Timer_closed t);
    [|destruct (chan_len _ _ <? _)]; simpl; repeat split;
    try (intros j Hj; apply lookup_insert_ne; congruence);
    try (intros j Hj; reflexivity).
  - exists []. symmetry; apply app_nil_r.
  - exists [Timer_id t]. reflexivity.
  - exists []. symmetry; apply app_nil_r.
Qed.

(** What one visit leaves alone, and how often it enters a callback. *)
Lemma cron_visit_frame now id t d w d' w' tr :
  cron_visit now id t (d, w) = ((d', w'), tr) ->
  opts d' = opts d /\ incrementID d' = incrementID d /\
  ChCreatedTimer d' = ChCreatedTimer d /\ exit d' = exit d /\
  (forall j, j <> id -> timers d' !! j = timers d !! j) /\
  (exists l, ChClosingTimer d' = ChClosingTimer d ++ l).
Proof.
  unfold cron_visit.
  destruct (Counter (Timer_opts t) =? 0).
  - destruct (chan_len _ _ <? _); intros [= <- <- <-].
    + apply stopTimer_frame.
    + repeat split. exists []. symmetry; apply app_nil_r.
  - assert (Hsame : opts d = opts d /\ incrementID d = incrementID d /\
      ChCreatedTimer d = ChCreatedTimer d /\ exit d = exit d /\
      (forall j, j <> id -> timers d !! j = timers d !! j) /\
      (exists l, ChClosingTimer d = ChClosingTimer d ++ l)).
    { repeat split. exists []. symmetry; apply app_nil_r. }
    destruct (Condition (Timer_opts t)) as [cond|].
    + destruct (cond now); [destruct (pexec _ _ _) as [w1 tr1]|];
        intros [= <- <- <-]; exact Hsame.
    + destruct (due now t); [destruct (pexec _ _ _) as [w1 tr1]|];
        intros [= <- <- <-]; [|exact Hsame].
      simpl; repeat split.
      * intros j Hj. apply lookup_insert_ne; congruence.
      * exists []. symmetry; apply app_nil_r.
Qed.

Lemma cron_visit_calls now id t c c' tr k :
  cron_visit now id t c = (c', tr) ->
  calls k tr = if decide (id = k) then (if fires now t then 1%nat else 0%nat) else 0%nat.
Proof.
  destruct c as [d w]. unfold cron_visit, fires.
  destruct (Counter (Timer_opts t) =? 0); simpl.
  - destruct (chan_len _ _ <? _); intros [= <- <-]; case_decide; reflexivity.
  - destruct (Condition (Timer_opts t)) as [cond|].
    + destruct (cond now).
      * pose proof (pexec_calls id (Fn (Timer_opts t)) w k) as Hp.
        destruct (pexec _ _ _) as [w1 tr1]. intros [= <- <-]. exact Hp.
      * intros [= <- <-]; case_decide; reflexivity.
    + destruct (due now t).
      * pose proof (pexec_calls id (Fn (Timer_opts t)) w k) as Hp.
        destruct (pexec _ _ _) as [w1 tr1]. intros [= <- <-]. exact Hp.
      * intros [= <- <-]; case_decide; reflexivity.
Qed.

Lemma cron_visit_deletes now id t c c' tr k :
  cron_visit now id t c = (c', tr) -> deletes k tr = 0%nat.
Proof.
  destruct c as [d w]. unfold cron_visit.
  destruct (Counter (Timer_opts t) =? 0); simpl.
  - destruct (chan_len _ _ <? _); intros [= <- <-]; reflexivity.
  - destruct (Condition (Timer_opts t)) as [cond|];
      [destruct (cond now)|destruct (due now t)];
      try (intros [= <- <-]; reflexivity);
      pose proof (pexec_deletes id (Fn (Timer_opts t)) w k) as Hp;
      destruct (pexec _ _ _) as [w1 tr1]; intros [= <- <-]; exact Hp.
Qed.

(** The record a visit leaves at the key it visited. *)
Lemma cron_visit_self now id t d w d' w' tr :
  timers d !! id = Some t ->
  cron_visit now id t (d, w) = ((d', w'), tr) ->
  exists t', timers d' !! id = Some t' /\
    (if Counter (Timer_opts t) =? 0
     then t' = t \/ t' = set_closed 1 t \/ t' = set_Counter 0 t
     else if fires now t
          then match Condition (Timer_opts t) with
               | Some _ => t' = t
               | None => t' = advance t
               end
          else t' = t).
Proof.
  intros Hin. unfold cron_visit, fires, stopTimer.
  destruct (Counter (Timer_opts t) =? 0); simpl.
  - destruct (chan_len _ _ <? _).
    + destruct (0 <? Timer_closed t); simpl; intros [= <- <- <-].
      * exists t; auto.
      * simpl. eexists; split; [apply lookup_insert_eq|]; auto.
    + intros [= <- <- <-]. exists t; auto.
  - destruct (Condition (Timer_opts t)) as [cond|].
    + destruct (cond now); [destruct (pexec _ _ _) as [w1 tr1]|];
        intros [= <- <- <-]; exists t; auto.
    + destruct (due now t); [destruct (pexec _ _ _) as [w1 tr1]|];
        intros [= <- <- <-]; simpl.
      * eexists; split; [apply lookup_insert_eq|]; reflexivity.
      * exists t; auto.
Qed.

(** What a visit does to a record whose counter is 0. *)
Lemma cron_visit_zero now id t d w d' w' tr :
  timers d !! id = Some t ->
  Counter (Timer_opts t) = 0 ->
  cron_visit now id t (d, w) = ((d', w'), tr) ->
  tr = [] /\ w' = w /\
  ((d' = d /\ timerBacklog (opts d) <= Z.of_nat (length (ChClosingTimer d))) \/
   (d' = d /\ 0 < Timer_closed t) \/
   (Timer_closed t <= 0 /\
    Z.of_nat (length (ChClosingTimer d)) < timerBacklog (opts d) /\
    timers d' !! id = Some (set_closed 1 t) /\
    ChClosingTimer d' = ChClosingTimer d ++ [Timer_id t])).
Proof.
  intros Hin H0. unfold cron_visit, stopTimer, chan_len. rewrite H0. simpl.
  destruct (Z.min _ _ <? _) eqn:Elen.
  - apply Z.ltb_lt in Elen.
    destruct (0 <? Timer_closed t) eqn:Ecl; simpl; intros [= <- <- <-].
    + apply Z.ltb_lt in Ecl. split; [reflexivity|]. split; [reflexivity|].
      right; left; split; [reflexivity|assumption].
    + apply Z.ltb_ge in Ecl. split; [reflexivity|]. split; [reflexivity|].
      right; right. simpl.
      repeat split; [assumption|lia|apply lookup_insert_eq].
  - apply Z.ltb_ge in Elen. intros [= <- <- <-].
    split; [reflexivity|]. split; [reflexivity|].
    left. split; [reflexivity|lia].
Qed.

(** What a scan leaves alone: it stores no new key and deletes none, and
    only appends to the retirement channel. *)
Lemma Cron_range_frame now order : forall d w d' w' tr,
  Cron_range now order (d, w) = ((d', w'), tr) ->
  opts d' = opts d /\ incrementID d' = incrementID d /\
  ChCreatedTimer d' = ChCreatedTimer d /\ exit d' = exit d /\
  (forall j, j ∉ order -> timers d' !! j = timers d !! j) /\
  (forall j, is_Some (timers d' !! j) <-> is_Some (timers d !! j)) /\
  (exists l, ChClosingTimer d' = ChClosingTimer d ++ l) /\
  (forall k, deletes k tr = 0%nat).
Proof.
  induction order as [|id rest IH]; intros d w d' w' tr; cbn [Cron_range fst].
  - intros [= <- <- <-]. repeat split; try tauto.
    exists []. symmetry; apply app_nil_r.
  - destruct (timers d !! id) as [t|] eqn:Hid.
    + destruct (cron_visit now id t (d, w)) as [[d1 w1] tr1] eqn:Hv.
      destruct (Cron_range now rest (d1, w1)) as [[d2 w2] tr2] eqn:Hr.
      intros [= <- <- <-].
      destruct (cron_visit_frame _ _ _ _ _ _ _ _ Hv) as (Ho & Hi & Hc & He & Hk & [l1 Hl1]).
      destruct (cron_visit_self _ _ _ _ _ _ _ _ Hid Hv) as (t1 & Ht1 & _).
      destruct (IH _ _ _ _ _ Hr) as (Ho2 & Hi2 & Hc2 & He2 & Hk2 & Hs2 & [l2 Hl2] & Hd2).
      repeat split; try congruence.
      * intros j Hj. apply not_elem_of_cons in Hj as [Hne Hj].
        rewrite Hk2 by assumption. apply Hk; assumption.
      * intros Hs. apply Hs2 in Hs. destruct (decide (j = id)) as [->|Hne].
        -- rewrite Hid; eauto.
        -- rewrite <- Hk by assumption. assumption.
      * intros Hs. apply Hs2. destruct (decide (j = id)) as [->|Hne].
        -- rewrite Ht1; eauto.
        -- rewrite Hk by assumption. assumption.
      * exists (l1 ++ l2). rewrite Hl2, Hl1, app_assoc. reflexivity.
      * intros k. rewrite deletes_app, Hd2.
        rewrite (cron_visit_deletes _ _ _ _ _ _ k Hv). reflexivity.
    + intros Hr. destruct (IH _ _ _ _ _ Hr) as (Ho2 & Hi2 & Hc2 & He2 & Hk2 & Hs2 & Hl2 & Hd2).
      repeat split; try assumption; try apply Hs2.
      intros j Hj. apply not_elem_of_cons in Hj as [Hne Hj]. apply Hk2; assumption.
Qed.

(** Which callbacks a scan enters, and how often: once for every visited
    record that [fires], never otherwise. *)
Lemma Cron_range_calls now order : forall d w d' w' tr k,
  NoDup order ->
  Cron_range now order (d, w) = ((d', w'), tr) ->
  calls k tr =
    if decide (k ∈ order)
    then match timers d !! k with
         | Some t => if fires now t then 1%nat else 0%nat
         | None => 0%nat
         end
    else 0%nat.
Proof.
  induction order as [|id rest IH]; intros d w d' w' tr k Hnd; cbn [Cron_range fst].
  - intros [= <- <- <-]. case_decide as Hin; [inversion Hin|reflexivity].
  - apply NoDup_cons in Hnd as [Hnotin Hnd].
    destruct (timers d !! id) as [t|] eqn:Hid.
    + destruct (cron_visit now id t (d, w)) as [[d1 w1] tr1] eqn:Hv.
      destruct (Cron_range now rest (d1, w1)) as [[d2 w2] tr2] eqn:Hr.
      intros [= <- <- <-].
      rewrite calls_app, (cron_visit_calls _ _ _ _ _ _ k Hv), (IH _ _ _ _ _ k Hnd Hr).
      destruct (cron_visit_frame _ _ _ _ _ _ _ _ Hv) as (_ & _ & _ & _ & Hk & _).
      destruct (decide (id = k)) as [->|Hne].
      * destruct (decide (k ∈ rest)) as [?|_]; [contradiction|].
        destruct (decide (k ∈ k :: rest)) as [_|Hc];
          [|exfalso; apply Hc, elem_of_cons; auto].
        rewrite Hid. lia.
      * rewrite Hk by congruence.
        destruct (decide (k ∈ rest)) as [Hin|Hin];
          destruct (decide (k ∈ id :: rest)) as [Hc|Hc]; try reflexivity.
        -- exfalso; apply Hc, elem_of_cons; auto.
        -- apply elem_of_cons in Hc as [?|?]; congruence.
    + intros Hr. rewrite (IH _ _ _ _ _ k Hnd Hr).
      destruct (decide (k ∈ rest)) as [Hin|Hin];
        destruct (decide (k ∈ id :: rest)) as [Hc|Hc]; try reflexivity.
      * exfalso; apply Hc, elem_of_cons; auto.
      * apply elem_of_cons in Hc as [->|?]; [|contradiction].
        rewrite Hid. reflexivity.
Qed.

(** A scan handles the record at a key it visits as the visit of that key
    alone would: the visits of the other keys do not touch it. *)
Lemma Cron_range_visit now order : forall d w d' w' tr k t,
  NoDup order -> k ∈ order -> timers d !! k = Some t ->
  Cron_range now order (d, w) = ((d', w'), tr) ->
  exists d0 w0 d1 w1 tr1 l,
    timers d0 !! k = Some t /\ opts d0 = opts d /\
    cron_visit now k t (d0, w0) = ((d1, w1), tr1) /\
    timers d' !! k = timers d1 !! k /\
    ChClosingTimer d' = ChClosingTimer d1 ++ l.
Proof.
  induction order as [|id rest IH]; intros d w d' w' tr k t Hnd Hin Hk; cbn [Cron_range fst].
  - inversion Hin.
  - apply NoDup_cons in Hnd as [Hnotin Hnd].
    destruct (decide (k = id)) as [->|Hne].
    + rewrite Hk.
      destruct (cron_visit now id t (d, w)) as [[d1 w1] tr1] eqn:Hv.
      destruct (Cron_range now rest (d1, w1)) as [[d2 w2] tr2] eqn:Hr.
      intros [= <- <- <-].
      destruct (Cron_range_frame _ _ _ _ _ _ _ Hr) as (_ & _ & _ & _ & Hk2 & _ & [l Hl] & _).
      exists d, w, d1, w1, tr1, l. repeat split; try assumption.
      apply Hk2; assumption.
    + apply elem_of_cons in Hin as [?|Hin]; [congruence|].
      destruct (timers d !! id) as [t0|] eqn:Hid.
      * destruct (cron_visit now id t0 (d, w)) as [[d1 w1] tr1] eqn:Hv.
        destruct (Cron_range now rest (d1, w1)) as [[d2 w2] tr2] eqn:Hr.
        intros [= <- <- <-].
        destruct (cron_visit_frame _ _ _ _ _ _ _ _ Hv) as (Ho & _ & _ & _ & Hk1 & _).
        assert (Hk' : timers d1 !! k = Some t) by (rewrite Hk1; assumption).
        destruct (IH _ _ _ _ _ _ _ Hnd Hin Hk' Hr)
          as (d0 & w0 & d3 & w3 & tr3 & l & H1 & H2 & H3 & H4 & H5).
        exists d0, w0, d3, w3, tr3, l. repeat split; try assumption. congruence.
      * intros Hr. eapply IH; eassumption.
Qed.

End Scan.

Section ScanClaims.
Context {W : Type}.
Implicit Types (d : @DefaultScheduler W) (c : @Config W) (w : W)
  (t : @Timer W) (tr : list (@Obs W)) (order : list Z).

(** The fields of a record after its bookkeeping. *)
Lemma advance_fields t :
  Condition (Timer_opts t) = None ->
  Timer_elapse (advance t) = Int64.wrap (Timer_elapse t + Interval (Timer_opts t)) /\
  Counter (Timer_opts (advance t)) =
    (if decide (Counter (Timer_opts t) <> LoopForever /\ 0 < Counter (Timer_opts t))
     then Counter (Timer_opts t) - 1
     else Counter (Timer_opts t)) /\
  Timer_id (advance t) = Timer_id t /\
  Timer_createAt (advance t) = Timer_createAt t /\
  Timer_closed (advance t) = Timer_closed t /\
  Interval (Timer_opts (advance t)) = Interval (Timer_opts t) /\
  Fn (Timer_opts (advance t)) = Fn (Timer_opts t) /\
  Condition (Timer_opts (advance t)) = None.
Proof.
  intros Hcond. unfold advance.
  destruct (decide (Counter (Timer_opts t) <> LoopForever /\ 0 < Counter (Timer_opts t)))
    as [[H1 H2]|Hn].
  - assert (Hb : negb (Counter (Timer_opts (set_elapse
        (Int64.wrap (Timer_elapse t + Interval (Timer_opts t))) t)) =? LoopForever)
      && (0 <? Counter (Timer_opts (set_elapse
        (Int64.wrap (Timer_elapse t + Interval (Timer_opts t))) t))) = true).
    { apply andb_true_iff; split;
        [apply negb_true_iff, Z.eqb_neq|apply Z.ltb_lt]; assumption. }
    rewrite Hb. repeat split; assumption.
  - assert (Hb : negb (Counter (Timer_opts (set_elapse
        (Int64.wrap (Timer_elapse t + Interval (Timer_opts t))) t)) =? LoopForever)
      && (0 <? Counter (Timer_opts (set_elapse
        (Int64.wrap (Timer_elapse t + Interval (Timer_opts t))) t))) = false).
    { apply andb_false_iff. cbn [set_elapse Timer_opts].
      destruct (decide (Counter (Timer_opts t) = LoopForever)) as [He|He].
      - left. apply negb_false_iff, Z.eqb_eq; assumption.
      - right. apply Z.ltb_ge. apply Z.nlt_ge. intros Hlt. apply Hn; split; assumption. }
    rewrite Hb. repeat split; assumption.
Qed.


(** C7, as the code has it: a record whose counter is 0 when a scan starts
    is never entered by that scan, and the scan itself removes no key.  When
    it visits the record it leaves it as it is if it is already closed;
    otherwise, if the retirement channel has a free slot, it marks it closed
    and sends its id, and if the channel is full it leaves the record for a
    later scan.  The record leaves the set when the loop receives the id. *)
Theorem C7_zero_counter_neither_fires_nor_leaves now order d w id t :
  NoDup order -> id ∈ order -> timers d !! id = Some t ->
  Counter (Timer_opts t) = 0 ->
  let d' := (Cron now order (d, w)).1.1 in
  let tr := (Cron now order (d, w)).2 in
  calls id tr = 0%nat /\
  (forall k, is_Some (timers d' !! k) <-> is_Some (timers d !! k)) /\
  ((0 < Timer_closed t /\ timers d' !! id = Some t) \/
   (Timer_closed t <= 0 /\ timers d' !! id = Some (set_closed 1 t) /\
    Timer_id t ∈ ChClosingTimer d') \/
   (timerBacklog (opts d') <= Z.of_nat (length (ChClosingTimer d')) /\
    timers d' !! id = Some t)) /\
  (forall d0 w0 q, ChClosingTimer d0 = id :: q ->
     exists c tr0, select_case EvClosing (d0, w0) = Some (c, tr0, Fallthrough) /\
                   timers c.1 !! id = None).
Proof.
  intros Hnd Hin Hid H0 d' tr. unfold Cron in d', tr.
  destruct (Cron_range now order (d, w)) as [[d1 w1] tr1] eqn:Hr.
  subst d' tr; simpl.
  destruct (Cron_range_frame _ _ _ _ _ _ _ Hr) as (Ho & _ & _ & _ & _ & Hs & _ & _).
  split; [|split; [exact Hs|split]].
  - rewrite (Cron_range_calls _ _ _ _ _ _ _ id Hnd Hr).
    rewrite decide_True by assumption. rewrite Hid.
    unfold fires. rewrite H0. reflexivity.
  - destruct (Cron_range_visit _ _ _ _ _ _ _ _ _ Hnd Hin Hid Hr)
      as (d0 & w0 & d2 & w2 & tr2 & l & Hk0 & Ho0 & Hv & Heq & Hl).
    destruct (cron_visit_zero _ _ _ _ _ _ _ _ Hk0 H0 Hv)
      as (_ & _ & [[-> Hfull]|[[-> Hcl]|(Hcl & Hlen & Ht' & Hq)]]).
    + right; right. split; [|congruence].
      rewrite Ho, <- Ho0, Hl, length_app. lia.
    + left. split; [assumption|congruence].
    + right; left. split; [assumption|]. split; [congruence|].
      rewrite Hl, Hq. apply elem_of_app; left. apply elem_of_app; right.
      apply list_elem_of_singleton; reflexivity.
  - intros d0 w0 q Hq. simpl. rewrite Hq.
    eexists _, _. split; [reflexivity|]. simpl. apply lookup_delete_eq.
Qed.

End ScanClaims.

(** ** Faulting callbacks *)

Section Containment.
Context {W : Type}.
Implicit Types (d : @DefaultScheduler W) (c : @Config W) (w : W)
  (t : @Timer W) (tr : list (@Obs W)) (order : list Z).

Lemma call_ids_app tr1 tr2 : call_ids (tr1 ++ tr2) = call_ids tr1 ++ call_ids tr2.
Proof.
  induction tr1 as [|o tr1 IH]; simpl; [reflexivity|].
  destruct o; simpl; rewrite IH; reflexivity.
Qed.

Lemma pexec_call_ids id (fn : option (@Func W)) w : call_ids (pexec id fn w).2 = [id].
Proof.
  unfold pexec. destruct fn as [f|]; [destruct (f w) as [w' [[|msg]|]]|]; reflexivity.
Qed.

Lemma advance_drop t : advance (drop_Fn t) = drop_Fn (advance t).
Proof.
  unfold advance. cbn [drop_Fn set_elapse Timer_opts Counter].
  destruct (negb _ && _); reflexivity.
Qed.

Lemma stopTimer_drop k t d :
  stopTimer k (drop_Fn t) (drop_callbacks d)
    = ((stopTimer k t d).1, drop_callbacks (stopTimer k t d).2).
Proof.
  unfold stopTimer. cbn [drop_Fn Timer_closed drop_callbacks opts ChClosingTimer].
  destruct (0 <? Timer_closed t); [reflexivity|].
  destruct (chan_len _ _ <? _); unfold drop_callbacks; simpl;
    rewrite fmap_insert; reflexivity.
Qed.

(** A visit decides and does its bookkeeping without looking at what the
    callback did. *)
Lemma cron_visit_drop now id t d w w0 :
  (cron_visit now id (drop_Fn t) (drop_callbacks d, w0)).1.1
    = drop_callbacks (cron_visit now id t (d, w)).1.1 /\
  call_ids (cron_visit now id (drop_Fn t) (drop_callbacks d, w0)).2
    = call_ids (cron_visit now id t (d, w)).2.
Proof.
  assert (Hc : Counter (Timer_opts (drop_Fn t)) = Counter (Timer_opts t)) by reflexivity.
  assert (Hcond : Condition (Timer_opts (drop_Fn t)) = Condition (Timer_opts t))
    by reflexivity.
  assert (Hdue : due now (drop_Fn t) = due now t) by reflexivity.
  assert (Ho : opts (drop_callbacks d) = opts d) by reflexivity.
  assert (Hq : ChClosingTimer (drop_callbacks d) = ChClosingTimer d) by reflexivity.
  unfold cron_visit. rewrite Hc, Hcond, Hdue, Ho, Hq.
  destruct (Counter (Timer_opts t) =? 0).
  - destruct (chan_len _ _ <? _); [|split; reflexivity].
    rewrite stopTimer_drop. split; reflexivity.
  - destruct (Condition (Timer_opts t)) as [cond|].
    + destruct (cond now); [|split; reflexivity].
      pose proof (pexec_call_ids id (Fn (Timer_opts t)) w) as Hp.
      pose proof (pexec_call_ids id (Fn (Timer_opts (drop_Fn t))) w0) as Hp0.
      destruct (pexec id (Fn (Timer_opts t)) w) as [w1 tr1].
      destruct (pexec id (Fn (Timer_opts (drop_Fn t))) w0) as [w2 tr2].
      split; [reflexivity|]. simpl in *. congruence.
    + destruct (due now t); [|split; reflexivity].
      pose proof (pexec_call_ids id (Fn (Timer_opts t)) w) as Hp.
      pose proof (pexec_call_ids id (Fn (Timer_opts (drop_Fn t))) w0) as Hp0.
      destruct (pexec id (Fn (Timer_opts t)) w) as [w1 tr1].
      destruct (pexec id (Fn (Timer_opts (drop_Fn t))) w0) as [w2 tr2].
      split; [|simpl in *; congruence].
      cbn [fst snd]. rewrite advance_drop.
      unfold drop_callbacks, set_timers; simpl. rewrite fmap_insert. reflexivity.
Qed.

(** The scan of a schedule all of whose callbacks fault enters the same
    callbacks in the same order, and leaves the same schedule, as the scan
    of the schedule with its own callbacks. *)
Lemma Cron_range_drop now order : forall d w w0,
  (Cron_range now order (drop_callbacks d, w0)).1.1
    = drop_callbacks (Cron_range now order (d, w)).1.1 /\
  call_ids (Cron_range now order (drop_callbacks d, w0)).2
    = call_ids (Cron_range now order (d, w)).2.
Proof.
  induction order as [|id rest IH]; intros d w w0; cbn [Cron_range fst].
  - split; reflexivity.
  - assert (Hl : timers (drop_callbacks d) !! id = drop_Fn <$> timers d !! id)
      by apply lookup_fmap.
    rewrite Hl. destruct (timers d !! id) as [t|]; cbn [fmap option_fmap option_map].
    + pose proof (cron_visit_drop now id t d w w0) as [Hd Hc].
      destruct (cron_visit now id t (d, w)) as [[d1 w1] tr1].
      destruct (cron_visit now id (drop_Fn t) (drop_callbacks d, w0)) as [[d2 w2] tr2].
      cbn [fst snd] in Hd, Hc. subst d2.
      pose proof (IH d1 w1 w2) as [Hd' Hc'].
      destruct (Cron_range now rest (d1, w1)) as [[d3 w3] tr3].
      destruct (Cron_range now rest (drop_callbacks d1, w2)) as [[d4 w4] tr4].
      cbn [fst snd] in *. split; [assumption|].
      rewrite !call_ids_app. congruence.
    + apply IH.
Qed.

End Containment.

Section ContainmentClaim.
Context {W : Type}.
Implicit Types (d : @DefaultScheduler W) (w : W) (order : list Z).

(** X16: a faulting callback is contained, whatever value it panics with.
    The scan enters the callback of every visited record that [fires],
    once, whatever the callbacks do: it enters the same callbacks and
    leaves the same schedule as if each of them faulted.  It removes no
    record from the set, and the loop goes on to its next iterations after
    the tick. *)
Theorem X16_scan_contains_faulting_callbacks now order d w :
  NoDup order ->
  let r := Cron now order (d, w) in
  (forall k,
     calls k r.2 =
       if decide (k ∈ order)
       then match timers d !! k with
            | Some t => if fires now t then 1%nat else 0%nat
            | None => 0%nat
            end
       else 0%nat) /\
  (forall w0,
     (Cron now order (drop_callbacks d, w0)).1.1 = drop_callbacks r.1.1 /\
     call_ids (Cron now order (drop_callbacks d, w0)).2 = call_ids r.2) /\
  (forall k, is_Some (timers r.1.1 !! k) <-> is_Some (timers d !! k)) /\
  (forall evs,
     range_order order d = true ->
     Start_loop (EvTick now order :: evs) (d, w) =
       match Start_loop evs r.1 with
       | Some (st, c2, tr2) => Some (st, c2, r.2 ++ tr2)
       | None => None
       end).
Proof.
  intros Hnd r.
  split; [|split; [|split]].
  - intros k. subst r. unfold Cron.
    destruct (Cron_range now order (d, w)) as [[d1 w1] tr1] eqn:Hr.
    exact (Cron_range_calls _ _ _ _ _ _ _ k Hnd Hr).
  - intros w0. apply Cron_range_drop.
  - intros k. subst r. unfold Cron.
    destruct (Cron_range now order (d, w)) as [[d1 w1] tr1] eqn:Hr.
    apply (Cron_range_frame _ _ _ _ _ _ _ Hr).
  - intros evs Hro. subst r. cbn [Start_loop]. unfold select_stmt.
    cbn [select_case]. rewrite Hro.
    destruct (Cron now order (d, w)) as [c1 tr1]. reflexivity.
Qed.

End ContainmentClaim.

(** ** The scan on concrete schedulers *)


Lemma X16_scan_contains_faulting_callbacks_witness :
  NoDup [1; 2] /\
  (forall k, is_Some (timers (Cron 10 [1; 2] (ExScan.faulty_and_sound, O)).1.1 !! k)
             <-> is_Some (timers ExScan.faulty_and_sound !! k)).
Proof.
  split; [by_decision|].
  apply (X16_scan_contains_faulting_callbacks 10 [1; 2] ExScan.faulty_and_sound O).
  by_decision.
Defined.

(** C8: a callback that does [panic(nil)] is caught by the guard, but its
    fault is not logged.  Three timers are admitted and scanned at a tick
    at which all are due.  Each callback is entered once and the third has
    run, so that the faults of the first two are contained; the fault of
    the second is logged with its id and its value; nothing is logged for
    the first. *)
Theorem C8_nil_panic_is_not_logged :
  let tr := ExRun.final_tr ExRun.o2 ExRun.three_callbacks in
  is_Some (ExRun.outcome ExRun.o2 ExRun.three_callbacks) /\
  pexec 1 (Some Ex.hush) O = (O, [ObsCall 1]) /\
  calls 1 tr = 1%nat /\ calls 2 tr = 1%nat /\ calls 3 tr = 1%nat /\
  ExRun.final_w ExRun.o2 ExRun.three_callbacks = 1%nat /\
  ObsLog 2 (PanicMsg "boom") ∈ tr /\
  (forall v, ObsLog 1 v ∉ tr).
Proof.
  intros tr.
  assert (Htr : tr = [ObsAdmit (new_record 1 0 5 (Some Ex.hush) []);
                      ObsAdmit (new_record 2 0 5 (Some Ex.boom) []);
                      ObsAdmit (new_record 3 0 5 (Some Ex.bump) []);
                      ObsCall 1; ObsCall 2; ObsLog 2 (PanicMsg "boom"); ObsCall 3])
    by (vm_compute; reflexivity).
  split; [vm_compute; eexists; reflexivity|].
  split; [reflexivity|].
  split; [vm_compute; reflexivity|]. split; [vm_compute; reflexivity|].
  split; [vm_compute; reflexivity|]. split; [vm_compute; reflexivity|].
  rewrite Htr. split.
  - do 5 (apply elem_of_cons; right). apply elem_of_cons; left. reflexivity.
  - intros v Hin. repeat (apply elem_of_cons in Hin as [Hin|Hin]; [discriminate Hin|]).
    inversion Hin.
Qed.

(** The scan of [faulty_and_sound] at time 10: both callbacks are entered,
    the fault of the first is logged, the second has run and lost one unit
    of its counter. *)
Example scan_faulty_and_sound :
  (Cron 10 [1; 2] (ExScan.faulty_and_sound, O)).2
    = [ObsCall 1; ObsLog 1 (PanicMsg "boom"); ObsCall 2] /\
  (Cron 10 [1; 2] (ExScan.faulty_and_sound, O)).1.2 = 1%nat /\
  (Counter ∘ Timer_opts) <$>
    (timers (Cron 10 [1; 2] (ExScan.faulty_and_sound, O)).1.1 !! 2) = Some 2.
Proof. repeat split. Qed.

Lemma C7_zero_counter_neither_fires_nor_leaves_witness :
  let d := ExRun.final_d ExRun.o1 ExRun.zero_counter_full in
  let t := new_record 2 0 5 (Some Ex.bump) [WithCounter 0] in
  NoDup [1; 2] /\ 2 ∈ [1; 2] /\
  timers d !! 2 = Some t /\ Counter (Timer_opts t) = 0 /\
  calls 2 (Cron 10 [1; 2] (d, O)).2 = 0%nat.
Proof.
  split; [by_decision|]. split; [by_decision|].
  split; [reflexivity|]. split; [reflexivity|].
  apply (C7_zero_counter_neither_fires_nor_leaves 10 [1; 2]
           (ExRun.final_d ExRun.o1 ExRun.zero_counter_full) O 2
           (new_record 2 0 5 (Some Ex.bump) [WithCounter 0]));
    [by_decision|by_decision|reflexivity|reflexivity].
Defined.

(** With the retirement channel full, the scan leaves the zero-counter
    record in the set without sending its id; once the loop has emptied the
    channel the record is still there and nothing is on its way to remove
    it. *)
Lemma C7_zero_counter_not_retired_by_scan :
  let d := ExRun.final_d ExRun.o1 ExRun.zero_counter_full in
  let t := new_record 2 0 5 (Some Ex.bump) [WithCounter 0] in
  ExRun.outcome ExRun.o1 ExRun.zero_counter_full
    = Some ((d, O), [ObsAdmit (new_record 1 0 5 (Some Ex.bump) []); ObsAdmit t]) /\
  timers d !! 2 = Some t /\ ChClosingTimer d = [1] /\
  timers (Cron 10 [1; 2] (d, O)).1.1 !! 2 = Some t /\
  ChClosingTimer (Cron 10 [1; 2] (d, O)).1.1 = [1] /\
  (exists d2 : @DefaultScheduler nat,
     Start_loop [EvTick 10 [1; 2]; EvClosing] (d, O)
       = Some (InLoop, (d2, 1%nat), [ObsCall 1; ObsDelete 1]) /\
     timers d2 !! 2 = Some t /\ ChClosingTimer d2 = []) /\
  ~ (forall (d0 : @DefaultScheduler nat) order id t0,
       NoDup order -> id ∈ order ->
       timers d0 !! id = Some t0 -> Counter (Timer_opts t0) = 0 ->
       timers (Cron 10 order (d0, O)).1.1 !! id = None).
Proof.
  split; [vm_compute; reflexivity|].
  split; [reflexivity|]. split; [reflexivity|].
  split; [reflexivity|]. split; [reflexivity|]. split.
  - eexists. split; [vm_compute; reflexivity|]. split; reflexivity.
  - intros H.
    specialize (H (ExRun.final_d ExRun.o1 ExRun.zero_counter_full) [1; 2] 2 _
                  ltac:(by_decision) ltac:(by_decision) eq_refl eq_refl).
    discriminate H.
Qed.

(** ** Steps of a run *)

Section Steps.
Context {W : Type}.
Implicit Types (d : @DefaultScheduler W) (c : @Config W) (w : W)
  (t a : @Timer W) (tr : list (@Obs W)) (order : list Z).

Lemma admissions_app id tr1 tr2 :
  admissions id (tr1 ++ tr2) = (admissions id tr1 + admissions id tr2)%nat.
Proof.
  induction tr1 as [|o tr1 IH]; simpl; [reflexivity|].
  destruct o; try exact IH. case_decide; rewrite IH; reflexivity.
Qed.

Lemma In_admit_admissions a tr :
  In (ObsAdmit a) tr -> admissions (Timer_id a) tr <> O.
Proof.
  induction tr as [|o tr IH]; simpl; [tauto|].
  intros [->|Hin].
  - rewrite decide_True by reflexivity. discriminate.
  - destruct o; try (apply IH; assumption).
    case_decide; [discriminate|apply IH; assumption].
Qed.

Lemma pexec_admissions id (fn : option (@Func W)) w k :
  admissions k (pexec id fn w).2 = O.
Proof.
  unfold pexec. destruct fn as [f|]; [destruct (f w) as [w' [[|msg]|]]|]; reflexivity.
Qed.

Lemma cron_visit_admissions now id t c k :
  admissions k (cron_visit now id t c).2 = O.
Proof.
  destruct c as [d w]. unfold cron_visit.
  destruct (Counter (Timer_opts t) =? 0).
  - destruct (chan_len _ _ <? _); reflexivity.
  - destruct (Condition (Timer_opts t)) as [cond|];
      [destruct (cond now)|destruct (due now t)]; try reflexivity;
      pose proof (pexec_admissions id (Fn (Timer_opts t)) w k) as Hp;
      destruct (pexec _ _ _) as [w1 tr1]; exact Hp.
Qed.

Lemma Cron_range_admissions now order : forall c k,
  admissions k (Cron_range now order c).2 = O.
Proof.
  induction order as [|id rest IH]; intros c k; cbn [Cron_range]; [reflexivity|].
  destruct (timers c.1 !! id) as [t|]; [|apply IH].
  pose proof (cron_visit_admissions now id t c k) as Hv.
  destruct (cron_visit now id t c) as [c1 tr1].
  pose proof (IH c1 k) as Hr.
  destruct (Cron_range now rest c1) as [c2 tr2].
  cbn [snd] in *. rewrite admissions_app, Hv, Hr. reflexivity.
Qed.

Lemma evolves_refl t : evolves O t t.
Proof. unfold evolves. repeat split; try tauto. simpl. lia. Qed.

Lemma quiet_refl d : quiet_step d d [].
Proof.
  unfold quiet_step. repeat split.
  intros k. destruct (timers d !! k) as [t|]; [|split; reflexivity].
  exists t. split; [reflexivity|apply evolves_refl].
Qed.

(** A step that rewrites the record at one key only. *)
Lemma quiet_update d d' k t t' :
  timers d !! k = Some t ->
  incrementID d' = incrementID d -> ChCreatedTimer d' = ChCreatedTimer d ->
  timers d' = <[k := t']> (timers d) ->
  evolves O t t' ->
  quiet_step d d' [].
Proof.
  intros Hk Hi Hc Ht He. unfold quiet_step. repeat split; try assumption.
  intros j. rewrite Ht. destruct (decide (j = k)) as [->|Hne].
  - rewrite Hk, lookup_insert_eq. eauto.
  - rewrite lookup_insert_ne by congruence.
    destruct (timers d !! j) as [t0|]; [|split; reflexivity].
    exists t0. split; [reflexivity|apply evolves_refl].
Qed.

Lemma stopTimer_quiet k t d :
  timers d !! k = Some t -> quiet_step d (stopTimer k t d).2 [].
Proof.
  intros Hk. unfold stopTimer.
  destruct (0 <? Timer_closed t) eqn:Ecl; [apply quiet_refl|].
  destruct (chan_len _ _ <? _); cbn [snd].
  - apply (quiet_update _ _ k t (set_closed 1 t)); try reflexivity; [assumption|].
    unfold evolves; simpl. repeat split; try lia.
  - apply (quiet_update _ _ k t (set_Counter 0 t)); try reflexivity; [assumption|].
    unfold evolves; simpl. repeat split; try tauto; lia.
Qed.

Lemma RemoveTimer_quiet id d : quiet_step d (RemoveTimer id d).2 [].
Proof.
  unfold RemoveTimer. destruct (timers d !! id) as [t|] eqn:Hid.
  - apply stopTimer_quiet; assumption.
  - apply quiet_refl.
Qed.

(** How a scan changes the record at a key. *)
Lemma Cron_range_evolves now order d w d' w' tr k :
  NoDup order ->
  Cron_range now order (d, w) = ((d', w'), tr) ->
  match timers d !! k with
  | None => timers d' !! k = None /\ calls k tr = O
  | Some t => exists t', timers d' !! k = Some t' /\ evolves (calls k tr) t t'
  end.
Proof.
  intros Hnd Hr.
  pose proof (Cron_range_calls _ _ _ _ _ _ _ k Hnd Hr) as Hcalls.
  destruct (Cron_range_frame _ _ _ _ _ _ _ Hr) as (_ & _ & _ & _ & Hout & Hs & _ & _).
  destruct (timers d !! k) as [t|] eqn:Hk.
  - destruct (decide (k ∈ order)) as [Hin|Hnin].
    + destruct (Cron_range_visit _ _ _ _ _ _ _ _ _ Hnd Hin Hk Hr)
        as (d0 & w0 & d1 & w1 & tr1 & l & Hk0 & _ & Hv & Heq & _).
      destruct (cron_visit_self _ _ _ _ _ _ _ _ Hk0 Hv) as (t' & Ht' & Hcase).
      exists t'. split; [congruence|]. rewrite Hcalls. clear Hcalls.
      unfold fires in *.
      destruct (Counter (Timer_opts t) =? 0) eqn:E0; cbn [negb andb] in *.
      * apply Z.eqb_eq in E0.
        destruct Hcase as [-> | [-> | ->]]; unfold evolves; simpl;
          repeat split; try tauto; lia.
      * apply Z.eqb_neq in E0.
        destruct (Condition (Timer_opts t)) as [cond|] eqn:Ec.
        -- destruct (cond now); subst t'; unfold evolves; rewrite Ec;
             repeat split; try tauto; discriminate.
        -- destruct (due now t); subst t'; [|apply evolves_refl].
           destruct (advance_fields t Ec) as (_ & Hcnt & Hid & _ & Hcl & _ & _ & Hcd).
           unfold evolves. rewrite Hid, Hcl, Hcd, Hcnt, Ec.
           repeat split; try tauto; intros; case_decide; unfold LoopForever in *; lia.
    + exists t. rewrite Hout by assumption. split; [assumption|].
      rewrite Hcalls. apply evolves_refl.
  - split; [|rewrite Hcalls; case_decide; reflexivity].
    apply eq_None_not_Some. intros Hsome. apply Hs in Hsome.
    rewrite Hk in Hsome. destruct Hsome; discriminate.
Qed.

Lemma Cron_quiet now order d w :
  NoDup order ->
  quiet_step d (Cron now order (d, w)).1.1 (Cron now order (d, w)).2.
Proof.
  intros Hnd. unfold Cron.
  pose proof (Cron_range_admissions now order (d, w)) as Ha.
  destruct (Cron_range now order (d, w)) as [[d' w'] tr] eqn:Hr. cbn [fst snd] in *.
  destruct (Cron_range_frame _ _ _ _ _ _ _ Hr) as (_ & Hi & Hc & _ & _ & _ & _ & Hd).
  unfold quiet_step. repeat split; try assumption.
  intros k. exact (Cron_range_evolves _ _ _ _ _ _ _ k Hnd Hr).
Qed.

(** Every step of a run has one of the four shapes, as long as the id
    counter does not overflow. *)
Lemma exec_shape op d w d' w' tr :
  0 <= incrementID d -> incrementID d + 1 <= Int64.max_int ->
  exec op (d, w) = Some ((d', w'), tr) ->
  step_shape d d' tr.
Proof.
  intros H0 Hmax. destruct op as [now interval fn opt|id| |ev]; cbn [exec].
  - assert (Hw : Int64.wrap (incrementID d + 1) = incrementID d + 1).
    { apply wrap_id. unfold Int64.in_range, Int64.min_int, Int64.max_int in *. lia. }
    unfold NewTimer. rewrite Hw. intros [= <- <- <-].
    apply (shape_admit _ _ _
             (new_record (incrementID d + 1) (UnixNano now) interval fn opt));
      reflexivity.
  - intros [= <- <- <-]. apply shape_quiet, RemoveTimer_quiet.
  - unfold Stop. destruct (exit d); [discriminate|]. intros [= <- <- <-].
    apply shape_quiet. unfold quiet_step. repeat split.
    intros k. cbn. destruct (timers d !! k) as [t|]; [|split; reflexivity].
    exists t. split; [reflexivity|apply evolves_refl].
  - destruct ev as [|now order| |]; cbn [select_case].
    + destruct (exit d); [|discriminate]. intros [= <- <- <-].
      apply shape_quiet, quiet_refl.
    + destruct (range_order order d) eqn:Hro; [|discriminate].
      apply andb_true_iff in Hro as [Hnd _]. apply bool_decide_eq_true in Hnd.
      pose proof (Cron_quiet now order d w Hnd) as Hq.
      destruct (Cron now order (d, w)) as [[d1 w1] tr1]. intros [= <- <- <-].
      apply shape_quiet. exact Hq.
    + destruct (ChCreatedTimer d) as [|t q] eqn:Hq; [discriminate|].
      intros [= <- <- <-]. eapply shape_store; try reflexivity. exact Hq.
    + destruct (ChClosingTimer d) as [|id q] eqn:Hq; [discriminate|].
      intros [= <- <- <-]. eapply (shape_delete _ _ _ id); reflexivity.
Qed.

End Steps.

(** ** The invariant along a run *)

Section Invariant.
Context {W : Type}.
Implicit Types (d : @DefaultScheduler W) (c : @Config W) (w : W)
  (t a : @Timer W) (tr : list (@Obs W)) (order : list Z).

Lemma Inv_quiet d d' tr0 tr1 :
  Inv d tr0 -> quiet_step d d' tr1 -> Inv d' (tr0 ++ tr1).
Proof.
  intros [Hc Hk Hq Hn Hd Hcl Ha Hb] (Hi & Hch & Hdel & Hadm & Hev).
  constructor.
  - rewrite Hi; exact Hc.
  - intros k t' Hk'. specialize (Hev k).
    destruct (timers d !! k) as [t|] eqn:E.
    + destruct Hev as (t'' & Ht'' & (Heid & _)).
      assert (t'' = t') by congruence; subst t''.
      destruct (Hk k t E) as [Hid Hbd]. rewrite Hi. split; [congruence|assumption].
    + destruct Hev as [Hnone _]; congruence.
  - intros t Ht. rewrite Hch in Ht. destruct (Hq t Ht) as [Hbd Hnone].
    rewrite Hi. split; [assumption|].
    specialize (Hev (Timer_id t)). rewrite Hnone in Hev. apply Hev.
  - rewrite Hch; exact Hn.
  - intros k. rewrite deletes_app, Hdel, Nat.add_0_r.
    destruct (Hd k) as [H1 H2]. split; [assumption|].
    intros Hne. destruct (H2 Hne) as (Hnone & Hnin & Hle).
    rewrite Hch, Hi. split; [|split; assumption].
    specialize (Hev k). rewrite Hnone in Hev. apply Hev.
  - intros k Hne. rewrite calls_app in Hne. rewrite Hi.
    destruct (calls k tr0) eqn:E0.
    + simpl in Hne. specialize (Hev k).
      destruct (timers d !! k) as [t|] eqn:E; [apply (Hk k t E)|].
      destruct Hev; contradiction.
    + apply Hcl. rewrite E0; discriminate.
  - intros k. rewrite admissions_app, Hadm, Nat.add_0_r, Hi. apply Ha.
  - intros a Hin Hcond Hcnt.
    apply in_app_or in Hin. destruct Hin as [Hin|Hin];
      [|apply In_admit_admissions in Hin; rewrite Hadm in Hin; contradiction].
    destruct (Hb a Hin Hcond Hcnt) as [Hle Hlive].
    rewrite calls_app.
    pose proof (Hev (Timer_id a)) as Heva.
    destruct (timers d !! Timer_id a) as [t0|] eqn:E.
    + destruct Heva as (t' & Ht' & (Heid & Hecond & _ & Hecnt)).
      destruct (Hk _ _ E) as [Hid0 _].
      destruct (Hlive t0 (or_introl (ex_intro _ _ E)) Hid0) as (Hc0 & Hn0 & Hsum).
      destruct (Hecnt Hc0 Hn0) as [Hn' Hsum'].
      split; [lia|].
      intros t [[j Hj]|Hinq] Hidt.
      * specialize (Hev j).
        destruct (timers d !! j) as [t1|] eqn:Ej; [|destruct Hev; congruence].
        destruct Hev as (t1' & Ht1' & (Heid1 & _)).
        assert (t1' = t) by congruence; subst t1'.
        destruct (Hk _ _ Ej) as [Hid1 _].
        assert (j = Timer_id a) by congruence; subst j.
        assert (t1 = t0) by congruence; subst t1.
        assert (t' = t) by congruence; subst t'.
        split; [congruence|]. split; [assumption|lia].
      * rewrite Hch in Hinq. destruct (Hq t Hinq) as [_ Hnone].
        rewrite Hidt in Hnone. congruence.
    + destruct Heva as [Hnone Hz]. rewrite Hz, Nat.add_0_r. split; [assumption|].
      intros t [[j Hj]|Hinq] Hidt.
      * specialize (Hev j).
        destruct (timers d !! j) as [t1|] eqn:Ej; [|destruct Hev; congruence].
        destruct Hev as (t1' & Ht1' & (Heid1 & _)).
        assert (t1' = t) by congruence; subst t1'.
        destruct (Hk _ _ Ej) as [Hid1 _]. exfalso.
        assert (j = Timer_id a) by congruence; subst j. congruence.
      * rewrite Hch in Hinq. apply Hlive; [right; assumption|assumption].
Qed.

Lemma Inv_admit d d' tr0 t :
  Inv d tr0 ->
  Timer_id t = incrementID d + 1 ->
  incrementID d' = incrementID d + 1 ->
  timers d' = timers d ->
  ChCreatedTimer d' = ChCreatedTimer d ++ [t] ->
  Inv d' (tr0 ++ [ObsAdmit t]).
Proof.
  intros [Hc Hk Hq Hn Hd Hcl Ha Hb] Hid Hi Ht Hch.
  assert (Hfresh : timers d !! (incrementID d + 1) = None).
  { destruct (timers d !! (incrementID d + 1)) as [t0|] eqn:E; [|reflexivity].
    destruct (Hk _ _ E). lia. }
  assert (Hcalls : forall k, calls k (tr0 ++ [ObsAdmit t]) = calls k tr0).
  { intros k. rewrite calls_app. simpl. lia. }
  constructor.
  - lia.
  - intros k t0 Hk0. rewrite Ht in Hk0. destruct (Hk _ _ Hk0). split; [assumption|lia].
  - intros t0 Hin. rewrite Hch in Hin. rewrite Ht, Hi.
    apply elem_of_app in Hin as [Hin|Hin].
    + destruct (Hq _ Hin). split; [lia|assumption].
    + apply list_elem_of_singleton in Hin. subst t0. rewrite Hid. split; [lia|assumption].
  - rewrite Hch, fmap_app. apply NoDup_app. split; [assumption|]. split.
    + intros x Hx Hx'. apply list_elem_of_fmap in Hx as (t0 & -> & Hin).
      simpl in Hx'. apply list_elem_of_singleton in Hx'.
      destruct (Hq _ Hin). lia.
    + simpl. apply NoDup_singleton.
  - intros k. rewrite deletes_app. simpl. rewrite Nat.add_0_r.
    destruct (Hd k) as [H1 H2]. split; [assumption|]. intros Hne.
    destruct (H2 Hne) as (Hnone & Hnin & Hle). rewrite Ht, Hch, Hi, fmap_app.
    split; [assumption|]. split; [|lia].
    apply not_elem_of_app. split; [assumption|].
    simpl. intros Hx. apply list_elem_of_singleton in Hx. lia.
  - intros k Hne. rewrite Hcalls in Hne. specialize (Hcl k Hne). lia.
  - intros k. rewrite admissions_app. simpl. rewrite Hi.
    destruct (Ha k) as [H1 H2].
    destruct (decide (Timer_id t = k)) as [He|He].
    + destruct (admissions k tr0) eqn:E0; [split; lia|].
      assert (1 <= k <= incrementID d) by (apply H2; discriminate). lia.
    + rewrite Nat.add_0_r. split; [assumption|]. intros Hne. specialize (H2 Hne). lia.
  - intros a Hin Hcond Hcnt. rewrite Hcalls.
    apply in_app_or in Hin. destruct Hin as [Hin|Hin].
    + destruct (Hb a Hin Hcond Hcnt) as [Hle Hlive]. split; [assumption|].
      pose proof (In_admit_admissions _ _ Hin) as Hadm.
      destruct (Ha (Timer_id a)) as [_ Hbd]. specialize (Hbd Hadm).
      intros t0 [[j Hj]|Hinq] Hidt.
      * rewrite Ht in Hj. apply Hlive; [left; eauto|assumption].
      * rewrite Hch in Hinq. apply elem_of_app in Hinq as [Hinq|Hinq].
        -- apply Hlive; [right; assumption|assumption].
        -- apply list_elem_of_singleton in Hinq. subst t0. lia.
    + destruct Hin as [Heq|[]]. injection Heq as ->.
      assert (Hz : calls (Timer_id a) tr0 = O).
      { destruct (calls (Timer_id a) tr0) eqn:E0; [reflexivity|].
        assert (1 <= Timer_id a <= incrementID d) by (apply Hcl; rewrite E0; discriminate).
        lia. }
      rewrite Hz. split; [simpl; assumption|].
      intros t0 [[j Hj]|Hinq] Hidt.
      * rewrite Ht in Hj. destruct (Hk _ _ Hj). lia.
      * rewrite Hch in Hinq. apply elem_of_app in Hinq as [Hinq|Hinq].
        -- destruct (Hq _ Hinq). lia.
        -- apply list_elem_of_singleton in Hinq. subst t0.
           split; [assumption|]. split; [assumption|simpl; lia].
Qed.

Lemma Inv_store d d' tr0 t q :
  Inv d tr0 ->
  ChCreatedTimer d = t :: q ->
  incrementID d' = incrementID d ->
  timers d' = <[Timer_id t := t]> (timers d) ->
  ChCreatedTimer d' = q ->
  Inv d' tr0.
Proof.
  intros [Hc Hk Hq Hn Hd Hcl Ha Hb] Hch Hi Ht Hch'.
  rewrite Hch in Hn. rewrite fmap_cons in Hn. apply NoDup_cons in Hn as [Hnin Hn].
  assert (Hhead : t ∈ ChCreatedTimer d) by (rewrite Hch; apply elem_of_cons; auto).
  assert (Htail : forall t0, t0 ∈ q -> t0 ∈ ChCreatedTimer d /\ Timer_id t0 <> Timer_id t).
  { intros t0 Hin. split; [rewrite Hch; apply elem_of_cons; auto|].
    intros He. apply Hnin. rewrite <- He. apply list_elem_of_fmap. eauto. }
  assert (Hlive : forall t0, live d' t0 -> live d t0).
  { intros t0 [[j Hj]|Hinq].
    - rewrite Ht in Hj. destruct (decide (j = Timer_id t)) as [->|Hne].
      + rewrite lookup_insert_eq in Hj. injection Hj as <-. right; assumption.
      + rewrite lookup_insert_ne in Hj by congruence. left; eauto.
    - rewrite Hch' in Hinq. right. apply Htail; assumption. }
  constructor.
  - rewrite Hi; assumption.
  - intros k t0 Hk0. rewrite Ht in Hk0. rewrite Hi.
    destruct (decide (k = Timer_id t)) as [->|Hne].
    + rewrite lookup_insert_eq in Hk0. injection Hk0 as <-.
      split; [reflexivity|apply Hq; assumption].
    + rewrite lookup_insert_ne in Hk0 by congruence. apply Hk; assumption.
  - intros t0 Hin. rewrite Hch' in Hin. destruct (Htail _ Hin) as [Hin' Hne].
    destruct (Hq _ Hin') as [Hbd Hnone]. rewrite Hi, Ht. split; [assumption|].
    rewrite lookup_insert_ne by congruence. assumption.
  - rewrite Hch'. assumption.
  - intros k. destruct (Hd k) as [H1 H2]. split; [assumption|]. intros Hne.
    destruct (H2 Hne) as (Hnone & Hnink & Hle). rewrite Hch, fmap_cons in Hnink.
    apply not_elem_of_cons in Hnink as [Hnek Hnink].
    rewrite Ht, Hch', Hi. split; [|split; assumption].
    rewrite lookup_insert_ne by congruence. assumption.
  - intros k Hne. rewrite Hi. apply Hcl; assumption.
  - intros k. rewrite Hi. apply Ha.
  - intros a Hin Hcond Hcnt. destruct (Hb a Hin Hcond Hcnt) as [Hle Hl].
    split; [assumption|]. intros t0 Hl0. apply Hl, Hlive; assumption.
Qed.

Lemma Inv_delete d d' tr0 id :
  Inv d tr0 ->
  incrementID d' = incrementID d ->
  timers d' = delete id (timers d) ->
  ChCreatedTimer d' = ChCreatedTimer d ->
  Inv d' (tr0 ++ match timers d !! id with Some _ => [ObsDelete id] | None => [] end).
Proof.
  intros [Hc Hk Hq Hn Hd Hcl Ha Hb] Hi Ht Hch.
  set (tr1 := match timers d !! id with Some _ => [ObsDelete id] | None => [] end).
  assert (Hcalls : forall k, calls k (tr0 ++ tr1) = calls k tr0).
  { intros k. rewrite calls_app. subst tr1.
    destruct (timers d !! id); simpl; lia. }
  assert (Hadm : forall k, admissions k (tr0 ++ tr1) = admissions k tr0).
  { intros k. rewrite admissions_app. subst tr1.
    destruct (timers d !! id); simpl; lia. }
  assert (Hsub : forall k t0, timers d' !! k = Some t0 -> timers d !! k = Some t0).
  { intros k t0. rewrite Ht. intros Hl. apply lookup_delete_Some in Hl. tauto. }
  assert (Hkeep : forall k, timers d !! k = None -> timers d' !! k = None).
  { intros k Hnone. rewrite Ht. apply lookup_delete_None. auto. }
  constructor.
  - rewrite Hi; assumption.
  - intros k t0 Hk0. rewrite Hi. apply Hk, Hsub; assumption.
  - intros t0 Hin. rewrite Hch in Hin. destruct (Hq _ Hin).
    rewrite Hi. split; [assumption|apply Hkeep; assumption].
  - rewrite Hch; assumption.
  - intros k. rewrite deletes_app, Hch, Hi. destruct (Hd k) as [H1 H2].
    subst tr1. destruct (timers d !! id) as [t0|] eqn:E; simpl.
    + destruct (decide (id = k)) as [->|Hne].
      * destruct (deletes k tr0) eqn:E0.
        -- split; [lia|]. intros _. split; [rewrite Ht; apply lookup_delete_eq|].
           destruct (Hk _ _ E) as [_ Hbd]. split; [|lia].
           intros Hin. apply list_elem_of_fmap in Hin as (t1 & He & Hin).
           destruct (Hq _ Hin) as [_ Hnone]. congruence.
        -- exfalso. destruct H2 as (Hnone & _); [discriminate|congruence].
      * rewrite Nat.add_0_r. split; [assumption|]. intros Hne0.
        destruct (H2 Hne0) as (Hnone & Hnin & Hle).
        split; [apply Hkeep; assumption|]. split; assumption.
    + rewrite Nat.add_0_r. split; [assumption|]. intros Hne0.
      destruct (H2 Hne0) as (Hnone & Hnin & Hle).
      split; [apply Hkeep; assumption|]. split; assumption.
  - intros k Hne. rewrite Hcalls in Hne. rewrite Hi. apply Hcl; assumption.
  - intros k. rewrite Hadm, Hi. apply Ha.
  - intros a Hin Hcond Hcnt. rewrite Hcalls.
    assert (Hin0 : In (ObsAdmit a) tr0).
    { apply in_app_or in Hin. destruct Hin as [Hin|Hin]; [assumption|].
      subst tr1. destruct (timers d !! id); simpl in Hin;
        [destruct Hin as [Hin|[]]; discriminate|destruct Hin]. }
    destruct (Hb a Hin0 Hcond Hcnt) as [Hle Hl]. split; [assumption|].
    intros t0 [[j Hj]|Hinq] Hidt.
    + apply Hl; [left; exists j; apply Hsub; assumption|assumption].
    + rewrite Hch in Hinq. apply Hl; [right; assumption|assumption].
Qed.

Lemma Inv_step d d' tr0 tr1 :
  Inv d tr0 -> step_shape d d' tr1 -> Inv d' (tr0 ++ tr1).
Proof.
  intros HI [Hq|t Hid Hi Ht Hch ->|t q Hch Hi Ht Hch' ->|id Hi Ht Hch ->].
  - apply Inv_quiet with d; assumption.
  - apply Inv_admit with d; assumption.
  - rewrite app_nil_r. apply Inv_store with d t q; assumption.
  - apply Inv_delete; assumption.
Qed.

Lemma Inv_fresh (o : Options) (d : @DefaultScheduler W) :
  newScheduler o = Ok d -> Inv d [] /\ incrementID d = 0.
Proof.
  unfold newScheduler. destruct (timerBacklog o <? 0); [discriminate|].
  intros [= <-]. split; [|reflexivity]. constructor; simpl.
  - lia.
  - intros k t Hk. rewrite lookup_empty in Hk. discriminate.
  - intros t Hin. inversion Hin.
  - apply NoDup_nil_2.
  - intros k. split; [lia|]. intros H; contradiction.
  - intros k H; contradiction.
  - intros k. split; [lia|]. intros H; contradiction.
  - intros a [].
Qed.

(** The invariant holds along every run that allocates fewer ids than
    [int64] has positive values. *)
Lemma Inv_run ops : forall d w tr0 d' w' tr,
  Inv d tr0 ->
  incrementID d + Z.of_nat (length ops) <= Int64.max_int ->
  run ops (d, w) = Some ((d', w'), tr) ->
  Inv d' (tr0 ++ tr) /\ incrementID d' <= incrementID d + Z.of_nat (length ops).
Proof.
  induction ops as [|op rest IH]; intros d w tr0 d' w' tr HI Hmax; cbn [run].
  - intros [= <- <- <-]. rewrite app_nil_r. split; [assumption|simpl; lia].
  - destruct (exec op (d, w)) as [[[d1 w1] tr1]|] eqn:He; [|discriminate].
    destruct (run rest (d1, w1)) as [[[d2 w2] tr2]|] eqn:Hr; [|discriminate].
    intros [= <- <- <-].
    pose proof (inv_counter _ _ HI) as H0.
    cbn [length] in Hmax.
    assert (Hshape : step_shape d d1 tr1).
    { eapply exec_shape; [exact H0| |exact He]. lia. }
    assert (Hinc : incrementID d1 <= incrementID d + 1).
    { destruct Hshape as [(Hi & _)|t _ Hi _ _ _|t q _ Hi _ _ _|id Hi _ _ _]; lia. }
    destruct (IH d1 w1 (tr0 ++ tr1) d2 w2 tr2) as [HI2 Hle];
      [apply Inv_step with d; assumption|lia|assumption|].
    rewrite <- app_assoc in HI2. split; [assumption|cbn [length]; lia].
Qed.

End Invariant.

(** ** Cancellation *)

Section Cancellation.
Context {W : Type}.
Implicit Types (d : @DefaultScheduler W) (c : @Config W) (w : W)
  (t a : @Timer W) (tr : list (@Obs W)) (order : list Z).

Lemma closed_or_gone_step k d d' tr1 :
  closed_or_gone k d -> step_shape d d' tr1 -> closed_or_gone k d'.
Proof.
  intros (H0 & Hle & Hnin & Hk) [(Hi & Hch & _ & _ & Hev)|t Hid Hi Ht Hch _
    |t q Hch Hi Ht Hch' _|id Hi Ht Hch _]; unfold closed_or_gone.
  - rewrite Hi, Hch. repeat split; try assumption.
    specialize (Hev k). destruct Hk as [Hk|(t & Hk & Hcl)]; rewrite Hk in Hev.
    + left; apply Hev.
    + destruct Hev as (t' & Ht' & (_ & _ & Hc & _)). right; eauto.
  - rewrite Hi, Ht, Hch, fmap_app. repeat split; try lia; [|assumption].
    apply not_elem_of_app. split; [assumption|].
    simpl. intros Hx. apply list_elem_of_singleton in Hx. lia.
  - rewrite Hch, fmap_cons in Hnin. apply not_elem_of_cons in Hnin as [Hne Hnin].
    rewrite Hi, Ht, Hch'. repeat split; try assumption.
    rewrite lookup_insert_ne by congruence. assumption.
  - rewrite Hi, Ht, Hch. repeat split; try assumption.
    destruct (decide (id = k)) as [->|Hne].
    + left; apply lookup_delete_eq.
    + rewrite lookup_delete_ne by assumption. assumption.
Qed.

Lemma closed_or_gone_run k ops : forall d w d' w' tr,
  closed_or_gone k d ->
  incrementID d + Z.of_nat (length ops) <= Int64.max_int ->
  run ops (d, w) = Some ((d', w'), tr) ->
  closed_or_gone k d'.
Proof.
  induction ops as [|op rest IH]; intros d w d' w' tr HP Hmax; cbn [run].
  - intros [= <- <- <-]. assumption.
  - destruct (exec op (d, w)) as [[[d1 w1] tr1]|] eqn:He; [|discriminate].
    destruct (run rest (d1, w1)) as [[[d2 w2] tr2]|] eqn:Hr; [|discriminate].
    intros [= <- <- <-]. cbn [length] in Hmax.
    assert (Hshape : step_shape d d1 tr1).
    { destruct HP as (H0 & _). eapply exec_shape; [exact H0| |exact He]. lia. }
    assert (Hinc : incrementID d1 <= incrementID d + 1).
    { destruct Hshape as [(Hi & _)|t _ Hi _ _ _|t q _ Hi _ _ _|id Hi _ _ _]; lia. }
    eapply (IH d1 w1); [eapply closed_or_gone_step; eassumption|lia|exact Hr].
Qed.

(** What [RemoveTimer] answers on a record that is closed or gone. *)
Lemma RemoveTimer_closed_or_gone k d :
  closed_or_gone k d ->
  RemoveTimer k d = (Some ErrCloseClosedTimer, d) \/
  (timers d !! k = None /\ RemoveTimer k d = (Some ErrTimerNotFound, d)).
Proof.
  intros (_ & _ & _ & [Hk|(t & Hk & Hcl)]); unfold RemoveTimer, stopTimer; rewrite Hk.
  - right; split; reflexivity.
  - left. apply Z.ltb_lt in Hcl. rewrite Hcl. reflexivity.
Qed.

(** The two ways a [RemoveTimer] succeeds. *)
Lemma RemoveTimer_success id d d1 :
  RemoveTimer id d = (None, d1) ->
  exists t, timers d !! id = Some t /\ Timer_closed t <= 0 /\
    if chan_len (timerBacklog (opts d)) (ChClosingTimer d) <? timerBacklog (opts d)
    then d1 = set_timers (<[id := set_closed 1 t]> (timers d))
                (set_ChClosingTimer (ChClosingTimer d ++ [Timer_id t]) d)
    else d1 = set_timers (<[id := set_Counter 0 t]> (timers d)) d.
Proof.
  unfold RemoveTimer, stopTimer.
  destruct (timers d !! id) as [t|]; [|discriminate].
  destruct (0 <? Timer_closed t) eqn:Ecl; [discriminate|]. apply Z.ltb_ge in Ecl.
  destruct (chan_len _ _ <? _); intros [= <-]; exists t; auto.
Qed.

(** C4, as the code has it.  Along every run of a fresh scheduler each key
    is deleted from the set at most once.  When a [RemoveTimer] succeeds with
    a free slot on the retirement channel, the record is marked closed: from
    then on, after any further steps, [RemoveTimer] on that id answers
    [ErrCloseClosedTimer] while the record is in the set and
    [ErrTimerNotFound] once it is gone.  When it succeeds with the channel
    full, it sets the counter to 0 and leaves [closed] alone: the next
    [RemoveTimer] on that id succeeds again and changes nothing. *)
Theorem C4_second_RemoveTimer (o : Options) ops d0 w0 d w tr :
  newScheduler o = Ok d0 ->
  Z.of_nat (length ops) <= Int64.max_int ->
  run ops (d0, w0) = Some ((d, w), tr) ->
  (forall id, (deletes id tr <= 1)%nat) /\
  (forall id d1, RemoveTimer id d = (None, d1) ->
     if chan_len (timerBacklog (opts d)) (ChClosingTimer d) <? timerBacklog (opts d)
     then
       RemoveTimer id d1 = (Some ErrCloseClosedTimer, d1) /\
       forall ops2 w1 d2 w2 tr2,
         Z.of_nat (length ops) + Z.of_nat (length ops2) <= Int64.max_int ->
         run ops2 (d1, w1) = Some ((d2, w2), tr2) ->
         RemoveTimer id d2 = (Some ErrCloseClosedTimer, d2) \/
         (timers d2 !! id = None /\ RemoveTimer id d2 = (Some ErrTimerNotFound, d2))
     else RemoveTimer id d1 = (None, d1)).
Proof.
  intros Hnew Hmax Hrun.
  destruct (Inv_fresh o d0 Hnew) as [HI0 Hz].
  destruct (Inv_run ops d0 w0 [] d w tr HI0 ltac:(lia) Hrun) as [HI Hinc].
  simpl in HI. split.
  - intros id. apply (inv_deleted _ _ HI).
  - intros id d1 Hrm.
    destruct (RemoveTimer_success _ _ _ Hrm) as (t & Hk & Hcl & Hd1).
    destruct (chan_len (timerBacklog (opts d)) (ChClosingTimer d) <? timerBacklog (opts d))
      eqn:Elen.
    + assert (Hk1 : timers d1 !! id = Some (set_closed 1 t)).
      { subst d1. apply lookup_insert_eq. }
      split.
      * unfold RemoveTimer, stopTimer. rewrite Hk1. reflexivity.
      * intros ops2 w1 d2 w2 tr2 Hmax2 Hrun2.
        apply RemoveTimer_closed_or_gone.
        apply (closed_or_gone_run id ops2 d1 w1 d2 w2 tr2); [|subst d1; simpl; lia|exact Hrun2].
        destruct (inv_keys _ _ HI _ _ Hk) as [_ Hbd].
        unfold closed_or_gone. rewrite Hk1.
        replace (incrementID d1) with (incrementID d) by (subst d1; reflexivity).
        replace (ChCreatedTimer d1) with (ChCreatedTimer d) by (subst d1; reflexivity).
        pose proof (inv_counter _ _ HI).
        repeat split; try lia.
        -- intros Hin. apply list_elem_of_fmap in Hin as (t1 & He & Hin).
           destruct (inv_queue _ _ HI _ Hin) as [_ Hnone]. congruence.
        -- right. exists (set_closed 1 t). split; [reflexivity|simpl; lia].
    + subst d1. unfold RemoveTimer, stopTimer. cbn [timers set_timers].
      rewrite lookup_insert_eq.
      replace (0 <? Timer_closed (set_Counter 0 t)) with false
        by (symmetry; apply Z.ltb_ge; exact Hcl).
      cbn [opts ChClosingTimer set_timers]. rewrite Elen.
      rewrite insert_insert_eq. reflexivity.
Qed.

(** C9, as the code has it: along every run of a fresh scheduler, a record
    admitted without a condition and with a counter [n >= 0] is the only one
    admitted under its id, and its callback is entered at most [n] times.  A
    record with a condition keeps its counter when it fires: the scan that
    visits it with a counter other than 0 and a condition that holds enters
    its callback and leaves the record as it was. *)
Theorem C9_counter_bounds_interval_timers (o : Options) ops d0 w0 d w tr a :
  newScheduler o = Ok d0 ->
  Z.of_nat (length ops) <= Int64.max_int ->
  run ops (d0, w0) = Some ((d, w), tr) ->
  In (ObsAdmit a) tr ->
  Condition (Timer_opts a) = None ->
  0 <= Counter (Timer_opts a) ->
  admissions (Timer_id a) tr = 1%nat /\
  Z.of_nat (calls (Timer_id a) tr) <= Counter (Timer_opts a) /\
  (forall now order d1 w1 k t cond,
     NoDup order -> k ∈ order -> timers d1 !! k = Some t ->
     Counter (Timer_opts t) <> 0 ->
     Condition (Timer_opts t) = Some cond -> cond now = true ->
     calls k (Cron now order (d1, w1)).2 = 1%nat /\
     timers (Cron now order (d1, w1)).1.1 !! k = Some t).
Proof.
  intros Hnew Hmax Hrun Hin Hcond Hcnt.
  destruct (Inv_fresh o d0 Hnew) as [HI0 Hz].
  destruct (Inv_run ops d0 w0 [] d w tr HI0 ltac:(lia) Hrun) as [HI _].
  simpl in HI. split; [|split].
  - destruct (inv_admitted _ _ HI (Timer_id a)) as [Hle _].
    pose proof (In_admit_admissions _ _ Hin). lia.
  - apply (inv_budget _ _ HI a Hin Hcond Hcnt).
  - intros now order d1 w1 k t cond Hnd Hk Hl Hc0 Hc Hnow. unfold Cron.
    destruct (Cron_range now order (d1, w1)) as [[d2 w2] tr2] eqn:Hr. cbn [fst snd].
    assert (Hf : fires now t = true).
    { unfold fires. rewrite Hc, Hnow. apply andb_true_iff; split; [|reflexivity].
      apply negb_true_iff, Z.eqb_neq; assumption. }
    split.
    + rewrite (Cron_range_calls _ _ _ _ _ _ _ k Hnd Hr).
      rewrite decide_True by assumption. rewrite Hl, Hf. reflexivity.
    + destruct (Cron_range_visit _ _ _ _ _ _ _ _ _ Hnd Hk Hl Hr)
        as (d3 & w3 & d4 & w4 & tr4 & l & Hk3 & _ & Hv & Heq & _).
      destruct (cron_visit_self _ _ _ _ _ _ _ _ Hk3 Hv) as (t' & Ht' & Hcase).
      apply Z.eqb_neq in Hc0. rewrite Hc0, Hf, Hc in Hcase. congruence.
Qed.

End Cancellation.

Example single_shot_trace :
  ExRun.final_tr ExRun.o2 ExRun.single_shot
    = [ObsAdmit (new_record 1 0 5 (Some Ex.bump) [WithCounter 1]); ObsCall 1; ObsDelete 1] /\
  timers (ExRun.final_d ExRun.o2 ExRun.single_shot) = ∅ /\
  ExRun.final_w ExRun.o2 ExRun.single_shot = 1%nat.
Proof. repeat split. Qed.

Lemma C4_second_RemoveTimer_witness :
  @newScheduler nat ExRun.o1 = Ok (ExRun.start ExRun.o1) /\
  Z.of_nat (length ExRun.retirement_full) <= Int64.max_int /\
  run ExRun.retirement_full (ExRun.start ExRun.o1, O)
    = Some ((ExRun.final_d ExRun.o1 ExRun.retirement_full,
             ExRun.final_w ExRun.o1 ExRun.retirement_full),
            ExRun.final_tr ExRun.o1 ExRun.retirement_full) /\
  (forall id, le (deletes id (ExRun.final_tr ExRun.o1 ExRun.retirement_full)) 1%nat).
Proof.
  split; [reflexivity|]. split; [vm_compute; discriminate|].
  split; [vm_compute; reflexivity|].
  apply (C4_second_RemoveTimer ExRun.o1 ExRun.retirement_full
           (ExRun.start ExRun.o1) O
           (ExRun.final_d ExRun.o1 ExRun.retirement_full)
           (ExRun.final_w ExRun.o1 ExRun.retirement_full)
           (ExRun.final_tr ExRun.o1 ExRun.retirement_full));
    [reflexivity|vm_compute; discriminate|vm_compute; reflexivity].
Defined.

(** With the retirement channel full, [RemoveTimer 2] succeeds by setting
    the counter to 0, and the second [RemoveTimer 2] succeeds as well: it
    does not answer [ErrCloseClosedTimer]. *)
Lemma C4_degraded_cancel_succeeds_twice :
  let d := ExRun.final_d ExRun.o1 ExRun.retirement_full in
  ExRun.outcome ExRun.o1 ExRun.retirement_full
    = Some ((d, O), [ObsAdmit (new_record 1 0 5 (Some Ex.bump) []);
                     ObsAdmit (new_record 2 0 5 (Some Ex.bump) [])]) /\
  ChClosingTimer d = [1] /\
  exists d1,
    RemoveTimer 2 d = (None, d1) /\
    Counter ∘ Timer_opts <$> (timers d1 !! 2) = Some 0 /\
    Timer_closed <$> (timers d1 !! 2) = Some 0 /\
    RemoveTimer 2 d1 = (None, d1) /\
    (RemoveTimer 2 d1).1 <> Some ErrCloseClosedTimer.
Proof.
  split; [vm_compute; reflexivity|]. split; [reflexivity|].
  eexists. split; [vm_compute; reflexivity|].
  split; [reflexivity|]. split; [reflexivity|].
  split; [vm_compute; reflexivity|]. vm_compute. discriminate.
Qed.

Lemma C9_counter_bounds_interval_timers_witness :
  @newScheduler nat ExRun.o2 = Ok (ExRun.start ExRun.o2) /\
  Z.of_nat (length ExRun.single_shot) <= Int64.max_int /\
  In (ObsAdmit (new_record 1 0 5 (Some Ex.bump) [WithCounter 1]))
     (ExRun.final_tr ExRun.o2 ExRun.single_shot) /\
  Z.of_nat (calls 1 (ExRun.final_tr ExRun.o2 ExRun.single_shot)) <= 1.
Proof.
  split; [reflexivity|]. split; [vm_compute; discriminate|].
  split; [left; reflexivity|].
  apply (C9_counter_bounds_interval_timers ExRun.o2 ExRun.single_shot
           (ExRun.start ExRun.o2) O
           (ExRun.final_d ExRun.o2 ExRun.single_shot)
           (ExRun.final_w ExRun.o2 ExRun.single_shot)
           (ExRun.final_tr ExRun.o2 ExRun.single_shot)
           (new_record 1 0 5 (Some Ex.bump) [WithCounter 1]));
    [reflexivity|vm_compute; discriminate|vm_compute; reflexivity
    |left; reflexivity|reflexivity|vm_compute; discriminate].
Defined.

(** A timer admitted with counter 1 and a condition is entered on both
    ticks: twice, more than its counter. *)
Lemma C9_condition_timer_exceeds_counter :
  let a := new_record 1 0 5 (Some Ex.bump) [WithCounter 1; WithCondition Ex.always] in
  ExRun.outcome ExRun.o2 ExRun.conditioned
    = Some ((ExRun.final_d ExRun.o2 ExRun.conditioned, 2%nat),
            [ObsAdmit a; ObsCall 1; ObsCall 1]) /\
  Counter (Timer_opts a) = 1 /\
  calls (Timer_id a) (ExRun.final_tr ExRun.o2 ExRun.conditioned) = 2%nat /\
  ~ (Z.of_nat (calls (Timer_id a) (ExRun.final_tr ExRun.o2 ExRun.conditioned))
       <= Counter (Timer_opts a)).
Proof.
  split; [vm_compute; reflexivity|]. split; [reflexivity|].
  split; [reflexivity|]. vm_compute. intros H; apply H; reflexivity.
Qed.

(** ** A cancellation that overtakes the admission *)

Section Overtaking.
Context {W : Type}.
Implicit Types (d : @DefaultScheduler W) (w : W) (t : @Timer W).

(** [RemoveTimer] answers [ErrTimerNotFound] exactly on the ids that are not
    keys of the map. *)
Lemma RemoveTimer_not_found id d :
  (RemoveTimer id d).1 = Some ErrTimerNotFound <-> timers d !! id = None.
Proof.
  unfold RemoveTimer, stopTimer. destruct (timers d !! id) as [t|].
  - split; [|discriminate].
    destruct (0 <? Timer_closed t); [discriminate|].
    destruct (chan_len _ _ <? _); discriminate.
  - split; reflexivity.
Qed.

(** C10: [RemoveTimer] on the id [NewTimer] has just returned, the record
    still waiting on the admission channel, answers [ErrTimerNotFound] and
    changes nothing; once the loop has served the admissions that wait, the
    record is in the set under that id, and every scan that visits it when
    it [fires] enters its callback.  In any state [RemoveTimer] answers
    [ErrTimerNotFound] exactly when the id is not a key of the set. *)
Theorem C10_RemoveTimer_before_admission
    (now : Time) (interval : Z) (fn : option (@Func W))
    (opt : list (@TimerOption W)) d w :
  let id := (NewTimer now interval fn opt d).1 in
  let d1 := (NewTimer now interval fn opt d).2 in
  let t := new_record id (UnixNano now) interval fn opt in
  timers d !! id = None ->
  RemoveTimer id d1 = (Some ErrTimerNotFound, d1) /\
  (exists d2,
     Start_loop (repeat EvCreated (length (ChCreatedTimer d1))) (d1, w)
       = Some (InLoop, (d2, w), []) /\
     timers d2 !! id = Some t /\
     forall now' order w2,
       NoDup order -> id ∈ order -> fires now' t = true ->
       calls id (Cron now' order (d2, w2)).2 = 1%nat) /\
  (forall d' id',
     (RemoveTimer id' d').1 = Some ErrTimerNotFound <-> timers d' !! id' = None).
Proof.
  intros id d1 t Hfresh.
  assert (Hq : ChCreatedTimer d1 = ChCreatedTimer d ++ [t]) by reflexivity.
  assert (Hid : Timer_id t = id) by reflexivity.
  split; [|split].
  - unfold RemoveTimer.
    replace (timers d1) with (timers d) by reflexivity. rewrite Hfresh. reflexivity.
  - destruct (drain_last (ChCreatedTimer d) t d1 w Hq) as (d2 & Hrun & Hk & _).
    exists d2. rewrite Hq, length_app, Nat.add_1_r. cbn [length].
    split; [exact Hrun|]. rewrite Hid in Hk. split; [exact Hk|].
    intros now' order w2 Hnd Hin Hf. unfold Cron.
    destruct (Cron_range now' order (d2, w2)) as [[d3 w3] tr3] eqn:Hr. cbn [snd].
    rewrite (Cron_range_calls _ _ _ _ _ _ _ id Hnd Hr).
    rewrite decide_True by assumption. rewrite Hk, Hf. reflexivity.
  - intros d' id'. apply RemoveTimer_not_found.
Qed.

End Overtaking.

Lemma C10_RemoveTimer_before_admission_witness :
  timers (ExRun.start ExRun.o2) !! 1 = None /\
  RemoveTimer 1 (NewTimer 0 5 (Some Ex.bump) [] (ExRun.start ExRun.o2)).2
    = (Some ErrTimerNotFound, (NewTimer 0 5 (Some Ex.bump) [] (ExRun.start ExRun.o2)).2).
Proof.
  split; [reflexivity|].
  apply (C10_RemoveTimer_before_admission 0 5 (Some Ex.bump) [] (ExRun.start ExRun.o2) O).
  reflexivity.
Defined.

(** The run of the claim: the id is returned, the cancellation fails, the
    record is admitted afterwards and fires on the next tick. *)
Example cancel_overtakes_admission :
  ExRun.outcome ExRun.o2
    [CallNewTimer 0 5 (Some Ex.bump) []; CallRemoveTimer 1;
     LoopSelect EvCreated; LoopSelect (EvTick 10 [1])]
  = Some ((ExRun.final_d ExRun.o2
             [CallNewTimer 0 5 (Some Ex.bump) []; CallRemoveTimer 1;
              LoopSelect EvCreated; LoopSelect (EvTick 10 [1])], 1%nat),
          [ObsAdmit (new_record 1 0 5 (Some Ex.bump) []); ObsCall 1]).
Proof. vm_compute. reflexivity. Qed.

(** ** The first firing *)

Section FirstFiring.
Context {W : Type}.
Implicit Types (d : @DefaultScheduler W) (w : W) (t : @Timer W) (order : list Z).

(** The record [NewTimer] builds starts with [elapse = interval]; it is
    [timely] when the interval is positive and [now + interval] fits. *)
Lemma new_record_timely id now interval (fn : option (@Func W)) opt :
  Condition (Timer_opts (new_record id now interval fn opt)) = None ->
  Interval (Timer_opts (new_record id now interval fn opt)) = interval ->
  0 < interval -> 0 <= now -> now + interval <= Int64.max_int ->
  Timer_elapse (new_record id now interval fn opt) = interval /\
  timely (new_record id now interval fn opt).
Proof.
  intros Hc Hi Hpos Hnow Hfit. split; [reflexivity|].
  unfold timely. rewrite Hc, Hi. cbn [new_record Timer_createAt Timer_elapse].
  repeat split; lia.
Qed.

(** As long as the additions do not overflow, a scan enters the callback of
    a timely record only when one interval has passed since its admission,
    and leaves the record timely. *)
Lemma timely_scan now order d w k t :
  NoDup order -> timers d !! k = Some t -> timely t ->
  UnixNano now + Interval (Timer_opts t) <= Int64.max_int ->
  (calls k (Cron now order (d, w)).2 <> O ->
   Timer_createAt t + Interval (Timer_opts t) <= UnixNano now) /\
  exists t', timers (Cron now order (d, w)).1.1 !! k = Some t' /\
    Timer_createAt t' = Timer_createAt t /\
    Interval (Timer_opts t') = Interval (Timer_opts t) /\ timely t'.
Proof.
  intros Hnd Hk (Hc & Hpos & Hcr & Hel & Hfit) Hnow. unfold Cron.
  destruct (Cron_range now order (d, w)) as [[d' w'] tr] eqn:Hr. cbn [fst snd].
  pose proof (Cron_range_calls _ _ _ _ _ _ _ k Hnd Hr) as Hcalls.
  rewrite Hk in Hcalls.
  assert (Hw : Int64.wrap (Timer_createAt t + Timer_elapse t)
               = Timer_createAt t + Timer_elapse t).
  { apply wrap_id. unfold Int64.in_range, Int64.min_int, Int64.max_int in *. lia. }
  assert (Hkeep : timely t) by (unfold timely; auto).
  destruct (decide (k ∈ order)) as [Hin|Hnin].
  - destruct (Cron_range_visit _ _ _ _ _ _ _ _ _ Hnd Hin Hk Hr)
      as (d0 & w0 & d1 & w1 & tr1 & l & Hk0 & _ & Hv & Heq & _).
    destruct (cron_visit_self _ _ _ _ _ _ _ _ Hk0 Hv) as (t' & Ht' & Hcase).
    rewrite Heq, Ht'. unfold fires in *. rewrite Hc in *.
    destruct (Counter (Timer_opts t) =? 0) eqn:E0; cbn [negb andb] in *.
    + split; [intros Hne; contradiction|].
      exists t'. split; [reflexivity|].
      destruct Hcase as [-> | [-> | ->]]; repeat split; assumption.
    + unfold due in *. rewrite Hw in *.
      destruct (Timer_createAt t + Timer_elapse t <=? UnixNano now) eqn:Ed.
      * apply Z.leb_le in Ed. split; [intros _; lia|].
        subst t'. exists (advance t). split; [reflexivity|].
        destruct (advance_fields t Hc) as (He & _ & _ & Hca & _ & Hint & _ & Hcd).
        assert (Hw2 : Int64.wrap (Timer_elapse t + Interval (Timer_opts t))
                      = Timer_elapse t + Interval (Timer_opts t)).
        { apply wrap_id. unfold Int64.in_range, Int64.min_int, Int64.max_int in *. lia. }
        unfold timely. rewrite Hca, Hint, Hcd, He, Hw2.
        unfold Int64.max_int in *. repeat split; try assumption; lia.
      * split; [intros Hne; contradiction|].
        subst t'. exists t. repeat split; assumption.
  - split; [intros Hne; contradiction|].
    destruct (Cron_range_frame _ _ _ _ _ _ _ Hr) as (_ & _ & _ & _ & Hout & _).
    exists t. rewrite Hout by assumption. repeat split; assumption.
Qed.

End FirstFiring.

(** C6, on the code: a timer admitted at [t = 1700000000000000000] with the
    interval [i = 2^63 - 1] starts with [elapse = i], and [t + i] overflows
    [int64]: the firing test of the first tick, 100 ms later, adds them to a
    negative number and the callback is entered, long before [t + i]. *)
Theorem C6_first_firing_overflows :
  let t0 := 1700000000000000000 in
  let i := Int64.max_int in
  let a := new_record 1 t0 i (Some Ex.bump) [] in
  let ops := [CallNewTimer t0 i (Some Ex.bump) []; LoopSelect EvCreated;
              LoopSelect (EvTick (t0 + 100000000) [1])] in
  Timer_elapse a = i /\
  Condition (Timer_opts a) = None /\
  Int64.wrap (Timer_createAt a + Timer_elapse a) = -7523372036854775809 /\
  ExRun.outcome ExRun.o2 ops
    = Some ((ExRun.final_d ExRun.o2 ops, 1%nat), [ObsAdmit a; ObsCall 1]) /\
  t0 + 100000000 < t0 + i.
Proof.
  repeat split; vm_compute; reflexivity.
Qed.

(** * More properties of the scheduler *)

(** ** What a step leaves alone *)

Section StepFrames.
Context {W : Type}.
Implicit Types (d : @DefaultScheduler W) (c : @Config W) (w : W)
  (t a : @Timer W) (tr : list (@Obs W)) (order : list Z) (op : @Op W).

Lemma RemoveTimer_frame id d :
  let d' := (RemoveTimer id d).2 in
  opts d' = opts d /\ incrementID d' = incrementID d /\
  ChCreatedTimer d' = ChCreatedTimer d /\ exit d' = exit d /\
  (forall j, j <> id -> timers d' !! j = timers d !! j) /\
  (exists l, ChClosingTimer d' = ChClosingTimer d ++ l).
Proof.
  unfold RemoveTimer. destruct (timers d !! id) as [t|].
  - apply stopTimer_frame.
  - cbn. repeat split. exists []. symmetry; apply app_nil_r.
Qed.

(** No step of a run changes the configuration. *)
Lemma exec_opts op d w d' w' tr :
  exec op (d, w) = Some ((d', w'), tr) -> opts d' = opts d.
Proof.
  destruct op as [now interval fn opt|id| |ev]; cbn [exec].
  - intros [= <- <- <-]. reflexivity.
  - intros [= <- <- <-]. apply RemoveTimer_frame.
  - unfold Stop. destruct (exit d); [discriminate|]. intros [= <- <- <-]. reflexivity.
  - destruct ev as [|now order| |]; cbn [select_case].
    + destruct (exit d); [|discriminate]. intros [= <- <- <-]. reflexivity.
    + destruct (range_order order d); [|discriminate]. unfold Cron.
      destruct (Cron_range now order (d, w)) as [[d1 w1] tr1] eqn:Hr.
      intros [= <- <- <-]. apply (Cron_range_frame _ _ _ _ _ _ _ Hr).
    + destruct (ChCreatedTimer d) as [|t q]; [discriminate|].
      intros [= <- <- <-]. reflexivity.
    + destruct (ChClosingTimer d) as [|id q]; [discriminate|].
      intros [= <- <- <-]. reflexivity.
Qed.

(** Only [NewTimer] moves the id counter and admits a record, and it admits
    it under the next id. *)
Lemma exec_ids op d w d' w' tr :
  0 <= incrementID d -> incrementID d + 1 <= Int64.max_int ->
  exec op (d, w) = Some ((d', w'), tr) ->
  incrementID d' = incrementID d + Z.of_nat (news [op]) /\
  forall k, admissions k tr = if decide (k = incrementID d + 1) then news [op] else O.
Proof.
  intros H0 Hmax. destruct op as [now interval fn opt|id| |ev]; cbn [exec news].
  - assert (Hw : Int64.wrap (incrementID d + 1) = incrementID d + 1).
    { apply wrap_id. unfold Int64.in_range, Int64.min_int, Int64.max_int in *. lia. }
    unfold NewTimer. rewrite Hw. intros [= <- <- <-]. split; [cbn; lia|].
    intros k. cbn. destruct (decide (incrementID d + 1 = k));
      destruct (decide (k = incrementID d + 1)); try reflexivity; congruence.
  - intros [= <- <- <-]. split.
    + destruct (RemoveTimer_frame id d) as (_ & Hi & _). cbn in *. lia.
    + intros k. case_decide; reflexivity.
  - unfold Stop. destruct (exit d); [discriminate|]. intros [= <- <- <-].
    split; [cbn; lia|]. intros k. case_decide; reflexivity.
  - destruct ev as [|now order| |]; cbn [select_case].
    + destruct (exit d); [|discriminate]. intros [= <- <- <-].
      split; [cbn; lia|]. intros k. case_decide; reflexivity.
    + destruct (range_order order d); [|discriminate]. unfold Cron.
      pose proof (Cron_range_admissions now order (d, w)) as Ha.
      destruct (Cron_range now order (d, w)) as [[d1 w1] tr1] eqn:Hr.
      intros [= <- <- <-]. cbn [snd] in Ha.
      destruct (Cron_range_frame _ _ _ _ _ _ _ Hr) as (_ & Hi & _).
      split; [cbn; lia|]. intros k. rewrite (Ha k). case_decide; reflexivity.
    + destruct (ChCreatedTimer d) as [|t q]; [discriminate|].
      intros [= <- <- <-]. split; [cbn; lia|]. intros k. case_decide; reflexivity.
    + destruct (ChClosingTimer d) as [|id q]; [discriminate|].
      intros [= <- <- <-]. split; [cbn; lia|].
      intros k. destruct (timers d !! id); case_decide; reflexivity.
Qed.

Lemma ids_run ops : forall d w tr0 d' w' tr,
  0 <= incrementID d ->
  (forall k, admissions k tr0 = if decide (1 <= k <= incrementID d) then 1%nat else O) ->
  incrementID d + Z.of_nat (length ops) <= Int64.max_int ->
  run ops (d, w) = Some ((d', w'), tr) ->
  incrementID d' = incrementID d + Z.of_nat (news ops) /\
  forall k, admissions k (tr0 ++ tr)
            = if decide (1 <= k <= incrementID d') then 1%nat else O.
Proof.
  induction ops as [|op rest IH]; intros d w tr0 d' w' tr H0 Hadm Hmax; cbn [run].
  - intros [= <- <- <-]. rewrite app_nil_r. split; [cbn; lia|assumption].
  - destruct (exec op (d, w)) as [[[d1 w1] tr1]|] eqn:He; [|discriminate].
    destruct (run rest (d1, w1)) as [[[d2 w2] tr2]|] eqn:Hr; [|discriminate].
    intros [= <- <- <-]. cbn [length] in Hmax.
    destruct (exec_ids _ _ _ _ _ _ H0 ltac:(lia) He) as [Hi Ha].
    assert (Hn : (news [op] <= 1)%nat) by (destruct op; cbn; lia).
    destruct (IH d1 w1 (tr0 ++ tr1) d2 w2 tr2) as [Hi2 Ha2]; [lia| |lia|exact Hr|].
    + intros k. rewrite admissions_app, Hadm, Ha, Hi.
      destruct (decide (1 <= k <= incrementID d));
        destruct (decide (k = incrementID d + 1));
        destruct (decide (1 <= k <= incrementID d + Z.of_nat (news [op])));
        try reflexivity; try lia.
    + split.
      * rewrite Hi2, Hi. replace (news (op :: rest)) with (news [op] + news rest)%nat
          by (destruct op; reflexivity). lia.
      * intros k. rewrite app_assoc. apply Ha2.
Qed.

(** X1: the ids [NewTimer] hands out along a run of a fresh scheduler are
    1, 2, 3, ... in the order of the calls: after [n] calls the counter is
    [n], exactly the ids from 1 to [n] have been given to a record, each to
    one record, and the next call returns [n + 1]. *)
Theorem X1_ids_are_consecutive (o : Options) ops d0 w0 d w tr :
  newScheduler o = Ok d0 ->
  Z.of_nat (length ops) < Int64.max_int ->
  run ops (d0, w0) = Some ((d, w), tr) ->
  incrementID d = Z.of_nat (news ops) /\
  (forall k, admissions k tr
             = if decide (1 <= k <= Z.of_nat (news ops)) then 1%nat else O) /\
  (forall now interval fn opt,
     (NewTimer now interval fn opt d).1 = Z.of_nat (news ops) + 1).
Proof.
  intros Hnew Hmax Hrun.
  destruct (Inv_fresh o d0 Hnew) as [_ Hz].
  destruct (ids_run ops d0 w0 [] d w tr) as [Hi Ha];
    [lia|intros k; rewrite Hz; cbn; case_decide; [lia|reflexivity]|lia|exact Hrun|].
  rewrite Hz in Hi. cbn in Ha. rewrite Hi in Ha.
  split; [lia|]. split; [exact Ha|].
  intros now interval fn opt. cbn. rewrite Hi.
  assert (Hlen : (news ops <= length ops)%nat).
  { clear. induction ops as [|op rest IH]; [reflexivity|].
    destruct op; cbn; lia. }
  apply wrap_id. unfold Int64.in_range, Int64.min_int, Int64.max_int in *. lia.
Qed.

End StepFrames.

(** ** After the removal *)

Section Removed.
Context {W : Type}.
Implicit Types (d : @DefaultScheduler W) (c : @Config W) (w : W)
  (t a : @Timer W) (tr : list (@Obs W)) (order : list Z) (op : @Op W).

Lemma gone_step k d d' tr1 :
  gone k d -> step_shape d d' tr1 ->
  gone k d' /\ calls k tr1 = O /\ deletes k tr1 = O.
Proof.
  intros (H0 & Hle & Hnin & Hk) [(Hi & Hch & Hdel & _ & Hev)|t Hid Hi Ht Hch ->
    |t q Hch Hi Ht Hch' ->|id Hi Ht Hch ->]; unfold gone.
  - specialize (Hev k). rewrite Hk in Hev. destruct Hev as [Hnone Hz].
    rewrite Hi, Hch. repeat split; try assumption. apply Hdel.
  - rewrite Hi, Ht, Hch, fmap_app. repeat split; try lia; try assumption.
    apply not_elem_of_app. split; [assumption|].
    simpl. intros Hx. apply list_elem_of_singleton in Hx. lia.
  - rewrite Hch, fmap_cons in Hnin. apply not_elem_of_cons in Hnin as [Hne Hnin].
    rewrite Hi, Ht, Hch'. repeat split; try assumption.
    rewrite lookup_insert_ne by congruence. assumption.
  - rewrite Hi, Ht, Hch. repeat split; try assumption.
    + apply lookup_delete_None. auto.
    + destruct (timers d !! id); reflexivity.
    + destruct (timers d !! id) as [t0|] eqn:E; [|reflexivity].
      simpl. rewrite decide_False; [reflexivity|]. congruence.
Qed.

Lemma gone_run k ops : forall d w d' w' tr,
  gone k d ->
  incrementID d + Z.of_nat (length ops) <= Int64.max_int ->
  run ops (d, w) = Some ((d', w'), tr) ->
  gone k d' /\ calls k tr = O /\ deletes k tr = O.
Proof.
  induction ops as [|op rest IH]; intros d w d' w' tr HP Hmax; cbn [run].
  - intros [= <- <- <-]. split; [assumption|split; reflexivity].
  - destruct (exec op (d, w)) as [[[d1 w1] tr1]|] eqn:He; [|discriminate].
    destruct (run rest (d1, w1)) as [[[d2 w2] tr2]|] eqn:Hr; [|discriminate].
    intros [= <- <- <-]. cbn [length] in Hmax.
    assert (Hshape : step_shape d d1 tr1).
    { destruct HP as (H0 & _). eapply exec_shape; [exact H0| |exact He]. lia. }
    assert (Hinc : incrementID d1 <= incrementID d + 1).
    { destruct Hshape as [(Hi & _)|t _ Hi _ _ _|t q _ Hi _ _ _|id Hi _ _ _]; lia. }
    destruct (gone_step _ _ _ _ HP Hshape) as (HP1 & Hc1 & Hd1).
    destruct (IH d1 w1 d2 w2 tr2 HP1 ltac:(lia) Hr) as (HP2 & Hc2 & Hd2).
    rewrite calls_app, deletes_app, Hc1, Hc2, Hd1, Hd2.
    split; [assumption|split; reflexivity].
Qed.

(** X2: once the loop has removed the record of an id, nothing brings it
    back: whatever steps follow, the callback of that id is not entered
    again, the id is never a key of the set again and is not deleted a
    second time, and [RemoveTimer] on it answers [ErrTimerNotFound]. *)
Theorem X2_removed_timer_stays_removed (o : Options) ops1 ops2 d0 w0 d1 w1 tr1 d2 w2 tr2 k :
  newScheduler o = Ok d0 ->
  Z.of_nat (length ops1) + Z.of_nat (length ops2) <= Int64.max_int ->
  run ops1 (d0, w0) = Some ((d1, w1), tr1) ->
  deletes k tr1 <> O ->
  run ops2 (d1, w1) = Some ((d2, w2), tr2) ->
  calls k tr2 = O /\ deletes k tr2 = O /\ timers d2 !! k = None /\
  RemoveTimer k d2 = (Some ErrTimerNotFound, d2).
Proof.
  intros Hnew Hmax Hrun1 Hdel Hrun2.
  destruct (Inv_fresh o d0 Hnew) as [HI0 Hz].
  destruct (Inv_run ops1 d0 w0 [] d1 w1 tr1 HI0 ltac:(lia) Hrun1) as [HI Hinc].
  simpl in HI.
  destruct (inv_deleted _ _ HI k) as [_ Hdead].
  destruct (Hdead Hdel) as (Hnone & Hnin & Hle).
  assert (Hg : gone k d1).
  { unfold gone. pose proof (inv_counter _ _ HI). repeat split; assumption. }
  destruct (gone_run k ops2 d1 w1 d2 w2 tr2 Hg ltac:(lia) Hrun2)
    as ((_ & _ & _ & Hk2) & Hc & Hd).
  repeat split; try assumption.
  unfold RemoveTimer. rewrite Hk2. reflexivity.
Qed.

(** X3: [Init] on a scheduler in use throws away what waits on its two
    channels.  A record [NewTimer] has handed over and that [Init] finds
    waiting for admission is lost: whatever steps follow, it never enters
    the set and its callback is never entered, although its id has been
    allocated; the timer set, the id counter and the exit signal are kept. *)
Theorem X3_Init_drops_waiting_admissions (o : Options) ops1 ops2 d0 w0 d w tr
    (now : Time) (interval : Z) (fn : option (@Func W)) (opt : list (@TimerOption W))
    (sopt : list Option) d2 w2 d3 w3 tr3 :
  let id := (NewTimer now interval fn opt d).1 in
  let d1 := (NewTimer now interval fn opt d).2 in
  newScheduler o = Ok d0 ->
  Z.of_nat (length ops1) + 1 + Z.of_nat (length ops2) <= Int64.max_int ->
  run ops1 (d0, w0) = Some ((d, w), tr) ->
  Init sopt d1 = (d2, None) ->
  run ops2 (d2, w2) = Some ((d3, w3), tr3) ->
  ChCreatedTimer d2 = [] /\ ChClosingTimer d2 = [] /\
  timers d2 = timers d /\ incrementID d2 = id /\ exit d2 = exit d /\
  calls id tr3 = O /\ timers d3 !! id = None.
Proof.
  intros id d1 Hnew Hmax Hrun1 Hinit Hrun2.
  destruct (Inv_fresh o d0 Hnew) as [HI0 Hz].
  destruct (Inv_run ops1 d0 w0 [] d w tr HI0 ltac:(lia) Hrun1) as [HI Hinc].
  simpl in HI. pose proof (inv_counter _ _ HI) as H0.
  assert (Hid : id = incrementID d + 1).
  { subst id. cbn. apply wrap_id.
    unfold Int64.in_range, Int64.min_int, Int64.max_int in *. lia. }
  unfold Init in Hinit.
  destruct (timerBacklog _ <? 0); [discriminate|]. injection Hinit as <-.
  set (dI := set_ChCreatedTimer [] (set_ChClosingTimer []
               (set_opts (fold_left (fun o f => f o) sopt (opts d1)) d1))) in *.
  assert (Hi : incrementID dI = id) by reflexivity.
  assert (Hq : ChCreatedTimer dI = []) by reflexivity.
  assert (Ht : timers dI = timers d) by reflexivity.
  assert (Hg : gone id dI).
  { unfold gone. rewrite Hi, Hq, Ht.
    split; [lia|]. split; [lia|]. split; [intros Hin; inversion Hin|].
    destruct (timers d !! id) as [t|] eqn:E; [|reflexivity].
    destruct (inv_keys _ _ HI _ _ E). lia. }
  destruct (gone_run id ops2 dI w2 d3 w3 tr3 Hg) as ((_ & _ & _ & Hk3) & Hc & _);
    [rewrite Hi; lia|exact Hrun2|].
  repeat split; assumption || reflexivity.
Qed.

End Removed.

(** ** Serving the channels *)

Section Draining.
Context {W : Type}.
Implicit Types (d : @DefaultScheduler W) (c : @Config W) (w : W)
  (t a : @Timer W) (tr : list (@Obs W)) (order : list Z) (op : @Op W).

(** Serving the admission case once for every record that waits. *)
Lemma drain_created q : forall d w,
  ChCreatedTimer d = q -> NoDup (Timer_id <$> q) ->
  exists d2,
    Start_loop (repeat EvCreated (length q)) (d, w) = Some (InLoop, (d2, w), []) /\
    ChCreatedTimer d2 = [] /\ ChClosingTimer d2 = ChClosingTimer d /\
    incrementID d2 = incrementID d /\ opts d2 = opts d /\ exit d2 = exit d /\
    (forall t, t ∈ q -> timers d2 !! Timer_id t = Some t) /\
    (forall k, k ∉ (Timer_id <$> q) -> timers d2 !! k = timers d !! k).
Proof.
  induction q as [|t0 q IH]; intros d w Hq Hnd.
  - cbn [length repeat Start_loop]. exists d. repeat split; try assumption.
    intros t Hin. inversion Hin.
  - cbn [length repeat]. rewrite Start_loop_cons, (select_created t0 q d w Hq).
    rewrite fmap_cons in Hnd. apply NoDup_cons in Hnd as [Hnin Hnd].
    destruct (IH (set_timers (<[Timer_id t0 := t0]> (timers d)) (set_ChCreatedTimer q d))
                 w eq_refl Hnd)
      as (d2 & Hrun & Hq2 & Hc2 & Hi2 & Ho2 & He2 & Hin2 & Hout2).
    rewrite Hrun. exists d2. repeat split; try assumption.
    + intros t Hin. apply elem_of_cons in Hin as [->|Hin]; [|apply Hin2; assumption].
      rewrite Hout2 by assumption. apply lookup_insert_eq.
    + intros k Hk. rewrite fmap_cons in Hk. apply not_elem_of_cons in Hk as [Hne Hk].
      rewrite Hout2 by assumption. cbn. apply lookup_insert_ne. congruence.
Qed.

(** Serving the retirement case once for every id that waits. *)
Lemma drain_closing q : forall d w,
  ChClosingTimer d = q ->
  exists d2 tr,
    Start_loop (repeat EvClosing (length q)) (d, w) = Some (InLoop, (d2, w), tr) /\
    ChClosingTimer d2 = [] /\ ChCreatedTimer d2 = ChCreatedTimer d /\
    incrementID d2 = incrementID d /\ opts d2 = opts d /\ exit d2 = exit d /\
    (forall k, calls k tr = O) /\
    (forall k, k ∈ q -> timers d2 !! k = None) /\
    (forall k, k ∉ q -> timers d2 !! k = timers d !! k).
Proof.
  induction q as [|id q IH]; intros d w Hq.
  - cbn [length repeat Start_loop]. exists d, []. repeat split; try assumption.
    intros k Hin. inversion Hin.
  - cbn [length repeat]. rewrite Start_loop_cons. cbn [select_case]. rewrite Hq.
    destruct (IH (set_timers (delete id (timers d)) (set_ChClosingTimer q d)) w eq_refl)
      as (d2 & tr2 & Hrun & Hq2 & Hc2 & Hi2 & Ho2 & He2 & Hcalls & Hin2 & Hout2).
    rewrite Hrun. eexists d2, _. split; [reflexivity|].
    repeat split; try assumption.
    + intros k. rewrite calls_app, Hcalls. destruct (timers d !! id); reflexivity.
    + intros k Hin. destruct (decide (k ∈ q)) as [Hk|Hk]; [apply Hin2; assumption|].
      apply elem_of_cons in Hin as [->|Hin]; [|contradiction].
      rewrite Hout2 by assumption. cbn. apply lookup_delete_eq.
    + intros k Hk. apply not_elem_of_cons in Hk as [Hne Hk].
      rewrite Hout2 by assumption. cbn. apply lookup_delete_ne. congruence.
Qed.

(** X4: no admission is lost.  In a state a run of a fresh scheduler
    reaches, once the loop has served the admission case for every record
    that waits, each of them is in the set under its own id, every record
    that was in the set is still there unchanged, the admission channel is
    empty, and no callback has run. *)
Theorem X4_waiting_admissions_are_all_stored (o : Options) ops d0 w0 d w tr :
  newScheduler o = Ok d0 ->
  Z.of_nat (length ops) <= Int64.max_int ->
  run ops (d0, w0) = Some ((d, w), tr) ->
  exists d2,
    Start_loop (repeat EvCreated (length (ChCreatedTimer d))) (d, w)
      = Some (InLoop, (d2, w), []) /\
    ChCreatedTimer d2 = [] /\
    (forall t, t ∈ ChCreatedTimer d -> timers d2 !! Timer_id t = Some t) /\
    (forall k t, timers d !! k = Some t -> timers d2 !! k = Some t) /\
    (forall k, is_Some (timers d2 !! k) ->
       is_Some (timers d !! k) \/ k ∈ (Timer_id <$> ChCreatedTimer d)).
Proof.
  intros Hnew Hmax Hrun.
  destruct (Inv_fresh o d0 Hnew) as [HI0 Hz].
  destruct (Inv_run ops d0 w0 [] d w tr HI0 ltac:(lia) Hrun) as [HI _].
  simpl in HI.
  destruct (drain_created (ChCreatedTimer d) d w eq_refl (inv_queue_nodup _ _ HI))
    as (d2 & Hloop & Hq2 & _ & _ & _ & _ & Hin & Hout).
  exists d2. split; [exact Hloop|]. split; [exact Hq2|]. split; [exact Hin|]. split.
  - intros k t Hk. rewrite Hout; [exact Hk|].
    intros Hq. apply list_elem_of_fmap in Hq as (t1 & -> & Hq).
    destruct (inv_queue _ _ HI _ Hq) as [_ Hnone]. congruence.
  - intros k Hs. destruct (decide (k ∈ (Timer_id <$> ChCreatedTimer d))) as [Hq|Hq].
    + right; assumption.
    + left. rewrite <- Hout by assumption. assumption.
Qed.

End Draining.

(** ** The retirement channel *)

Section Retirement.
Context {W : Type}.
Implicit Types (d : @DefaultScheduler W) (c : @Config W) (w : W)
  (t a : @Timer W) (tr : list (@Obs W)) (order : list Z) (op : @Op W).

(** Rewriting a record without touching its id or its closed mark. *)
Lemma Ret_update d k t t' :
  Ret d -> timers d !! k = Some t ->
  Timer_id t' = Timer_id t ->
  (0 < Timer_closed t' <-> 0 < Timer_closed t) ->
  Ret (set_timers (<[k := t']> (timers d)) d).
Proof.
  intros [Hcap Hlen Hnd Hcl Hkeys Hq] Hk Hid Hc. constructor; cbn.
  - assumption.
  - assumption.
  - assumption.
  - intros k0. rewrite Hcl. destruct (decide (k0 = k)) as [->|Hne].
    + rewrite lookup_insert_eq. split.
      * intros (t0 & Ht0 & Hc0). exists t'. split; [reflexivity|].
        apply Hc. congruence.
      * intros (t0 & [= <-] & Hc0). exists t. split; [assumption|]. apply Hc; assumption.
    + rewrite lookup_insert_ne by congruence. reflexivity.
  - intros k0 t0. destruct (decide (k0 = k)) as [->|Hne].
    + rewrite lookup_insert_eq. intros [= <-]. rewrite Hid. apply Hkeys; assumption.
    + rewrite lookup_insert_ne by congruence. apply Hkeys.
  - assumption.
Qed.

Lemma stopTimer_Ret k t d :
  Ret d -> timers d !! k = Some t -> Ret (stopTimer k t d).2.
Proof.
  intros HR Hk. unfold stopTimer.
  destruct (0 <? Timer_closed t) eqn:Ecl; [exact HR|]. apply Z.ltb_ge in Ecl.
  destruct (chan_len _ _ <? _) eqn:Elen; cbn [snd].
  - destruct HR as [Hcap Hlen Hnd Hcl Hkeys Hq].
    apply Z.ltb_lt in Elen. unfold chan_len in Elen.
    assert (Hidk : Timer_id t = k) by (apply Hkeys; assumption).
    assert (Hnin : k ∉ ChClosingTimer d).
    { intros Hin. apply Hcl in Hin as (t0 & Ht0 & Hc0).
      assert (t0 = t) by congruence. subst t0. lia. }
    constructor; cbn; unfold chan_send.
    + assumption.
    + rewrite length_app. cbn. lia.
    + apply NoDup_app. split; [assumption|]. split.
      * intros x Hx Hx'. apply list_elem_of_singleton in Hx'. congruence.
      * apply NoDup_singleton.
    + intros k0. rewrite elem_of_app, list_elem_of_singleton, Hcl, Hidk.
      destruct (decide (k0 = k)) as [->|Hne].
      * rewrite lookup_insert_eq. split.
        -- intros _. exists (set_closed 1 t). split; [reflexivity|cbn; lia].
        -- intros _. right; reflexivity.
      * rewrite lookup_insert_ne by congruence. split.
        -- intros [H|H]; [assumption|contradiction].
        -- intros H; left; assumption.
    + intros k0 t0. destruct (decide (k0 = k)) as [->|Hne].
      * rewrite lookup_insert_eq. intros [= <-]. exact Hidk.
      * rewrite lookup_insert_ne by congruence. apply Hkeys.
    + assumption.
  - apply (Ret_update d k t (set_Counter 0 t)); try assumption; reflexivity.
Qed.

Lemma cron_visit_Ret now id t d w :
  Ret d -> timers d !! id = Some t -> Ret (cron_visit now id t (d, w)).1.1.
Proof.
  intros HR Hk. unfold cron_visit.
  destruct (Counter (Timer_opts t) =? 0).
  - destruct (chan_len _ _ <? _); cbn [fst]; [|exact HR].
    apply stopTimer_Ret; assumption.
  - destruct (Condition (Timer_opts t)) as [cond|] eqn:Ec.
    + destruct (cond now); [destruct (pexec _ _ _)|]; exact HR.
    + destruct (due now t); [|exact HR]. destruct (pexec _ _ _) as [w1 tr1]. cbn [fst].
      destruct (advance_fields t Ec) as (_ & _ & Hid & _ & Hcl & _).
      apply (Ret_update d id t (advance t)); try assumption. rewrite Hcl. reflexivity.
Qed.

Lemma Cron_range_Ret now order : forall d w,
  Ret d -> Ret (Cron_range now order (d, w)).1.1.
Proof.
  induction order as [|id rest IH]; intros d w HR; cbn [Cron_range fst]; [exact HR|].
  destruct (timers d !! id) as [t|] eqn:Hk; [|apply IH; assumption].
  pose proof (cron_visit_Ret now id t d w HR Hk) as HR1.
  destruct (cron_visit now id t (d, w)) as [[d1 w1] tr1]. cbn [fst] in HR1.
  pose proof (IH d1 w1 HR1) as HR2.
  destruct (Cron_range now rest (d1, w1)) as [[d2 w2] tr2]. exact HR2.
Qed.

(** Every step of a run keeps the retirement channel in order. *)
Lemma exec_Ret op d w d' w' tr0 tr :
  Inv d tr0 -> Ret d -> exec op (d, w) = Some ((d', w'), tr) -> Ret d'.
Proof.
  intros HI HR. destruct op as [now interval fn opt|id| |ev]; cbn [exec].
  - intros [= <- <- <-]. destruct HR as [Hcap Hlen Hnd Hcl Hkeys Hq].
    constructor; cbn -[Int64.wrap]; try assumption.
    unfold chan_send. intros t Hin. apply elem_of_app in Hin as [Hin|Hin].
    + apply Hq; assumption.
    + apply list_elem_of_singleton in Hin. subst t. cbn. lia.
  - intros [= <- <- <-]. unfold RemoveTimer.
    destruct (timers d !! id) as [t|] eqn:Hk; [|exact HR].
    apply stopTimer_Ret; assumption.
  - unfold Stop. destruct (exit d); [discriminate|]. intros [= <- <- <-].
    destruct HR; constructor; assumption.
  - destruct ev as [|now order| |]; cbn [select_case].
    + destruct (exit d); [|discriminate]. intros [= <- <- <-]. exact HR.
    + destruct (range_order order d); [|discriminate]. unfold Cron.
      pose proof (Cron_range_Ret now order d w HR) as HR1.
      destruct (Cron_range now order (d, w)) as [[d1 w1] tr1].
      intros [= <- <- <-]. exact HR1.
    + destruct (ChCreatedTimer d) as [|t q] eqn:Hq; [discriminate|].
      intros [= <- <- <-]. destruct HR as [Hcap Hlen Hnd Hcl Hkeys Hqc].
      assert (Hin : t ∈ ChCreatedTimer d) by (rewrite Hq; apply elem_of_cons; auto).
      destruct (inv_queue _ _ HI _ Hin) as [_ Hnone].
      constructor; cbn; try assumption.
      * intros k0. rewrite Hcl. destruct (decide (k0 = Timer_id t)) as [->|Hne].
        -- rewrite lookup_insert_eq, Hnone. split.
           ++ intros (t0 & Ht0 & _); discriminate.
           ++ intros (t0 & [= <-] & Hc0). specialize (Hqc _ Hin). lia.
        -- rewrite lookup_insert_ne by congruence. reflexivity.
      * intros k0 t0. destruct (decide (k0 = Timer_id t)) as [->|Hne].
        -- rewrite lookup_insert_eq. intros [= <-]. reflexivity.
        -- rewrite lookup_insert_ne by congruence. apply Hkeys.
      * intros t0 Hin0. apply Hqc. rewrite Hq. apply elem_of_cons; auto.
    + destruct (ChClosingTimer d) as [|id q] eqn:Hq; [discriminate|].
      intros [= <- <- <-]. destruct HR as [Hcap Hlen Hnd Hcl Hkeys Hqc].
      rewrite Hq in Hlen, Hnd. apply NoDup_cons in Hnd as [Hnin Hnd].
      constructor; cbn; try assumption.
      * cbn [length] in Hlen. lia.
      * intros k0. split.
        -- intros Hin. assert (Hne : k0 <> id) by congruence.
           rewrite lookup_delete_ne by congruence.
           apply Hcl. rewrite Hq. apply elem_of_cons; auto.
        -- intros (t0 & Ht0 & Hc0). apply lookup_delete_Some in Ht0 as [Hne Ht0].
           assert (Hin : k0 ∈ ChClosingTimer d) by (apply Hcl; eauto).
           rewrite Hq in Hin. apply elem_of_cons in Hin as [?|?]; [congruence|assumption].
      * intros k0 t0 Ht0. apply lookup_delete_Some in Ht0 as [_ Ht0]. eauto.
Qed.

Lemma Ret_fresh (o : Options) (d : @DefaultScheduler W) :
  newScheduler o = Ok d -> Ret d /\ opts d = o.
Proof.
  unfold newScheduler. destruct (timerBacklog o <? 0) eqn:E; [discriminate|].
  apply Z.ltb_ge in E. intros [= <-]. split; [|reflexivity]. constructor; cbn.
  - assumption.
  - assumption.
  - apply NoDup_nil_2.
  - intros k. split.
    + intros Hin; inversion Hin.
    + intros (t & Ht & _). rewrite lookup_empty in Ht. discriminate.
  - intros k t Ht. rewrite lookup_empty in Ht. discriminate.
  - intros t Hin. inversion Hin.
Qed.

(** Both invariants hold along every run. *)
Lemma reach_run ops : forall d w tr0 d' w' tr,
  Inv d tr0 -> Ret d ->
  incrementID d + Z.of_nat (length ops) <= Int64.max_int ->
  run ops (d, w) = Some ((d', w'), tr) ->
  Inv d' (tr0 ++ tr) /\ Ret d' /\ opts d' = opts d.
Proof.
  induction ops as [|op rest IH]; intros d w tr0 d' w' tr HI HR Hmax; cbn [run].
  - intros [= <- <- <-]. rewrite app_nil_r. auto.
  - destruct (exec op (d, w)) as [[[d1 w1] tr1]|] eqn:He; [|discriminate].
    destruct (run rest (d1, w1)) as [[[d2 w2] tr2]|] eqn:Hr; [|discriminate].
    intros [= <- <- <-]. cbn [length] in Hmax.
    pose proof (inv_counter _ _ HI) as H0.
    assert (Hshape : step_shape d d1 tr1).
    { eapply exec_shape; [exact H0| |exact He]. lia. }
    assert (Hinc : incrementID d1 <= incrementID d + 1).
    { destruct Hshape as [(Hi & _)|t _ Hi _ _ _|t q _ Hi _ _ _|id Hi _ _ _]; lia. }
    destruct (IH d1 w1 (tr0 ++ tr1) d2 w2 tr2) as (HI2 & HR2 & Ho2);
      [apply Inv_step with d; assumption|eapply exec_Ret; eassumption|lia|exact Hr|].
    rewrite <- app_assoc in HI2. split; [assumption|]. split; [assumption|].
    rewrite Ho2. eapply exec_opts; eassumption.
Qed.

End Retirement.

Section RetirementProperties.
Context {W : Type}.
Implicit Types (d : @DefaultScheduler W) (c : @Config W) (w : W)
  (t a : @Timer W) (tr : list (@Obs W)) (order : list Z) (op : @Op W).

(** X6: a cancellation that found room on the retirement channel takes
    effect when the loop serves the channel.  In a state a run of a fresh
    scheduler reaches, after a [RemoveTimer] that succeeded with a free
    slot, serving the retirement case for every id that waits removes the
    cancelled record, so that [RemoveTimer] then answers
    [ErrTimerNotFound]; it removes every record that is marked closed,
    keeps every record that is not, and runs no callback. *)
Theorem X6_cancelled_timer_leaves_when_served (o : Options) ops d0 w0 d w tr id d1 :
  newScheduler o = Ok d0 ->
  Z.of_nat (length ops) <= Int64.max_int ->
  run ops (d0, w0) = Some ((d, w), tr) ->
  RemoveTimer id d = (None, d1) ->
  chan_len (timerBacklog (opts d)) (ChClosingTimer d) < timerBacklog (opts d) ->
  exists d2 tr2,
    Start_loop (repeat EvClosing (length (ChClosingTimer d1))) (d1, w)
      = Some (InLoop, (d2, w), tr2) /\
    ChClosingTimer d2 = [] /\
    timers d2 !! id = None /\
    RemoveTimer id d2 = (Some ErrTimerNotFound, d2) /\
    (forall k, calls k tr2 = O) /\
    (forall k t, timers d1 !! k = Some t -> 0 < Timer_closed t -> timers d2 !! k = None) /\
    (forall k t, timers d1 !! k = Some t -> Timer_closed t <= 0 -> timers d2 !! k = Some t).
Proof.
  intros Hnew Hmax Hrun Hrm Hfree.
  destruct (Inv_fresh o d0 Hnew) as [HI0 Hz].
  destruct (Ret_fresh o d0 Hnew) as [HR0 Ho].
  destruct (reach_run ops d0 w0 [] d w tr HI0 HR0 ltac:(lia) Hrun) as (HI & HR & _).
  simpl in HI.
  assert (HR1 : Ret d1).
  { apply (exec_Ret (CallRemoveTimer id) d w d1 w tr []); try assumption.
    cbn [exec]. rewrite Hrm. reflexivity. }
  destruct (RemoveTimer_success _ _ _ Hrm) as (t & Hk & Hcl & Hd1).
  apply Z.ltb_lt in Hfree. rewrite Hfree in Hd1.
  assert (Hin : id ∈ ChClosingTimer d1).
  { apply (ret_closed _ HR1). exists (set_closed 1 t).
    subst d1. cbn. rewrite lookup_insert_eq. split; [reflexivity|cbn; lia]. }
  destruct (drain_closing (ChClosingTimer d1) d1 w eq_refl)
    as (d2 & tr2 & Hloop & Hq2 & _ & _ & _ & _ & Hcalls & Hgone & Hkept).
  exists d2, tr2. split; [exact Hloop|]. split; [exact Hq2|].
  assert (Hid2 : timers d2 !! id = None) by (apply Hgone; assumption).
  split; [exact Hid2|]. split; [unfold RemoveTimer; rewrite Hid2; reflexivity|].
  split; [exact Hcalls|]. split.
  - intros k t1 Hk1 Hc1. apply Hgone. apply (ret_closed _ HR1). eauto.
  - intros k t1 Hk1 Hc1. rewrite Hkept; [assumption|].
    intros Hq. apply (ret_closed _ HR1) in Hq as (t2 & Ht2 & Hc2).
    assert (t2 = t1) by congruence. subst t2. lia.
Qed.

(** With an empty retirement channel a step deletes nothing. *)
Lemma exec_no_retirement op d w d' w' tr :
  ChClosingTimer d = [] ->
  exec op (d, w) = Some ((d', w'), tr) ->
  (forall k, deletes k tr = O) /\
  (forall k, is_Some (timers d !! k) -> is_Some (timers d' !! k)).
Proof.
  intros Hq. destruct op as [now interval fn opt|id| |ev]; cbn [exec].
  - intros [= <- <- <-]. split; [reflexivity|]. intros k Hs; exact Hs.
  - intros [= <- <- <-]. split; [reflexivity|].
    destruct (RemoveTimer_quiet id d) as (_ & _ & _ & _ & Hev).
    intros k [t Hk]. specialize (Hev k). rewrite Hk in Hev.
    destruct Hev as (t' & Ht' & _). eauto.
  - unfold Stop. destruct (exit d); [discriminate|]. intros [= <- <- <-].
    split; [reflexivity|]. intros k Hs; exact Hs.
  - destruct ev as [|now order| |]; cbn [select_case].
    + destruct (exit d); [|discriminate]. intros [= <- <- <-].
      split; [reflexivity|]. intros k Hs; exact Hs.
    + destruct (range_order order d); [|discriminate]. unfold Cron.
      destruct (Cron_range now order (d, w)) as [[d1 w1] tr1] eqn:Hr.
      intros [= <- <- <-].
      destruct (Cron_range_frame _ _ _ _ _ _ _ Hr) as (_ & _ & _ & _ & _ & Hs & _ & Hd).
      split; [exact Hd|]. intros k Hk. apply Hs; assumption.
    + destruct (ChCreatedTimer d) as [|t q]; [discriminate|].
      intros [= <- <- <-]. split; [reflexivity|].
      intros k Hs. cbn. apply lookup_insert_is_Some.
      destruct (decide (Timer_id t = k)); [left; assumption|right; split; assumption].
    + rewrite Hq. discriminate.
Qed.

Lemma zero_backlog_run ops : forall d w tr0 d' w' tr,
  Inv d tr0 -> Ret d -> timerBacklog (opts d) = 0 ->
  incrementID d + Z.of_nat (length ops) <= Int64.max_int ->
  run ops (d, w) = Some ((d', w'), tr) ->
  (forall k, deletes k tr = O) /\
  (forall k, is_Some (timers d !! k) -> is_Some (timers d' !! k)) /\
  Ret d' /\ timerBacklog (opts d') = 0.
Proof.
  induction ops as [|op rest IH]; intros d w tr0 d' w' tr HI HR Hz Hmax; cbn [run].
  - intros [= <- <- <-]. split; [reflexivity|]. split; [intros k Hs; exact Hs|].
    split; assumption.
  - destruct (exec op (d, w)) as [[[d1 w1] tr1]|] eqn:He; [|discriminate].
    destruct (run rest (d1, w1)) as [[[d2 w2] tr2]|] eqn:Hr; [|discriminate].
    intros [= <- <- <-]. cbn [length] in Hmax.
    pose proof (inv_counter _ _ HI) as H0.
    assert (Hshape : step_shape d d1 tr1).
    { eapply exec_shape; [exact H0| |exact He]. lia. }
    assert (Hinc : incrementID d1 <= incrementID d + 1).
    { destruct Hshape as [(Hi & _)|t _ Hi _ _ _|t q _ Hi _ _ _|id Hi _ _ _]; lia. }
    assert (Hq : ChClosingTimer d = []).
    { pose proof (ret_len _ HR) as Hl. rewrite Hz in Hl.
      destruct (ChClosingTimer d); [reflexivity|cbn [length] in Hl; lia]. }
    destruct (exec_no_retirement _ _ _ _ _ _ Hq He) as [Hd1 Hs1].
    destruct (IH d1 w1 (tr0 ++ tr1) d2 w2 tr2) as (Hd2 & Hs2 & HR2 & Hz2);
      [apply Inv_step with d; assumption|eapply exec_Ret; eassumption
      |rewrite (exec_opts _ _ _ _ _ _ He); assumption|lia|exact Hr|].
    split; [intros k; rewrite deletes_app, Hd1, Hd2; reflexivity|].
    split; [intros k Hs; apply Hs2, Hs1; assumption|]. split; assumption.
Qed.

(** X7: a scheduler made with a backlog of 0 never lets a timer go.  Along
    every run nothing is ever sent on the retirement channel and no key is
    deleted: [RemoveTimer] only sets the counter to 0 and the scan finds no
    room, so every record that has entered the set stays in it, none is
    marked closed, and [RemoveTimer] never answers
    [ErrCloseClosedTimer]. *)
Theorem X7_zero_backlog_never_retires (o : Options) ops1 ops2 d0 w0 d1 w1 tr1 d2 w2 tr2 :
  newScheduler o = Ok d0 ->
  timerBacklog o = 0 ->
  Z.of_nat (length ops1) + Z.of_nat (length ops2) <= Int64.max_int ->
  run ops1 (d0, w0) = Some ((d1, w1), tr1) ->
  run ops2 (d1, w1) = Some ((d2, w2), tr2) ->
  ChClosingTimer d2 = [] /\
  (forall k, deletes k tr1 = O /\ deletes k tr2 = O) /\
  (forall k, is_Some (timers d1 !! k) -> is_Some (timers d2 !! k)) /\
  (forall k t, timers d2 !! k = Some t -> Timer_closed t <= 0) /\
  (forall id, (RemoveTimer id d2).1 <> Some ErrCloseClosedTimer).
Proof.
  intros Hnew Hz Hmax Hrun1 Hrun2.
  destruct (Inv_fresh o d0 Hnew) as [HI0 Hi0].
  destruct (Ret_fresh o d0 Hnew) as [HR0 Ho].
  assert (Hz0 : timerBacklog (opts d0) = 0) by (rewrite Ho; exact Hz).
  destruct (zero_backlog_run ops1 d0 w0 [] d1 w1 tr1 HI0 HR0 Hz0 ltac:(lia) Hrun1)
    as (Hd1 & _ & HR1 & Hz1).
  destruct (Inv_run ops1 d0 w0 [] d1 w1 tr1 HI0 ltac:(lia) Hrun1) as [HI1 Hinc1].
  destruct (zero_backlog_run ops2 d1 w1 ([] ++ tr1) d2 w2 tr2 HI1 HR1 Hz1 ltac:(lia) Hrun2)
    as (Hd2 & Hs2 & HR2 & Hz2).
  assert (Hq : ChClosingTimer d2 = []).
  { pose proof (ret_len _ HR2) as Hl. rewrite Hz2 in Hl.
    destruct (ChClosingTimer d2); [reflexivity|cbn [length] in Hl; lia]. }
  assert (Hopen : forall k t, timers d2 !! k = Some t -> Timer_closed t <= 0).
  { intros k t Hk. destruct (Z_lt_le_dec 0 (Timer_closed t)) as [Hc|Hc]; [|exact Hc].
    assert (Hin : k ∈ ChClosingTimer d2) by (apply (ret_closed _ HR2); eauto).
    rewrite Hq in Hin. inversion Hin. }
  split; [exact Hq|]. split; [intros k; split; [apply Hd1|apply Hd2]|].
  split; [exact Hs2|]. split; [exact Hopen|].
  intros id. unfold RemoveTimer, stopTimer.
  destruct (timers d2 !! id) as [t|] eqn:Hk; [|discriminate].
  specialize (Hopen _ _ Hk). apply Z.ltb_ge in Hopen. rewrite Hopen.
  destruct (chan_len _ _ <? _); discriminate.
Qed.

End RetirementProperties.

(** ** More on one scan *)

Section ScanMore.
Context {W : Type}.
Implicit Types (d : @DefaultScheduler W) (c : @Config W) (w : W)
  (t a : @Timer W) (tr : list (@Obs W)) (order : list Z) (op : @Op W).

(** The record a scan leaves at the key of a record whose counter is not
    0. *)
Lemma Cron_range_nonzero now order d w d' w' tr k t :
  NoDup order -> timers d !! k = Some t -> Counter (Timer_opts t) <> 0 ->
  Cron_range now order (d, w) = ((d', w'), tr) ->
  timers d' !! k =
    Some (if decide (k ∈ order)
          then if fires now t
               then match Condition (Timer_opts t) with
                    | Some _ => t
                    | None => advance t
                    end
               else t
          else t).
Proof.
  intros Hnd Hk Hc Hr. destruct (decide (k ∈ order)) as [Hin|Hnin].
  - destruct (Cron_range_visit _ _ _ _ _ _ _ _ _ Hnd Hin Hk Hr)
      as (d0 & w0 & d1 & w1 & tr1 & l & Hk0 & _ & Hv & Heq & _).
    destruct (cron_visit_self _ _ _ _ _ _ _ _ Hk0 Hv) as (t' & Ht' & Hcase).
    apply Z.eqb_neq in Hc. rewrite Hc in Hcase. rewrite Heq, Ht'. f_equal.
    destruct (fires now t); [|assumption].
    destruct (Condition (Timer_opts t)); assumption.
  - destruct (Cron_range_frame _ _ _ _ _ _ _ Hr) as (_ & _ & _ & _ & Hout & _).
    rewrite Hout by assumption. assumption.
Qed.

(** X8: what a scan does to the timers does not depend on the order in
    which [Range] visits the keys.  Two visiting orders of the same keys
    enter the callback of every timer the same number of times, and leave
    the same record at the key of every timer whose counter is not 0. *)
Theorem X8_scan_independent_of_order now order1 order2 d w1 w2 :
  NoDup order1 -> NoDup order2 ->
  (forall k, k ∈ order1 <-> k ∈ order2) ->
  (forall k, calls k (Cron now order1 (d, w1)).2 = calls k (Cron now order2 (d, w2)).2) /\
  (forall k t, timers d !! k = Some t -> Counter (Timer_opts t) <> 0 ->
     timers (Cron now order1 (d, w1)).1.1 !! k
       = timers (Cron now order2 (d, w2)).1.1 !! k).
Proof.
  intros Hnd1 Hnd2 Hsame. unfold Cron.
  destruct (Cron_range now order1 (d, w1)) as [[d1 w1'] tr1] eqn:Hr1.
  destruct (Cron_range now order2 (d, w2)) as [[d2 w2'] tr2] eqn:Hr2.
  cbn [fst snd]. split.
  - intros k.
    rewrite (Cron_range_calls _ _ _ _ _ _ _ k Hnd1 Hr1),
            (Cron_range_calls _ _ _ _ _ _ _ k Hnd2 Hr2).
    destruct (decide (k ∈ order1)) as [H1|H1]; destruct (decide (k ∈ order2)) as [H2|H2];
      try reflexivity; exfalso; [apply H2, Hsame, H1|apply H1, Hsame, H2].
  - intros k t Hk Hc.
    rewrite (Cron_range_nonzero _ _ _ _ _ _ _ _ _ Hnd1 Hk Hc Hr1),
            (Cron_range_nonzero _ _ _ _ _ _ _ _ _ Hnd2 Hk Hc Hr2).
    destruct (decide (k ∈ order1)) as [H1|H1]; destruct (decide (k ∈ order2)) as [H2|H2];
      try reflexivity; exfalso; [apply H2, Hsame, H1|apply H1, Hsame, H2].
Qed.

(** X9: a tick at which nothing is due changes nothing.  When no visited
    record has counter 0 and none fires, the scan leaves the scheduler and
    the user's state as they are and neither calls nor logs. *)
Theorem X9_idle_scan_changes_nothing now order d w :
  idle_at now order d = true ->
  Cron now order (d, w) = ((d, w), []).
Proof.
  unfold Cron, idle_at.
  induction order as [|id rest IH]; intros Hidle; cbn [Cron_range fst].
  - reflexivity.
  - cbn [forallb] in Hidle. apply andb_true_iff in Hidle as [Hid Hrest].
    specialize (IH Hrest).
    destruct (timers d !! id) as [t|] eqn:Hk; [|exact IH].
    apply andb_true_iff in Hid as [Hc Hf].
    apply negb_true_iff in Hc, Hf.
    assert (Hv : cron_visit now id t (d, w) = ((d, w), [])).
    { unfold cron_visit. unfold fires in Hf.
      rewrite Hc in *. cbn [negb andb] in Hf.
      destruct (Condition (Timer_opts t)) as [cond|]; rewrite Hf; reflexivity. }
    rewrite Hv, IH. reflexivity.
Qed.

(** X10: a negative counter never runs out, whether it is [LoopForever] or
    any other negative number.  A scan leaves the counter and the closed
    mark of such a record as they are, and enters its callback whenever it
    visits it and the condition holds or, without a condition, the firing
    time has come. *)
Theorem X10_negative_counter_is_never_used_up now order d w k t :
  NoDup order -> timers d !! k = Some t -> Counter (Timer_opts t) < 0 ->
  (exists t', timers (Cron now order (d, w)).1.1 !! k = Some t' /\
     Counter (Timer_opts t') = Counter (Timer_opts t) /\
     Timer_closed t' = Timer_closed t /\
     Condition (Timer_opts t') = Condition (Timer_opts t)) /\
  calls k (Cron now order (d, w)).2 =
    if decide (k ∈ order)
    then match Condition (Timer_opts t) with
         | Some cond => if cond now then 1%nat else O
         | None => if due now t then 1%nat else O
         end
    else O.
Proof.
  intros Hnd Hk Hneg. unfold Cron.
  destruct (Cron_range now order (d, w)) as [[d' w'] tr] eqn:Hr. cbn [fst snd].
  assert (Hc : Counter (Timer_opts t) <> 0) by lia.
  split.
  - rewrite (Cron_range_nonzero _ _ _ _ _ _ _ _ _ Hnd Hk Hc Hr).
    eexists; split; [reflexivity|].
    destruct (decide (k ∈ order)); [|auto].
    destruct (fires now t); [|auto].
    destruct (Condition (Timer_opts t)) as [cond|] eqn:Ec; [rewrite Ec; auto|].
    destruct (advance_fields t Ec) as (_ & Hcnt & _ & _ & Hcl & _ & _ & Hcd).
    rewrite Hcnt, Hcl, Hcd. rewrite decide_False by lia. auto.
  - rewrite (Cron_range_calls _ _ _ _ _ _ _ k Hnd Hr), Hk.
    destruct (decide (k ∈ order)); [|reflexivity].
    unfold fires. apply Z.eqb_neq in Hc. rewrite Hc. cbn [negb andb].
    destruct (Condition (Timer_opts t)); reflexivity.
Qed.

(** X11: a late timer catches up one firing per scan and skips none.  When
    an interval timer is behind by at least one more interval
    ([createAt + elapse + interval <= now], the sums within [int64]), the
    scan enters its callback once and leaves it due: it is entered again by
    every later visit at a time not before [now], as long as its counter is
    not 0.  When it is behind by less than one interval, the scan leaves it
    not due at [now]. *)
Theorem X11_late_timer_catches_up_one_per_scan now order d w k t :
  NoDup order -> k ∈ order -> timers d !! k = Some t ->
  Condition (Timer_opts t) = None -> Counter (Timer_opts t) <> 0 ->
  Int64.in_range (Timer_createAt t + Timer_elapse t) ->
  Int64.in_range (Timer_elapse t + Interval (Timer_opts t)) ->
  Int64.in_range (Timer_createAt t + Timer_elapse t + Interval (Timer_opts t)) ->
  Timer_createAt t + Timer_elapse t <= UnixNano now ->
  calls k (Cron now order (d, w)).2 = 1%nat /\
  exists t', timers (Cron now order (d, w)).1.1 !! k = Some t' /\
    Timer_elapse t' = Timer_elapse t + Interval (Timer_opts t) /\
    (Timer_createAt t + Timer_elapse t + Interval (Timer_opts t) <= UnixNano now ->
     forall now', UnixNano now <= UnixNano now' -> due now' t' = true) /\
    (UnixNano now < Timer_createAt t + Timer_elapse t + Interval (Timer_opts t) ->
     due now t' = false).
Proof.
  intros Hnd Hin Hk Hcond Hc Hr1 Hr2 Hr3 Hlate. unfold Cron.
  destruct (Cron_range now order (d, w)) as [[d' w'] tr] eqn:Hr. cbn [fst snd].
  assert (Hdue : due now t = true).
  { unfold due. rewrite (wrap_id _ Hr1). apply Z.leb_le; assumption. }
  assert (Hf : fires now t = true).
  { unfold fires. rewrite Hcond, Hdue. apply andb_true_iff; split; [|reflexivity].
    apply negb_true_iff, Z.eqb_neq; assumption. }
  split.
  - rewrite (Cron_range_calls _ _ _ _ _ _ _ k Hnd Hr).
    rewrite decide_True by assumption. rewrite Hk, Hf. reflexivity.
  - rewrite (Cron_range_nonzero _ _ _ _ _ _ _ _ _ Hnd Hk Hc Hr).
    rewrite decide_True by assumption. rewrite Hf, Hcond.
    exists (advance t). split; [reflexivity|].
    destruct (advance_fields t Hcond) as (He & _ & _ & Hca & _).
    rewrite (wrap_id _ Hr2) in He. split; [exact He|].
    assert (Hsum : Timer_createAt (advance t) + Timer_elapse (advance t)
                   = Timer_createAt t + Timer_elapse t + Interval (Timer_opts t))
      by (rewrite Hca, He; lia).
    unfold due. rewrite Hsum, (wrap_id _ Hr3). split.
    + intros Hmore now' Hlater. apply Z.leb_le. lia.
    + intros Hless. apply Z.leb_gt. assumption.
Qed.

End ScanMore.

(** ** The exit signal, and the shape of reachable states *)

Section Reachable.
Context {W : Type}.
Implicit Types (d : @DefaultScheduler W) (c : @Config W) (w : W)
  (t a : @Timer W) (tr : list (@Obs W)) (order : list Z) (op : @Op W).

Lemma exec_exit op d w d' w' tr :
  exec op (d, w) = Some ((d', w'), tr) ->
  (stops [op] = O -> exit d' = exit d) /\
  (stops [op] <> O -> exit d = false /\ exit d' = true).
Proof.
  destruct op as [now interval fn opt|id| |ev]; cbn [exec stops].
  - intros [= <- <- <-]. split; [intros _; reflexivity|intros H; contradiction].
  - intros [= <- <- <-]. split; [intros _; apply RemoveTimer_frame|intros H; contradiction].
  - unfold Stop. destruct (exit d) eqn:E; [discriminate|]. intros [= <- <- <-].
    split; [discriminate|]. intros _. split; reflexivity.
  - intros He. split; [|intros H; contradiction]. intros _.
    destruct ev as [|now order| |]; cbn [select_case] in He.
    + destruct (exit d) eqn:E; [|discriminate]. injection He as <- <- <-. exact E.
    + destruct (range_order order d); [|discriminate]. unfold Cron in He.
      destruct (Cron_range now order (d, w)) as [[d1 w1] tr1] eqn:Hr.
      injection He as <- <- <-. apply (Cron_range_frame _ _ _ _ _ _ _ Hr).
    + destruct (ChCreatedTimer d) as [|t q]; [discriminate|].
      injection He as <- <- <-. reflexivity.
    + destruct (ChClosingTimer d) as [|id q]; [discriminate|].
      injection He as <- <- <-. reflexivity.
Qed.

Lemma exit_run ops : forall d w d' w' tr,
  run ops (d, w) = Some ((d', w'), tr) ->
  (stops ops <= 1)%nat /\
  (stops ops = O -> exit d' = exit d) /\
  (stops ops <> O -> exit d = false /\ exit d' = true).
Proof.
  induction ops as [|op rest IH]; intros d w d' w' tr; cbn [run].
  - intros [= <- <- <-]. cbn. split; [lia|].
    split; [intros _; reflexivity|intros H; contradiction].
  - destruct (exec op (d, w)) as [[[d1 w1] tr1]|] eqn:He; [|discriminate].
    destruct (run rest (d1, w1)) as [[[d2 w2] tr2]|] eqn:Hr; [|discriminate].
    intros [= <- <- <-].
    destruct (exec_exit _ _ _ _ _ _ He) as [Hsame Hstop].
    destruct (IH _ _ _ _ _ Hr) as (Hle & Hsame2 & Hstop2).
    assert (Hsum : stops (op :: rest) = (stops [op] + stops rest)%nat)
      by (destruct op; reflexivity).
    rewrite Hsum. destruct (stops [op]) as [|n] eqn:E1.
    + specialize (Hsame eq_refl). cbn. split; [assumption|]. split.
      * intros Hz. rewrite Hsame2 by assumption. assumption.
      * intros Hnz. destruct (Hstop2 Hnz) as [H1 H2]. split; congruence.
    + destruct (Hstop ltac:(discriminate)) as [H1 H2].
      assert (Hn : n = O) by (destruct op; cbn in E1; lia). subst n.
      destruct (stops rest) as [|m] eqn:E2.
      * split; [lia|]. split; [discriminate|]. intros _.
        split; [assumption|]. rewrite Hsame2 by reflexivity. assumption.
      * exfalso. destruct (Hstop2 ltac:(discriminate)) as [H3 _]. congruence.
Qed.

(** X12: the exit signal is fired by [Stop], once, and nothing resets it.
    A run of a fresh scheduler contains at most one [Stop]; the exit
    channel is closed in the state it reaches exactly when it contains one,
    and then the exit case of the loop is ready and a further [Stop]
    panics; before that the exit case is never ready. *)
Theorem X12_exit_fired_once_by_Stop (o : Options) ops d0 w0 d w tr :
  newScheduler o = Ok d0 ->
  run ops (d0, w0) = Some ((d, w), tr) ->
  (stops ops <= 1)%nat /\
  (stops ops = O ->
   exit d = false /\ select_case EvExit (d, w) = None) /\
  (stops ops = 1%nat ->
   exit d = true /\ select_case EvExit (d, w) = Some ((d, w), [], Break) /\
   Stop d = Panic close_closed /\ exec CallStop (d, w) = None).
Proof.
  intros Hnew Hrun.
  assert (He0 : exit d0 = false).
  { unfold newScheduler in Hnew. destruct (timerBacklog o <? 0); [discriminate|].
    injection Hnew as <-. reflexivity. }
  destruct (exit_run ops d0 w0 d w tr Hrun) as (Hle & Hsame & Hstop).
  split; [exact Hle|]. split.
  - intros Hz. assert (He : exit d = false) by (rewrite Hsame by assumption; exact He0).
    split; [exact He|]. cbn [select_case]. rewrite He. reflexivity.
  - intros H1. destruct (Hstop ltac:(lia)) as [_ He].
    split; [exact He|]. cbn [select_case exec]. unfold Stop. rewrite He. auto.
Qed.

(** X13: the shape of every state a run of a fresh scheduler reaches.
    Every record of the set sits under its own id; the ids in the set and
    on the admission channel are positive and at most the id counter; the
    records that wait for admission have pairwise different ids, are not
    marked closed, and none of their ids is a key of the set yet; and a
    callback has been entered only for ids that were handed out. *)
Theorem X13_reachable_states_are_well_formed (o : Options) ops d0 w0 d w tr :
  newScheduler o = Ok d0 ->
  Z.of_nat (length ops) <= Int64.max_int ->
  run ops (d0, w0) = Some ((d, w), tr) ->
  (forall k t, timers d !! k = Some t -> Timer_id t = k /\ 1 <= k <= incrementID d) /\
  (forall t, t ∈ ChCreatedTimer d ->
     1 <= Timer_id t <= incrementID d /\ timers d !! Timer_id t = None /\
     Timer_closed t <= 0) /\
  NoDup (Timer_id <$> ChCreatedTimer d) /\
  (forall k, calls k tr <> O -> admissions k tr = 1%nat).
Proof.
  intros Hnew Hmax Hrun.
  destruct (Inv_fresh o d0 Hnew) as [HI0 Hz].
  destruct (Ret_fresh o d0 Hnew) as [HR0 Ho].
  destruct (reach_run ops d0 w0 [] d w tr HI0 HR0 ltac:(lia) Hrun) as (HI & HR & _).
  simpl in HI.
  destruct (ids_run ops d0 w0 [] d w tr) as [Hi Ha];
    [lia|intros k; rewrite Hz; cbn; case_decide; [lia|reflexivity]|lia|exact Hrun|].
  cbn in Ha.
  split; [apply (inv_keys _ _ HI)|]. split.
  - intros t Hin. destruct (inv_queue _ _ HI _ Hin) as [Hb Hn].
    split; [exact Hb|]. split; [exact Hn|]. apply (ret_queue _ HR); assumption.
  - split; [apply (inv_queue_nodup _ _ HI)|].
    intros k Hc. rewrite Ha. rewrite decide_True; [reflexivity|].
    apply (inv_called _ _ HI); assumption.
Qed.

End Reachable.

(** ** The first firing, along runs *)

Section FirstFiringRuns.
Context {W : Type}.
Implicit Types (d : @DefaultScheduler W) (c : @Config W) (w : W)
  (t a : @Timer W) (tr : list (@Obs W)) (order : list Z) (op : @Op W).

Lemma RemoveTimer_cases id d :
  (RemoveTimer id d).2 = d \/
  exists t t', timers d !! id = Some t /\
    (t' = set_closed 1 t \/ t' = set_Counter 0 t) /\
    timers (RemoveTimer id d).2 = <[id := t']> (timers d) /\
    ChCreatedTimer (RemoveTimer id d).2 = ChCreatedTimer d.
Proof.
  unfold RemoveTimer, stopTimer. destruct (timers d !! id) as [t|]; [|left; reflexivity].
  destruct (0 <? Timer_closed t); [left; reflexivity|].
  destruct (chan_len _ _ <? _); right; exists t; eexists; cbn; eauto.
Qed.

Lemma tracked_subset k cr iv d d' :
  (forall t, live d' t -> live d t) -> tracked k cr iv d -> tracked k cr iv d'.
Proof. intros Hsub Ht t Hl. apply Ht, Hsub; assumption. Qed.

(** A step keeps the records of the id it tracks timely, and a tick whose
    scan enters the callback of that id comes no earlier than one interval
    after the creation. *)
Lemma exec_tracked op d w d1 w1 tr0 tr1 k cr iv :
  Inv d tr0 -> tracked k cr iv d -> k <= incrementID d ->
  incrementID d + 1 <= Int64.max_int ->
  ticks_fit iv [op] = true ->
  exec op (d, w) = Some ((d1, w1), tr1) ->
  tracked k cr iv d1 /\
  (forall now order, op = LoopSelect (EvTick now order) ->
     calls k tr1 <> O -> cr + iv <= UnixNano now).
Proof.
  intros HI Ht Hk Hmax Hfit.
  pose proof (inv_counter _ _ HI) as H0.
  destruct op as [now interval fn opt|id| |ev]; cbn [exec].
  - assert (Hw : Int64.wrap (incrementID d + 1) = incrementID d + 1).
    { apply wrap_id. unfold Int64.in_range, Int64.min_int, Int64.max_int in *. lia. }
    unfold NewTimer. rewrite Hw. intros [= <- <- <-]. split; [|discriminate].
    intros t [[j Hj]|Hin] Hid.
    + apply Ht; [left; exists j; exact Hj|assumption].
    + cbn in Hin. unfold chan_send in Hin. apply elem_of_app in Hin as [Hin|Hin].
      * apply Ht; [right; assumption|assumption].
      * apply list_elem_of_singleton in Hin. subst t. cbn in Hid. lia.
  - intros [= <- <- <-]. split; [|discriminate].
    destruct (RemoveTimer_cases id d) as [->|(t0 & t0' & Hk0 & Hcase & Htm & Hq)];
      [assumption|].
    intros t [[j Hj]|Hin] Hid.
    + rewrite Htm in Hj. destruct (decide (j = id)) as [->|Hne].
      * rewrite lookup_insert_eq in Hj. injection Hj as <-.
        assert (Hid0 : Timer_id t0 = k) by (destruct Hcase as [-> | ->]; exact Hid).
        destruct (Ht t0 ltac:(left; eauto) Hid0) as (Hty & Hcr & Hiv).
        destruct Hcase as [-> | ->]; repeat split; try assumption; apply Hty.
      * rewrite lookup_insert_ne in Hj by congruence.
        apply Ht; [left; eauto|assumption].
    + rewrite Hq in Hin. apply Ht; [right; assumption|assumption].
  - unfold Stop. destruct (exit d); [discriminate|]. intros [= <- <- <-].
    split; [exact Ht|discriminate].
  - destruct ev as [|now order| |]; cbn [select_case].
    + destruct (exit d); [|discriminate]. intros [= <- <- <-].
      split; [exact Ht|discriminate].
    + destruct (range_order order d) eqn:Hro; [|discriminate].
      apply andb_true_iff in Hro as [Hnd _]. apply bool_decide_eq_true in Hnd.
      unfold ticks_fit in Hfit. cbn in Hfit. apply andb_true_iff in Hfit as [Hfit _].
      apply Z.leb_le in Hfit.
      pose proof (fun t0 Hk0 Hty Hb => timely_scan now order d w k t0 Hnd Hk0 Hty Hb) as Hts.
      unfold Cron in *.
      destruct (Cron_range now order (d, w)) as [[d2 w2] tr2] eqn:Hr. cbn [fst snd] in Hts.
      intros [= <- <- <-].
      destruct (Cron_range_frame _ _ _ _ _ _ _ Hr) as (_ & _ & Hq & _).
      pose proof (Cron_range_evolves _ _ _ _ _ _ _ k Hnd Hr) as Hevk.
      split.
      * intros t [[j Hj]|Hin] Hid.
        -- pose proof (Cron_range_evolves _ _ _ _ _ _ _ j Hnd Hr) as Hev.
           destruct (timers d !! j) as [t0|] eqn:Ej; [|destruct Hev; congruence].
           destruct Hev as (t' & Ht' & (Heid & _)).
           assert (t' = t) by congruence. subst t'.
           destruct (inv_keys _ _ HI _ _ Ej) as [Hid0 _].
           assert (Hjk : j = k) by congruence. clear Hid0. subst j.
           destruct (Ht t0 ltac:(left; eauto) ltac:(congruence)) as (Hty & Hcr & Hiv).
           destruct (Hts t0 Ej Hty ltac:(rewrite Hiv; exact Hfit))
             as (_ & t'' & Ht'' & Hcr' & Hiv' & Hty').
           assert (t'' = t) by congruence. subst t''.
           split; [assumption|]. split; congruence.
        -- rewrite Hq in Hin. apply Ht; [right; assumption|assumption].
      * intros now' order' [= <- <-] Hc.
        destruct (timers d !! k) as [t0|] eqn:Ek; [|destruct Hevk; contradiction].
        destruct (inv_keys _ _ HI _ _ Ek) as [Hid0 _].
        destruct (Ht t0 ltac:(left; eauto) Hid0) as (Hty & Hcr & Hiv).
        destruct (Hts t0 eq_refl Hty ltac:(rewrite Hiv; exact Hfit)) as (Hearly & _).
        specialize (Hearly Hc). lia.
    + destruct (ChCreatedTimer d) as [|t q] eqn:Hq; [discriminate|].
      intros [= <- <- <-]. split; [|discriminate].
      apply (tracked_subset k cr iv d); [|exact Ht].
      intros t0 [[j Hj]|Hin]; cbn in *.
      * destruct (decide (j = Timer_id t)) as [->|Hne].
        -- rewrite lookup_insert_eq in Hj. injection Hj as <-.
           right. rewrite Hq. apply elem_of_cons; auto.
        -- rewrite lookup_insert_ne in Hj by congruence. left; eauto.
      * right. rewrite Hq. apply elem_of_cons; auto.
    + destruct (ChClosingTimer d) as [|id q] eqn:Hq; [discriminate|].
      intros [= <- <- <-]. split; [|discriminate].
      apply (tracked_subset k cr iv d); [|exact Ht].
      intros t0 [[j Hj]|Hin]; cbn in *.
      * apply lookup_delete_Some in Hj as [_ Hj]. left; eauto.
      * right; assumption.
Qed.

Lemma ticks_fit_cons iv op (rest : list (@Op W)) :
  ticks_fit iv (op :: rest) = ticks_fit iv [op] && ticks_fit iv rest.
Proof.
  unfold ticks_fit. destruct op as [| | |[]]; cbn; try reflexivity.
  rewrite andb_true_r. reflexivity.
Qed.

Lemma tracked_run k cr iv ops : forall d w tr0 d' w' tr,
  Inv d tr0 -> tracked k cr iv d -> k <= incrementID d ->
  incrementID d + Z.of_nat (length ops) <= Int64.max_int ->
  ticks_fit iv ops = true ->
  run ops (d, w) = Some ((d', w'), tr) ->
  Forall (fun now => cr + iv <= UnixNano now) (call_times k ops (d, w)).
Proof.
  induction ops as [|op rest IH]; intros d w tr0 d' w' tr HI Ht Hk Hmax Hfit;
    cbn [run call_times].
  - intros _. constructor.
  - destruct (exec op (d, w)) as [[[d1 w1] tr1]|] eqn:He; [|discriminate].
    destruct (run rest (d1, w1)) as [[[d2 w2] tr2]|] eqn:Hr; [|discriminate].
    intros _. cbn [length] in Hmax.
    rewrite ticks_fit_cons in Hfit. apply andb_true_iff in Hfit as [Hfit1 Hfit2].
    pose proof (inv_counter _ _ HI) as H0.
    assert (Hshape : step_shape d d1 tr1).
    { eapply exec_shape; [exact H0| |exact He]. lia. }
    assert (Hinc : incrementID d <= incrementID d1 <= incrementID d + 1).
    { destruct Hshape as [(Hi & _)|t _ Hi _ _ _|t q _ Hi _ _ _|id Hi _ _ _]; lia. }
    destruct (exec_tracked op d w d1 w1 tr0 tr1 k cr iv HI Ht Hk ltac:(lia) Hfit1 He)
      as [Ht1 Hcall].
    assert (Hrest : Forall (fun now => cr + iv <= UnixNano now)
                      (call_times k rest (d1, w1))).
    { apply (IH d1 w1 (tr0 ++ tr1) d2 w2 tr2); try assumption; try lia.
      apply Inv_step with d; assumption. }
    destruct op as [| | |[|now order| |]]; try exact Hrest.
    case_decide; [exact Hrest|]. constructor; [|exact Hrest].
    apply (Hcall now order eq_refl). assumption.
Qed.

(** X14: no early firing, as long as the additions fit in [int64].  For a
    [NewTimer] on a state a run of a fresh scheduler reaches, whose record
    is an interval timer created at a time [now >= 0] with a positive
    interval and [now + interval] within [int64], the callback has not been
    entered before the call, and along every continuation all of whose
    ticks leave room for one more interval it is entered only by scans at
    times not before [now] plus the interval. *)
Theorem X14_no_firing_before_one_interval (o : Options) ops1 ops2 d0 w0 d w tr
    (now : Time) (interval : Z) (fn : option (@Func W)) (opt : list (@TimerOption W))
    d2 w2 tr2 :
  let id := (NewTimer now interval fn opt d).1 in
  let d1 := (NewTimer now interval fn opt d).2 in
  let a := new_record id (UnixNano now) interval fn opt in
  newScheduler o = Ok d0 ->
  Z.of_nat (length ops1) + 1 + Z.of_nat (length ops2) <= Int64.max_int ->
  run ops1 (d0, w0) = Some ((d, w), tr) ->
  timely a ->
  ticks_fit (Interval (Timer_opts a)) ops2 = true ->
  run ops2 (d1, w) = Some ((d2, w2), tr2) ->
  calls id tr = O /\
  Forall (fun n => UnixNano now + Interval (Timer_opts a) <= UnixNano n)
         (call_times id ops2 (d1, w)).
Proof.
  intros id d1 a Hnew Hmax Hrun1 Hty Hfit Hrun2.
  destruct (Inv_fresh o d0 Hnew) as [HI0 Hz].
  destruct (Inv_run ops1 d0 w0 [] d w tr HI0 ltac:(lia) Hrun1) as [HI Hinc].
  simpl in HI. pose proof (inv_counter _ _ HI) as H0.
  assert (Hid : id = incrementID d + 1).
  { subst id. cbn. apply wrap_id.
    unfold Int64.in_range, Int64.min_int, Int64.max_int in *. lia. }
  assert (He : exec (CallNewTimer now interval fn opt) (d, w)
               = Some ((d1, w), [ObsAdmit a])) by reflexivity.
  assert (HI1 : Inv d1 (tr ++ [ObsAdmit a])).
  { apply Inv_step with d; [assumption|].
    eapply exec_shape; [exact H0| |exact He]. lia. }
  assert (Hi1 : incrementID d1 = id) by reflexivity.
  assert (Hq1 : ChCreatedTimer d1 = ChCreatedTimer d ++ [a]) by reflexivity.
  assert (Ht1 : timers d1 = timers d) by reflexivity.
  split.
  - destruct (calls id tr) eqn:E; [reflexivity|].
    assert (1 <= id <= incrementID d) by (apply (inv_called _ _ HI); rewrite E; discriminate).
    lia.
  - apply (tracked_run id (UnixNano now) (Interval (Timer_opts a)) ops2
             d1 w (tr ++ [ObsAdmit a]) d2 w2 tr2); try assumption.
    + intros t [[j Hj]|Hin] Hidt.
      * rewrite Ht1 in Hj. destruct (inv_keys _ _ HI _ _ Hj). lia.
      * rewrite Hq1 in Hin. apply elem_of_app in Hin as [Hin|Hin].
        -- destruct (inv_queue _ _ HI _ Hin). lia.
        -- apply list_elem_of_singleton in Hin. subst t.
           split; [assumption|]. split; reflexivity.
    + rewrite Hi1. lia.
    + rewrite Hi1. lia.
Qed.

End FirstFiringRuns.

(** ** The further properties on concrete runs *)

Lemma X1_ids_are_consecutive_witness :
  @newScheduler nat ExRun.o1 = Ok (ExRun.start ExRun.o1) /\
  Z.of_nat (length ExRun.retirement_full) < Int64.max_int /\
  run ExRun.retirement_full (ExRun.start ExRun.o1, O)
    = Some ((ExRun.final_d ExRun.o1 ExRun.retirement_full,
             ExRun.final_w ExRun.o1 ExRun.retirement_full),
            ExRun.final_tr ExRun.o1 ExRun.retirement_full) /\
  incrementID (ExRun.final_d ExRun.o1 ExRun.retirement_full)
    = Z.of_nat (news ExRun.retirement_full).
Proof.
  split; [reflexivity|]. split; [vm_compute; reflexivity|].
  split; [vm_compute; reflexivity|].
  apply (X1_ids_are_consecutive ExRun.o1 ExRun.retirement_full
           (ExRun.start ExRun.o1) O _ (ExRun.final_w ExRun.o1 ExRun.retirement_full)
           (ExRun.final_tr ExRun.o1 ExRun.retirement_full));
    [reflexivity|vm_compute; reflexivity|vm_compute; reflexivity].
Defined.

Lemma X2_removed_timer_stays_removed_witness :
  let c1 := (ExRun.final_d ExRun.o2 ExRun.single_shot,
             ExRun.final_w ExRun.o2 ExRun.single_shot) in
  @newScheduler nat ExRun.o2 = Ok (ExRun.start ExRun.o2) /\
  Z.of_nat (length ExRun.single_shot) + Z.of_nat (length ExMore.after_single_shot)
    <= Int64.max_int /\
  run ExRun.single_shot (ExRun.start ExRun.o2, O)
    = Some (c1, ExRun.final_tr ExRun.o2 ExRun.single_shot) /\
  deletes 1 (ExRun.final_tr ExRun.o2 ExRun.single_shot) <> O /\
  run ExMore.after_single_shot c1
    = Some ((ExMore.res_d c1 ExMore.after_single_shot,
             ExMore.res_w c1 ExMore.after_single_shot),
            ExMore.res_tr c1 ExMore.after_single_shot) /\
  calls 1 (ExMore.res_tr c1 ExMore.after_single_shot) = O.
Proof.
  intros c1.
  split; [reflexivity|]. split; [vm_compute; discriminate|].
  split; [vm_compute; reflexivity|]. split; [vm_compute; discriminate|].
  split; [vm_compute; reflexivity|].
  apply (X2_removed_timer_stays_removed ExRun.o2 ExRun.single_shot
           ExMore.after_single_shot (ExRun.start ExRun.o2) O
           c1.1 c1.2 (ExRun.final_tr ExRun.o2 ExRun.single_shot)
           (ExMore.res_d c1 ExMore.after_single_shot)
           (ExMore.res_w c1 ExMore.after_single_shot)
           (ExMore.res_tr c1 ExMore.after_single_shot) 1);
    [reflexivity|vm_compute; discriminate|vm_compute; reflexivity
    |vm_compute; discriminate|vm_compute; reflexivity].
Defined.

Lemma X3_Init_drops_waiting_admissions_witness :
  let d := ExRun.final_d ExRun.o2 ExMore.one_live in
  let d1 := (NewTimer 6 5 (Some Ex.bump) [] d).2 in
  let c2 := ((Init [] d1).1, 1%nat) in
  @newScheduler nat ExRun.o2 = Ok (ExRun.start ExRun.o2) /\
  Z.of_nat (length ExMore.one_live) + 1 + Z.of_nat (length ExMore.one_tick)
    <= Int64.max_int /\
  run ExMore.one_live (ExRun.start ExRun.o2, O) = Some ((d, O), ExRun.final_tr ExRun.o2 ExMore.one_live) /\
  Init [] d1 = (c2.1, None) /\
  run ExMore.one_tick c2
    = Some ((ExMore.res_d c2 ExMore.one_tick,
             ExMore.res_w c2 ExMore.one_tick),
            ExMore.res_tr c2 ExMore.one_tick) /\
  timers (ExMore.res_d c2 ExMore.one_tick) !! 2 = None.
Proof.
  intros d d1 c2.
  split; [reflexivity|]. split; [vm_compute; discriminate|].
  split; [vm_compute; reflexivity|]. split; [vm_compute; reflexivity|].
  split; [vm_compute; reflexivity|].
  apply (X3_Init_drops_waiting_admissions ExRun.o2 ExMore.one_live
           ExMore.one_tick (ExRun.start ExRun.o2) O d O
           (ExRun.final_tr ExRun.o2 ExMore.one_live) 6 5 (Some Ex.bump) [] []
           c2.1 c2.2
           (ExMore.res_d c2 ExMore.one_tick)
           (ExMore.res_w c2 ExMore.one_tick)
           (ExMore.res_tr c2 ExMore.one_tick));
    [reflexivity|vm_compute; discriminate|vm_compute; reflexivity
    |vm_compute; reflexivity|vm_compute; reflexivity].
Defined.

Lemma X4_waiting_admissions_are_all_stored_witness :
  let d := ExRun.final_d ExRun.o2 ExRun.stopped in
  @newScheduler nat ExRun.o2 = Ok (ExRun.start ExRun.o2) /\
  Z.of_nat (length ExRun.stopped) <= Int64.max_int /\
  run ExRun.stopped (ExRun.start ExRun.o2, O)
    = Some ((d, O), ExRun.final_tr ExRun.o2 ExRun.stopped) /\
  exists d2,
    Start_loop (repeat EvCreated (length (ChCreatedTimer d))) (d, O)
      = Some (InLoop, (d2, O), []) /\
    ChCreatedTimer d2 = [] /\
    (forall t, t ∈ ChCreatedTimer d -> timers d2 !! Timer_id t = Some t) /\
    (forall k t, timers d !! k = Some t -> timers d2 !! k = Some t) /\
    (forall k, is_Some (timers d2 !! k) ->
       is_Some (timers d !! k) \/ k ∈ (Timer_id <$> ChCreatedTimer d)).
Proof.
  intros d.
  split; [reflexivity|]. split; [vm_compute; discriminate|].
  split; [vm_compute; reflexivity|].
  apply (X4_waiting_admissions_are_all_stored ExRun.o2 ExRun.stopped
           (ExRun.start ExRun.o2) O d O (ExRun.final_tr ExRun.o2 ExRun.stopped));
    [reflexivity|vm_compute; discriminate|vm_compute; reflexivity].
Defined.

Lemma X6_cancelled_timer_leaves_when_served_witness :
  let d := ExRun.final_d ExRun.o2 ExMore.one_live in
  let d1 := (RemoveTimer 1 d).2 in
  @newScheduler nat ExRun.o2 = Ok (ExRun.start ExRun.o2) /\
  Z.of_nat (length ExMore.one_live) <= Int64.max_int /\
  run ExMore.one_live (ExRun.start ExRun.o2, O)
    = Some ((d, O), ExRun.final_tr ExRun.o2 ExMore.one_live) /\
  RemoveTimer 1 d = (None, d1) /\
  chan_len (timerBacklog (opts d)) (ChClosingTimer d) < timerBacklog (opts d) /\
  exists d2 tr2,
    Start_loop (repeat EvClosing (length (ChClosingTimer d1))) (d1, O)
      = Some (InLoop, (d2, O), tr2) /\
    ChClosingTimer d2 = [] /\
    timers d2 !! 1 = None /\
    RemoveTimer 1 d2 = (Some ErrTimerNotFound, d2) /\
    (forall k, calls k tr2 = O) /\
    (forall k t, timers d1 !! k = Some t -> 0 < Timer_closed t -> timers d2 !! k = None) /\
    (forall k t, timers d1 !! k = Some t -> Timer_closed t <= 0 -> timers d2 !! k = Some t).
Proof.
  intros d d1.
  split; [reflexivity|]. split; [vm_compute; discriminate|].
  split; [vm_compute; reflexivity|]. split; [vm_compute; reflexivity|].
  split; [vm_compute; reflexivity|].
  apply (X6_cancelled_timer_leaves_when_served ExRun.o2 ExMore.one_live
           (ExRun.start ExRun.o2) O d O (ExRun.final_tr ExRun.o2 ExMore.one_live) 1 d1);
    [reflexivity|vm_compute; discriminate|vm_compute; reflexivity
    |vm_compute; reflexivity|vm_compute; reflexivity].
Defined.

Lemma X7_zero_backlog_never_retires_witness :
  let c0 := (ExRun.start ExMore.o0, O) in
  let c1 := (ExMore.res_d c0 ExMore.cancel_without_backlog,
             ExMore.res_w c0 ExMore.cancel_without_backlog) in
  @newScheduler nat ExMore.o0 = Ok (ExRun.start ExMore.o0) /\
  timerBacklog ExMore.o0 = 0 /\
  Z.of_nat (length ExMore.cancel_without_backlog)
    + Z.of_nat (length ExMore.more_without_backlog) <= Int64.max_int /\
  run ExMore.cancel_without_backlog c0
    = Some (c1, ExMore.res_tr c0 ExMore.cancel_without_backlog) /\
  run ExMore.more_without_backlog c1
    = Some ((ExMore.res_d c1 ExMore.more_without_backlog,
             ExMore.res_w c1 ExMore.more_without_backlog),
            ExMore.res_tr c1 ExMore.more_without_backlog) /\
  ChClosingTimer (ExMore.res_d c1 ExMore.more_without_backlog) = [].
Proof.
  intros c0 c1.
  split; [reflexivity|]. split; [reflexivity|]. split; [vm_compute; discriminate|].
  split; [vm_compute; reflexivity|]. split; [vm_compute; reflexivity|].
  apply (X7_zero_backlog_never_retires ExMore.o0 ExMore.cancel_without_backlog
           ExMore.more_without_backlog (ExRun.start ExMore.o0) O c1.1 c1.2
           (ExMore.res_tr c0 ExMore.cancel_without_backlog)
           (ExMore.res_d c1 ExMore.more_without_backlog)
           (ExMore.res_w c1 ExMore.more_without_backlog)
           (ExMore.res_tr c1 ExMore.more_without_backlog));
    [reflexivity|reflexivity|vm_compute; discriminate
    |vm_compute; reflexivity|vm_compute; reflexivity].
Defined.

(** The cancelled timer of the run without backlog: its counter is 0, it is
    still in the set and is not marked closed. *)
Example cancel_without_backlog_state :
  let c0 := (ExRun.start ExMore.o0, O) in
  let d := ExMore.res_d c0 ExMore.cancel_without_backlog in
  Counter ∘ Timer_opts <$> (timers d !! 1) = Some 0 /\
  Timer_closed <$> (timers d !! 1) = Some 0 /\
  ExMore.res_tr c0 ExMore.cancel_without_backlog
    = [ObsAdmit (new_record 1 0 5 (Some Ex.bump) [])].
Proof. repeat split. Qed.

Lemma X8_scan_independent_of_order_witness :
  NoDup [1; 2] /\ NoDup [2; 1] /\
  (forall k : Z, k ∈ [1; 2] <-> k ∈ [2; 1]) /\
  (forall k, calls k (Cron 10 [1; 2] (ExScan.faulty_and_sound, O)).2
             = calls k (Cron 10 [2; 1] (ExScan.faulty_and_sound, O)).2).
Proof.
  assert (Hsame : forall k : Z, k ∈ [1; 2] <-> k ∈ [2; 1]).
  { intros k. rewrite !elem_of_cons. tauto. }
  split; [by_decision|]. split; [by_decision|]. split; [exact Hsame|].
  apply (X8_scan_independent_of_order 10 [1; 2] [2; 1] ExScan.faulty_and_sound O O);
    [by_decision|by_decision|exact Hsame].
Defined.

Lemma X9_idle_scan_changes_nothing_witness :
  idle_at 3 [1; 2] ExScan.faulty_and_sound = true /\
  Cron 3 [1; 2] (ExScan.faulty_and_sound, O) = ((ExScan.faulty_and_sound, O), []).
Proof.
  split; [reflexivity|].
  apply (X9_idle_scan_changes_nothing 3 [1; 2] ExScan.faulty_and_sound O). reflexivity.
Defined.

Lemma X10_negative_counter_is_never_used_up_witness :
  let t := Ex.interval_timer 1 0 5 LoopForever (Some Ex.boom) in
  NoDup [1; 2] /\ timers ExScan.faulty_and_sound !! 1 = Some t /\
  Counter (Timer_opts t) < 0 /\
  exists t', timers (Cron 10 [1; 2] (ExScan.faulty_and_sound, O)).1.1 !! 1 = Some t' /\
    Counter (Timer_opts t') = Counter (Timer_opts t) /\
    Timer_closed t' = Timer_closed t /\
    Condition (Timer_opts t') = Condition (Timer_opts t).
Proof.
  intros t.
  split; [by_decision|]. split; [reflexivity|]. split; [reflexivity|].
  apply (X10_negative_counter_is_never_used_up 10 [1; 2] ExScan.faulty_and_sound O 1 t);
    [by_decision|reflexivity|reflexivity].
Defined.

Lemma X11_late_timer_catches_up_one_per_scan_witness :
  let t := Ex.interval_timer 2 0 5 3 (Some Ex.bump) in
  NoDup [1; 2] /\ 2 ∈ [1; 2] /\ timers ExScan.faulty_and_sound !! 2 = Some t /\
  Condition (Timer_opts t) = None /\ Counter (Timer_opts t) <> 0 /\
  Int64.in_range (Timer_createAt t + Timer_elapse t) /\
  Int64.in_range (Timer_elapse t + Interval (Timer_opts t)) /\
  Int64.in_range (Timer_createAt t + Timer_elapse t + Interval (Timer_opts t)) /\
  Timer_createAt t + Timer_elapse t <= UnixNano 12 /\
  calls 2 (Cron 12 [1; 2] (ExScan.faulty_and_sound, O)).2 = 1%nat.
Proof.
  intros t.
  split; [by_decision|]. split; [by_decision|]. split; [reflexivity|].
  split; [reflexivity|]. split; [vm_compute; discriminate|].
  split; [vm_compute; split; discriminate|]. split; [vm_compute; split; discriminate|].
  split; [vm_compute; split; discriminate|]. split; [vm_compute; discriminate|].
  apply (X11_late_timer_catches_up_one_per_scan 12 [1; 2] ExScan.faulty_and_sound O 2 t);
    [by_decision|by_decision|reflexivity|reflexivity|vm_compute; discriminate
    |vm_compute; split; discriminate|vm_compute; split; discriminate
    |vm_compute; split; discriminate|vm_compute; discriminate].
Defined.

Lemma X12_exit_fired_once_by_Stop_witness :
  let d := ExRun.final_d ExRun.o2 ExRun.stopped in
  @newScheduler nat ExRun.o2 = Ok (ExRun.start ExRun.o2) /\
  run ExRun.stopped (ExRun.start ExRun.o2, O)
    = Some ((d, O), ExRun.final_tr ExRun.o2 ExRun.stopped) /\
  (stops ExRun.stopped <= 1)%nat.
Proof.
  intros d. split; [reflexivity|]. split; [vm_compute; reflexivity|].
  apply (X12_exit_fired_once_by_Stop ExRun.o2 ExRun.stopped
           (ExRun.start ExRun.o2) O d O (ExRun.final_tr ExRun.o2 ExRun.stopped));
    [reflexivity|vm_compute; reflexivity].
Defined.

Lemma X13_reachable_states_are_well_formed_witness :
  let d := ExRun.final_d ExRun.o2 ExRun.stopped in
  @newScheduler nat ExRun.o2 = Ok (ExRun.start ExRun.o2) /\
  Z.of_nat (length ExRun.stopped) <= Int64.max_int /\
  run ExRun.stopped (ExRun.start ExRun.o2, O)
    = Some ((d, O), ExRun.final_tr ExRun.o2 ExRun.stopped) /\
  NoDup (Timer_id <$> ChCreatedTimer d).
Proof.
  intros d.
  split; [reflexivity|]. split; [vm_compute; discriminate|].
  split; [vm_compute; reflexivity|].
  apply (X13_reachable_states_are_well_formed ExRun.o2 ExRun.stopped
           (ExRun.start ExRun.o2) O d O (ExRun.final_tr ExRun.o2 ExRun.stopped));
    [reflexivity|vm_compute; discriminate|vm_compute; reflexivity].
Defined.

Lemma X14_no_firing_before_one_interval_witness :
  let d := ExRun.start ExRun.o2 in
  let d1 := (NewTimer 0 5 (Some Ex.bump) [] d).2 in
  let a := new_record 1 0 5 (Some Ex.bump) [] in
  @newScheduler nat ExRun.o2 = Ok d /\
  Z.of_nat (length (@nil (@Op nat))) + 1 + Z.of_nat (length ExMore.three_ticks)
    <= Int64.max_int /\
  run [] (d, O) = Some ((d, O), []) /\
  timely a /\
  ticks_fit (Interval (Timer_opts a)) ExMore.three_ticks = true /\
  run ExMore.three_ticks (d1, O)
    = Some ((ExMore.res_d (d1, O) ExMore.three_ticks,
             ExMore.res_w (d1, O) ExMore.three_ticks),
            ExMore.res_tr (d1, O) ExMore.three_ticks) /\
  Forall (fun n => UnixNano 0 + Interval (Timer_opts a) <= UnixNano n)
         (call_times 1 ExMore.three_ticks (d1, O)).
Proof.
  intros d d1 a.
  assert (Hty : timely a).
  { unfold timely. split; [reflexivity|]. split; [reflexivity|].
    split; [vm_compute; discriminate|]. split; vm_compute; discriminate. }
  split; [reflexivity|]. split; [vm_compute; discriminate|].
  split; [reflexivity|]. split; [exact Hty|]. split; [reflexivity|].
  split; [vm_compute; reflexivity|].
  apply (X14_no_firing_before_one_interval ExRun.o2 [] ExMore.three_ticks d O d O []
           0 5 (Some Ex.bump) []
           (ExMore.res_d (d1, O) ExMore.three_ticks)
           (ExMore.res_w (d1, O) ExMore.three_ticks)
           (ExMore.res_tr (d1, O) ExMore.three_ticks));
    [reflexivity|vm_compute; discriminate|reflexivity|exact Hty|reflexivity
    |vm_compute; reflexivity].
Defined.

(** The ticks of [three_ticks] at which the callback of timer 1 is entered:
    not the one at 3, which comes before the first interval has passed. *)
Example three_ticks_call_times :
  call_times 1 ExMore.three_ticks
    ((NewTimer 0 5 (Some Ex.bump) [] (ExRun.start ExRun.o2)).2, O) = [10; 20].
Proof. reflexivity. Qed.

(** ** Retirement by the scan *)

Section ScanRetires.
Context {W : Type}.
Implicit Types (d : @DefaultScheduler W) (c : @Config W) (w : W)
  (t a : @Timer W) (tr : list (@Obs W)) (order : list Z) (op : @Op W).

Lemma zeros_ext order d d' :
  (forall k, k ∈ order -> timers d' !! k = timers d !! k) ->
  zeros order d' = zeros order d.
Proof.
  induction order as [|k rest IH]; intros Hsame; cbn [zeros]; [reflexivity|].
  rewrite IH by (intros j Hj; apply Hsame; apply elem_of_cons; auto).
  unfold zero_open_at. rewrite Hsame by (apply elem_of_cons; auto). reflexivity.
Qed.

(** What a visit does to the retirement channel. *)
Lemma cron_visit_retires now id t d w d' w' tr :
  timers d !! id = Some t ->
  Z.of_nat (length (ChClosingTimer d)) + (if zero_open_at id d then 1 else 0)
    <= timerBacklog (opts d) ->
  cron_visit now id t (d, w) = ((d', w'), tr) ->
  if zero_open_at id d
  then timers d' !! id = Some (set_closed 1 t) /\
       ChClosingTimer d' = ChClosingTimer d ++ [Timer_id t]
  else ChClosingTimer d' = ChClosingTimer d.
Proof.
  intros Hk Hroom. unfold zero_open_at in *. rewrite Hk in *.
  destruct (Counter (Timer_opts t) =? 0) eqn:E0; cbn [andb] in *.
  - apply Z.eqb_eq in E0. intros Hv.
    destruct (cron_visit_zero _ _ _ _ _ _ _ _ Hk E0 Hv)
      as (_ & _ & [[-> Hfull]|[[-> Hcl]|(Hcl & Hlen & Ht' & Hq)]]).
    + destruct (Timer_closed t <=? 0); [lia|reflexivity].
    + destruct (Timer_closed t <=? 0) eqn:Ec; [apply Z.leb_le in Ec; lia|reflexivity].
    + apply Z.leb_le in Hcl. rewrite Hcl. split; assumption.
  - unfold cron_visit. rewrite E0.
    destruct (Condition (Timer_opts t)) as [cond|];
      [destruct (cond now)|destruct (due now t)];
      try destruct (pexec _ _ _) as [w1 tr1]; intros [= <- <- <-]; reflexivity.
Qed.

Lemma Cron_range_retires now order : forall d w d' w' tr,
  NoDup order ->
  Z.of_nat (length (ChClosingTimer d)) + Z.of_nat (zeros order d)
    <= timerBacklog (opts d) ->
  Cron_range now order (d, w) = ((d', w'), tr) ->
  Z.of_nat (length (ChClosingTimer d'))
    = Z.of_nat (length (ChClosingTimer d)) + Z.of_nat (zeros order d) /\
  forall k t, k ∈ order -> timers d !! k = Some t ->
    Counter (Timer_opts t) = 0 -> Timer_closed t <= 0 ->
    timers d' !! k = Some (set_closed 1 t) /\ Timer_id t ∈ ChClosingTimer d'.
Proof.
  induction order as [|id rest IH]; intros d w d' w' tr Hnd Hroom;
    cbn [Cron_range fst zeros] in *.
  - intros [= <- <- <-]. split; [lia|]. intros k t Hin. inversion Hin.
  - apply NoDup_cons in Hnd as [Hnin Hnd].
    destruct (timers d !! id) as [t|] eqn:Hk.
    + destruct (cron_visit now id t (d, w)) as [[d1 w1] tr1] eqn:Hv.
      destruct (Cron_range now rest (d1, w1)) as [[d2 w2] tr2] eqn:Hr.
      intros [= <- <- <-].
      destruct (cron_visit_frame _ _ _ _ _ _ _ _ Hv) as (Ho & _ & _ & _ & Hout & _).
      assert (Hz : zeros rest d1 = zeros rest d).
      { apply zeros_ext. intros k Hin. apply Hout. congruence. }
      pose proof (cron_visit_retires _ _ _ _ _ _ _ _ Hk ltac:(destruct (zero_open_at id d); lia) Hv)
        as Hvisit.
      assert (Hlen1 : Z.of_nat (length (ChClosingTimer d1))
                      = Z.of_nat (length (ChClosingTimer d))
                        + Z.of_nat (if zero_open_at id d then 1 else 0)).
      { destruct (zero_open_at id d).
        - destruct Hvisit as [_ ->]. rewrite length_app. cbn. lia.
        - rewrite Hvisit. lia. }
      destruct (IH d1 w1 d2 w2 tr2 Hnd ltac:(rewrite Ho, Hz; lia) Hr) as [Hlen2 Hall].
      destruct (Cron_range_frame _ _ _ _ _ _ _ Hr) as (_ & _ & _ & _ & Hout2 & _ & [l Hl] & _).
      split; [rewrite Hlen2, Hlen1, Hz; lia|].
      intros k t0 Hin Hk0 Hc0 Hcl0. apply elem_of_cons in Hin as [->|Hin].
      * assert (t0 = t) by congruence. subst t0.
        assert (Hzo : zero_open_at id d = true).
        { unfold zero_open_at. rewrite Hk. apply andb_true_iff.
          split; [apply Z.eqb_eq|apply Z.leb_le]; assumption. }
        rewrite Hzo in Hvisit. destruct Hvisit as [Ht1 Hq1].
        split; [rewrite Hout2 by assumption; exact Ht1|].
        rewrite Hl, Hq1. apply elem_of_app; left. apply elem_of_app; right.
        apply list_elem_of_singleton; reflexivity.
      * apply Hall; try assumption. rewrite Hout by congruence. assumption.
    + intros Hr.
      assert (Hzo : zero_open_at id d = false) by (unfold zero_open_at; rewrite Hk; reflexivity).
      rewrite Hzo in *. cbn [Nat.add] in *.
      destruct (IH d w d' w' tr Hnd Hroom Hr) as [Hlen Hall].
      split; [exact Hlen|].
      intros k t0 Hin Hk0 Hc0 Hcl0. apply elem_of_cons in Hin as [->|Hin]; [congruence|].
      apply Hall; assumption.
Qed.

(** X15: a scan sends to retirement every record with counter 0 it visits,
    when the retirement channel has room for all of them.  If the ids that
    wait on the channel and the visited records that have counter 0 and are
    not yet closed together do not exceed the capacity, the scan marks each
    of these records closed and puts its id on the channel, which grows by
    exactly their number. *)
Theorem X15_scan_retires_all_zero_counters_given_room now order d w :
  NoDup order ->
  Z.of_nat (length (ChClosingTimer d)) + Z.of_nat (zeros order d)
    <= timerBacklog (opts d) ->
  Z.of_nat (length (ChClosingTimer (Cron now order (d, w)).1.1))
    = Z.of_nat (length (ChClosingTimer d)) + Z.of_nat (zeros order d) /\
  forall k t, k ∈ order -> timers d !! k = Some t ->
    Counter (Timer_opts t) = 0 -> Timer_closed t <= 0 ->
    timers (Cron now order (d, w)).1.1 !! k = Some (set_closed 1 t) /\
    Timer_id t ∈ ChClosingTimer (Cron now order (d, w)).1.1.
Proof.
  intros Hnd Hroom. unfold Cron.
  destruct (Cron_range now order (d, w)) as [[d' w'] tr] eqn:Hr. cbn [fst].
  exact (Cron_range_retires _ _ _ _ _ _ _ Hnd Hroom Hr).
Qed.

End ScanRetires.

Lemma X15_scan_retires_all_zero_counters_given_room_witness :
  let d := ExRun.final_d ExRun.o2 ExMore.two_zero_counters in
  NoDup [1; 2] /\
  Z.of_nat (length (ChClosingTimer d)) + Z.of_nat (zeros [1; 2] d)
    <= timerBacklog (opts d) /\
  Z.of_nat (length (ChClosingTimer (Cron 10 [1; 2] (d, O)).1.1))
    = Z.of_nat (length (ChClosingTimer d)) + Z.of_nat (zeros [1; 2] d).
Proof.
  intros d. split; [by_decision|]. split; [vm_compute; discriminate|].
  apply (X15_scan_retires_all_zero_counters_given_room 10 [1; 2] d O);
    [by_decision|vm_compute; discriminate].
Defined.

(** The scan of the two zero-counter timers with a backlog of 2: both ids
    are sent, and no callback is entered. *)
Example two_zero_counters_scan :
  let d := ExRun.final_d ExRun.o2 ExMore.two_zero_counters in
  ChClosingTimer (Cron 10 [1; 2] (d, O)).1.1 = [1; 2] /\
  (Cron 10 [1; 2] (d, O)).2 = [] /\ zeros [1; 2] d = 2%nat.
Proof. repeat split. Qed.
